(** * Personal-record (PR) detection of the Fithub client

    A shallow embedding of the PR subsystem of [services/workoutApi.ts]
    ([getPRKey], [dateHasPR], [dateHasCurrentPR], [calculatePRs],
    [getPRSummaryForRecord]) together with the properties of its
    specification.

    Modelling conventions.
    - A JavaScript [number] that the code only stores and compares is a
      canonical rational [Qc] (weights) or an integer [Z] (repetitions,
      identifiers); [NaN] and the infinities cannot be carried by the JSON
      the records come from.
    - An optional property ([maxWeightPR?: boolean], an array reached
      through [?.]) is an [option]; [None] is [undefined].
    - A plain object used as a dictionary is a [gmap] with [string] keys,
      holding the properties of the object's own.  A read [o[k]] also sees
      the members inherited from [Object.prototype] ([Js.read]); the keys of
      the PR map end in an underscore and digits and so are never the name
      of such a member.
    - What ECMAScript leaves to the engine, the time value of a string that
      is not a calendar date and the order in which [Array.prototype.sort]
      leaves an array under an inconsistent comparator, is left open: the
      code is a function of an engine ([Module Engine]), and the properties
      hold for every engine.
    - The records array is a heap cell where a claim is about mutation
      ([Module Heap]); everywhere else it is a [list]. *)

From Stdlib Require Import ZArith QArith Qcanon Ascii String List Permutation Sorted Lia.
From stdpp Require Import base option list gmap strings pretty fin_maps numbers sorting.

Local Open Scope string_scope.
Local Open Scope Z_scope.

(** ** Data model ([types/exercise.ts]) *)

Module TrainingSet.
Record t := mk {
  id : Z;
  setNumber : Z;
  weight : Qc;
  reps : Z
}.
End TrainingSet.

Module TrainingRecordExercise.
Record t := mk {
  id : Z;
  name : string;
  muscle : string;
  custom : bool;
  sets : option (list TrainingSet.t)
}.
End TrainingRecordExercise.

Module TrainingRecord.
Record t := mk {
  id : Z;
  date : string;
  memo : option string;
  exercises : option (list TrainingRecordExercise.t)
}.
End TrainingRecord.

(** ** Calendar dates written [YYYY-MM-DD]

    The dates of the data model are calendar dates in the date-only form
    [YYYY-MM-DD] of the ECMAScript date-time string format.  For such a
    string ECMAScript fixes the time value of [new Date(s)]: midnight UTC of
    that day, in milliseconds since 1970-01-01.  This module describes those
    strings and their time values.  What [new Date(s).getTime()] answers for
    any other string is left to the engine (for ["2024-02-30"] V8 answers
    the time value of the first of March, other engines answer [NaN]); see
    [Engine]. *)

Module IsoDate.

Definition digit (c : ascii) : option Z :=
  let n := Z.of_nat (nat_of_ascii c) in
  if (48 <=? n) && (n <=? 57) then Some (n - 48) else None.

Definition isDash (c : ascii) : bool := Nat.eqb (nat_of_ascii c) 45.

Definition inLeapYear (y : Z) : bool :=
  (y mod 4 =? 0) && (negb (y mod 100 =? 0) || (y mod 400 =? 0)).

Definition dayFromYear (y : Z) : Z :=
  365 * (y - 1970) + (y - 1969) / 4 - (y - 1901) / 100 + (y - 1601) / 400.

Definition daysInMonth (leap : bool) (m : Z) : Z :=
  if m =? 2 then (if leap then 29 else 28)
  else if (m =? 4) || (m =? 6) || (m =? 9) || (m =? 11) then 30
  else 31.

(** Number of days of the year that precede month [m] (1-based). *)
Definition dayWithinYear (leap : bool) (m : Z) : Z :=
  let l := if leap then 1 else 0 in
  if m =? 1 then 0
  else if m =? 2 then 31
  else if m =? 3 then 59 + l
  else if m =? 4 then 90 + l
  else if m =? 5 then 120 + l
  else if m =? 6 then 151 + l
  else if m =? 7 then 181 + l
  else if m =? 8 then 212 + l
  else if m =? 9 then 243 + l
  else if m =? 10 then 273 + l
  else if m =? 11 then 304 + l
  else 334 + l.

Definition msPerDay : Z := 86400000.

(** Midnight UTC of day [d] of month [m] (1-based) of year [y]. *)
Definition utcMidnight (y m d : Z) : Z :=
  (dayFromYear y + dayWithinYear (inLeapYear y) m + d - 1) * msPerDay.

(** The time value of a day of the calendar; [None] when the calendar has no
    such day. *)
Definition timeOfDay (y m d : Z) : option Z :=
  if (1 <=? m) && (m <=? 12) && (1 <=? d) && (d <=? daysInMonth (inLeapYear y) m)
  then Some (utcMidnight y m d)
  else None.

(** The ten characters of [YYYY-MM-DD], split into year, month and day. *)
Definition fields (s : string) : option (Z * Z * Z) :=
  match s with
  | String y1 (String y2 (String y3 (String y4 (String s1
      (String m1 (String m2 (String s2 (String d1 (String d2 EmptyString))))))))) =>
      if isDash s1 && isDash s2 then
        a ← digit y1; b ← digit y2; c ← digit y3; d ← digit y4;
        e ← digit m1; f ← digit m2; g ← digit d1; h ← digit d2;
        Some (1000 * a + 100 * b + 10 * c + d, 10 * e + f, 10 * g + h)
      else None
  | _ => None
  end.

(** The time value of a calendar date written [YYYY-MM-DD]; [None] when the
    string is not one. *)
Definition calendarTime (s : string) : option Z :=
  '(y, m, d) ← fields s; timeOfDay y m d.

End IsoDate.

(** ** JavaScript idioms used by the PR code *)

Module Js.

(** The names of the members that an object created by [{}] inherits from
    [Object.prototype].  Reading one of them from a dictionary that has no
    property of its own by that name gives a function (for [__proto__], the
    prototype object) and not [undefined]. *)
Definition objectPrototype : list string :=
  [ "constructor"; "hasOwnProperty"; "isPrototypeOf"; "propertyIsEnumerable";
    "toLocaleString"; "toString"; "valueOf"; "__proto__";
    "__defineGetter__"; "__defineSetter__"; "__lookupGetter__"; "__lookupSetter__" ].

(** What [o[k]] evaluates to, for a dictionary [o] created by [{}]: the value
    [o] holds at [k]; or, when it holds none, the member of
    [Object.prototype] called [k]; or [undefined]. *)
Inductive Value (A : Type) : Type :=
  | Own (a : A)
  | Inherited
  | Undefined.
Arguments Own {A} a.
Arguments Inherited {A}.
Arguments Undefined {A}.

Definition read {A : Type} (o : gmap string A) (k : string) : Value A :=
  match o !! k with
  | Some a => Own a
  | None => if bool_decide (k ∈ objectPrototype) then Inherited else Undefined
  end.

(** [!o[k]] for a dictionary of numbers: true on [undefined] and on [0];
    functions and objects are truthy. *)
Definition falsy (x : Value Qc) : bool :=
  match x with
  | Own q => bool_decide (q = 0%Qc)
  | Inherited => false
  | Undefined => true
  end.

(** Truthiness of an optional boolean property. *)
Definition truthy (x : option bool) : bool :=
  match x with
  | Some true => true
  | _ => false
  end.

(** [a > o[k]] and [a === o[k]] for a number [a].  Both are false when
    [o[k]] is [undefined]; they are false as well when it is an inherited
    member, which [>] converts to [NaN] and which [===] finds to be no
    number. *)
Definition gtQ (a : Qc) (b : Value Qc) : bool :=
  match b with
  | Own q => bool_decide (q < a)%Qc
  | _ => false
  end.

Definition eqQ (a : Qc) (b : Value Qc) : bool :=
  match b with
  | Own q => bool_decide (a = q)
  | _ => false
  end.

Definition gtZ (a : Z) (b : Value Z) : bool :=
  match b with
  | Own z => bool_decide (z < a)
  | _ => false
  end.

Definition eqZ (a : Z) (b : Value Z) : bool :=
  match b with
  | Own z => bool_decide (a = z)
  | _ => false
  end.

(** [xs.forEach((x, i) => ...)] as a left-to-right fold that threads the
    variables the callback assigns. *)
Fixpoint forEachFrom {A St : Type} (f : St → A → nat → St) (i : nat)
    (xs : list A) (s : St) : St :=
  match xs with
  | [] => s
  | x :: xs' => forEachFrom f (S i) xs' (f s x i)
  end.

Definition forEach {A St : Type} (f : St → A → nat → St) (xs : list A) (s : St) : St :=
  forEachFrom f 0 xs s.

(** [xs?.forEach(...)]: nothing happens when [xs] is [undefined]. *)
Definition forEachOpt {A St : Type} (f : St → A → nat → St)
    (xs : option (list A)) (s : St) : St :=
  match xs with
  | Some l => forEach f l s
  | None => s
  end.

(** [SortCompare] of [Array.prototype.sort]: the number the comparator
    answers, a [NaN] being read as [+0]. *)
Definition sortCompare {A : Type} (comparefn : A → A → option Z) (x y : A) : Z :=
  default 0 (comparefn x y).

(** The comparator is a consistent comparator for the elements of [l], in
    the words of ECMAScript: it answers a number and never [NaN], every
    element compares equal to itself, comparing equal is symmetric and
    transitive, and so are comparing smaller and comparing greater
    transitive. *)
Definition consistent {A : Type} (comparefn : A → A → option Z) (l : list A) : Prop :=
  ∀ a b c, a ∈ l → b ∈ l → c ∈ l →
    is_Some (comparefn a b)
    ∧ sortCompare comparefn a a = 0
    ∧ (sortCompare comparefn a b = 0 → sortCompare comparefn b a = 0)
    ∧ (sortCompare comparefn a b = 0 → sortCompare comparefn b c = 0 →
       sortCompare comparefn a c = 0)
    ∧ (sortCompare comparefn a b < 0 → sortCompare comparefn b c < 0 →
       sortCompare comparefn a c < 0)
    ∧ (sortCompare comparefn a b > 0 → sortCompare comparefn b c > 0 →
       sortCompare comparefn a c > 0).

(** A stable sort, used as the reference: insertion sort, which puts an
    element in front of the first one that does not compare smaller. *)
Fixpoint insertSorted {A : Type} (comparefn : A → A → option Z) (x : A) (l : list A)
    : list A :=
  match l with
  | [] => [x]
  | y :: l' =>
      if sortCompare comparefn x y <=? 0 then x :: l
      else y :: insertSorted comparefn x l'
  end.

Fixpoint stableSort {A : Type} (comparefn : A → A → option Z) (l : list A) : list A :=
  match l with
  | [] => []
  | x :: l' => insertSorted comparefn x (stableSort comparefn l')
  end.

End Js.

(** ** The JavaScript engine

    The code calls two library functions that ECMAScript specifies only in
    part; what it leaves open differs between engines.

    - [new Date(s).getTime()].  For a calendar date written [YYYY-MM-DD] the
      answer is fixed ([IsoDate.calendarTime]).  For any other string it is
      left to the engine.
    - [Array.prototype.sort] with a comparator.  The sorted array is a
      permutation of the array, and its order depends on the elements only
      through what the comparator answers for them.  Where the comparator
      is a consistent comparator for the elements, the array is sorted by
      it and the sort is stable.  Where it is not, as when it answers [NaN]
      for some elements, the order is left to the engine.

    An engine is any pair of functions that meets this; the properties of
    the code are stated for every engine. *)

Module Engine.
Record t := mk {
  getTime : string → option Z;
  sort : ∀ A : Type, (A → A → option Z) → list A → list A;
  getTime_calendar : ∀ s t, IsoDate.calendarTime s = Some t → getTime s = Some t;
  sort_permutation : ∀ A comparefn (l : list A), sort A comparefn l ≡ₚ l;
  sort_comparisons :
    ∀ A B (f : A → B) (cmpA : A → A → option Z) (cmpB : B → B → option Z) (l : list A),
      (∀ x y, x ∈ l → y ∈ l → cmpB (f x) (f y) = cmpA x y) →
      sort B cmpB (f <$> l) = f <$> sort A cmpA l;
  sort_sorted :
    ∀ A comparefn (l : list A), Js.consistent comparefn l →
      StronglySorted (λ x y, Js.sortCompare comparefn x y ≤ 0) (sort A comparefn l);
  sort_stable :
    ∀ A comparefn (l : list A), Js.consistent comparefn l →
      ∀ x, x ∈ l →
        filter (λ y, Js.sortCompare comparefn x y = 0) (sort A comparefn l)
        = filter (λ y, Js.sortCompare comparefn x y = 0) l
}.
End Engine.

(** [new Date(s).getTime()] of an engine that, as V8 does, accepts the days
    29 to 31 in every month and counts on into the next month. *)
Definition lenientTime (s : string) : option Z :=
  '(y, m, d) ← IsoDate.fields s;
  if (1 <=? m) && (m <=? 12) && (1 <=? d) && (d <=? 31)
  then Some (IsoDate.utcMidnight y m d) else None.

(** ** PR data ([PRInfo], [PRData], [PRCalculationResult]) *)

Module PRInfo.
Record t := mk {
  maxWeightPR : option bool;
  repPR : option bool;
  isCurrentMaxPR : option bool;
  isCurrentRepPR : option bool;
  date : string;
  exercise : string;
  weight : Qc;
  reps : Z;
  setIndex : nat
}.

Definition markCurrentMax (pr : t) : t :=
  mk (maxWeightPR pr) (repPR pr) (Some true) (isCurrentRepPR pr)
     (date pr) (exercise pr) (weight pr) (reps pr) (setIndex pr).

Definition markCurrentRep (pr : t) : t :=
  mk (maxWeightPR pr) (repPR pr) (isCurrentMaxPR pr) (Some true)
     (date pr) (exercise pr) (weight pr) (reps pr) (setIndex pr).
End PRInfo.

Abbreviation PRData := (gmap string PRInfo.t).

Module PRCalculationResult.
Record t := mk {
  prData : PRData;
  maxWeightByExercise : gmap string Qc;
  maxRepsAtMaxWeight : gmap string Z
}.
End PRCalculationResult.

Import PRCalculationResult.

(** ** [getPRKey], [dateHasPR], [dateHasCurrentPR] *)

Definition getPRKey (date exerciseName : string) (setIndex : nat) : string :=
  date +:+ "_" +:+ exerciseName +:+ "_" +:+ pretty setIndex.

(** [Object.keys(prData)]; the callers only ask whether some key passes a
    test, so the order of the keys does not matter. *)
Definition keys (prData : PRData) : list string := (map_to_list prData).*1.

Definition dateHasPR (prData : PRData) (dateStr : string) : bool :=
  existsb (λ key, String.prefix (dateStr +:+ "_") key) (keys prData).

Definition dateHasCurrentPR (prData : PRData) (dateStr : string) : bool :=
  existsb (λ key,
    if negb (String.prefix (dateStr +:+ "_") key) then false
    else match prData !! key with
         | Some pr => Js.truthy (PRInfo.isCurrentMaxPR pr) || Js.truthy (PRInfo.isCurrentRepPR pr)
         | None => false
         end) (keys prData).

(** ** [calculatePRs] *)

(** The comparator of the sort, [new Date(a.date).getTime() -
    new Date(b.date).getTime()]; [None] is [NaN]. *)
Definition compareDates (E : Engine.t) (a b : TrainingRecord.t) : option Z :=
  x ← Engine.getTime E (TrainingRecord.date a);
  y ← Engine.getTime E (TrainingRecord.date b);
  Some (x - y).

(** [[...records].sort((a, b) => ...)] *)
Definition sortByDate (E : Engine.t) (records : list TrainingRecord.t)
    : list TrainingRecord.t :=
  Engine.sort E TrainingRecord.t (compareDates E) records.

(** The state of the replay: the three objects the loops assign to. *)
Definition initialState : PRCalculationResult.t :=
  PRCalculationResult.mk ∅ ∅ ∅.

(** The body of [ex.sets?.forEach((set, setIndex) => ...)].  An assignment
    [o[k] = v] is an insertion into [o]: it creates or overwrites a property
    of [o]'s own.  (The one name for which JavaScript would not create a
    property, [__proto__], never gets that far: the assignments are guarded
    by a read of [maxWeightByExercise[k]] that found a number or
    [undefined], and for [__proto__] that read finds the prototype
    object.) *)
Definition processSet (date exerciseName : string) (st : PRCalculationResult.t)
    (set : TrainingSet.t) (setIndex : nat) : PRCalculationResult.t :=
  let key := getPRKey date exerciseName setIndex in
  if Js.gtQ (TrainingSet.weight set) (Js.read (maxWeightByExercise st) exerciseName) then
    PRCalculationResult.mk
      (<[key := PRInfo.mk (Some true) (Some true) None None date exerciseName
                 (TrainingSet.weight set) (TrainingSet.reps set) setIndex]> (prData st))
      (<[exerciseName := TrainingSet.weight set]> (maxWeightByExercise st))
      (<[exerciseName := TrainingSet.reps set]> (maxRepsAtMaxWeight st))
  else if Js.eqQ (TrainingSet.weight set) (Js.read (maxWeightByExercise st) exerciseName)
          && Js.gtZ (TrainingSet.reps set) (Js.read (maxRepsAtMaxWeight st) exerciseName) then
    PRCalculationResult.mk
      (<[key := PRInfo.mk None (Some true) None None date exerciseName
                 (TrainingSet.weight set) (TrainingSet.reps set) setIndex]> (prData st))
      (maxWeightByExercise st)
      (<[exerciseName := TrainingSet.reps set]> (maxRepsAtMaxWeight st))
  else st.

(** [if (!maxWeightByExercise[exerciseName]) { ... = 0; ... = 0; }] *)
Definition initExercise (exerciseName : string) (st : PRCalculationResult.t)
    : PRCalculationResult.t :=
  if Js.falsy (Js.read (maxWeightByExercise st) exerciseName) then
    PRCalculationResult.mk (prData st)
      (<[exerciseName := 0%Qc]> (maxWeightByExercise st))
      (<[exerciseName := 0]> (maxRepsAtMaxWeight st))
  else st.

(** The body of [record.exercises?.forEach((ex) => ...)]. *)
Definition processExercise (date : string) (st : PRCalculationResult.t)
    (ex : TrainingRecordExercise.t) (_ : nat) : PRCalculationResult.t :=
  let exerciseName := TrainingRecordExercise.name ex in
  Js.forEachOpt (processSet date exerciseName) (TrainingRecordExercise.sets ex)
    (initExercise exerciseName st).

(** The body of [sortedRecords.forEach((record) => ...)]. *)
Definition processRecord (st : PRCalculationResult.t) (record : TrainingRecord.t)
    (_ : nat) : PRCalculationResult.t :=
  Js.forEachOpt (processExercise (TrainingRecord.date record))
    (TrainingRecord.exercises record) st.

(** The chronological replay, before the current flags are set. *)
Definition replay (sortedRecords : list TrainingRecord.t) : PRCalculationResult.t :=
  Js.forEach processRecord sortedRecords initialState.

(** The body of [Object.keys(prData).forEach((key) => ...)], applied to the
    entry stored at a key.  Every entry is an object of its own, so the loop
    is the pointwise update of the dictionary. *)
Definition markCurrent (maxWeight : gmap string Qc) (maxReps : gmap string Z)
    (pr : PRInfo.t) : PRInfo.t :=
  if bool_decide (PRInfo.exercise pr = "") then pr
  else
    let pr1 :=
      if Js.truthy (PRInfo.maxWeightPR pr)
         && Js.eqQ (PRInfo.weight pr) (Js.read maxWeight (PRInfo.exercise pr))
      then PRInfo.markCurrentMax pr else pr in
    if Js.truthy (PRInfo.repPR pr1)
       && Js.eqQ (PRInfo.weight pr1) (Js.read maxWeight (PRInfo.exercise pr1))
       && Js.eqZ (PRInfo.reps pr1) (Js.read maxReps (PRInfo.exercise pr1))
    then PRInfo.markCurrentRep pr1 else pr1.

Definition calculatePRs (E : Engine.t) (records : list TrainingRecord.t)
    : PRCalculationResult.t :=
  let sortedRecords := sortByDate E records in
  let st := replay sortedRecords in
  PRCalculationResult.mk
    (markCurrent (maxWeightByExercise st) (maxRepsAtMaxWeight st) <$> prData st)
    (maxWeightByExercise st)
    (maxRepsAtMaxWeight st).

(** ** [getPRSummaryForRecord] *)

Module PRSummaryItem.
Record t := mk {
  exercise : string;
  weight : Qc;
  reps : Z;
  isMaxWeightPR : bool;
  isRepPR : bool;
  isCurrentMaxPR : bool;
  isCurrentRepPR : bool
}.
End PRSummaryItem.

Module PRSummary.
Record t := mk {
  hasPR : bool;
  hasNowPR : bool;
  prSummary : list PRSummaryItem.t
}.
End PRSummary.

(** The body of [ex.sets?.forEach((s, setIndex) => ...)]; [push] appends. *)
Definition summarizeSet (prData : PRData) (date exerciseName : string)
    (acc : PRSummary.t) (s : TrainingSet.t) (setIndex : nat) : PRSummary.t :=
  match prData !! getPRKey date exerciseName setIndex with
  | Some pr =>
      let hasNowPR :=
        if Js.truthy (PRInfo.isCurrentMaxPR pr) || Js.truthy (PRInfo.isCurrentRepPR pr)
        then true else PRSummary.hasNowPR acc in
      let prSummary :=
        if Js.truthy (PRInfo.maxWeightPR pr) || Js.truthy (PRInfo.repPR pr)
        then (PRSummary.prSummary acc ++
             [PRSummaryItem.mk exerciseName (TrainingSet.weight s) (TrainingSet.reps s)
                (Js.truthy (PRInfo.maxWeightPR pr)) (Js.truthy (PRInfo.repPR pr))
                (Js.truthy (PRInfo.isCurrentMaxPR pr))
                (Js.truthy (PRInfo.isCurrentRepPR pr))])%list
        else PRSummary.prSummary acc in
      PRSummary.mk true hasNowPR prSummary
  | None => acc
  end.

Definition summarizeExercise (prData : PRData) (date : string)
    (acc : PRSummary.t) (ex : TrainingRecordExercise.t) (_ : nat) : PRSummary.t :=
  Js.forEachOpt (summarizeSet prData date (TrainingRecordExercise.name ex))
    (TrainingRecordExercise.sets ex) acc.

Definition getPRSummaryForRecord (record : TrainingRecord.t) (prData : PRData)
    : PRSummary.t :=
  Js.forEachOpt (summarizeExercise prData (TrainingRecord.date record))
    (TrainingRecord.exercises record) (PRSummary.mk false false []).

(** ** The records array as a heap cell

    [calculatePRs] receives a reference to an array.  [[...records]]
    allocates a new array with the same elements and [.sort] reorders the
    array it is called on in place; nothing else in the function writes. *)

Module Heap.

Definition loc := positive.
Abbreviation heap := (gmap loc (list TrainingRecord.t)).

(** [[...a]]: a fresh array holding the elements of [a]. *)
Definition spread (h : heap) (a : loc) : option (loc * heap) :=
  xs ← h !! a;
  let b := fresh (dom h) in
  Some (b, <[b := xs]> h).

(** [a.sort(cmp)]: sorts the array at [a] in place and returns [a]. *)
Definition sort (E : Engine.t) (h : heap) (a : loc) : option (loc * heap) :=
  xs ← h !! a;
  Some (a, <[a := sortByDate E xs]> h).

(** [calculatePRs(records)] on the heap: the result and the heap after. *)
Definition calculatePRs (E : Engine.t) (h : heap) (records : loc)
    : option (PRCalculationResult.t * heap) :=
  '(copy, h1) ← spread h records;
  '(sortedRecords, h2) ← sort E h1 copy;
  xs ← h2 !! sortedRecords;
  let st := replay xs in
  Some (PRCalculationResult.mk
          (markCurrent (maxWeightByExercise st) (maxRepsAtMaxWeight st) <$> prData st)
          (maxWeightByExercise st)
          (maxRepsAtMaxWeight st), h2).

End Heap.

(** ** Views of a record used to state the properties *)

(** The sets of an array with their positions, from position [i] on. *)
Fixpoint indexedFrom {A : Type} (i : nat) (xs : list A) : list (nat * A) :=
  match xs with
  | [] => []
  | x :: xs' => (i, x) :: indexedFrom (S i) xs'
  end.

Definition optList {A : Type} (o : option (list A)) : list A := default [] o.

(** The sets of one exercise as (exercise name, set index, set). *)
Definition exerciseSets (ex : TrainingRecordExercise.t)
    : list (string * nat * TrainingSet.t) :=
  (λ p, (TrainingRecordExercise.name ex, p.1, p.2))
    <$> indexedFrom 0 (optList (TrainingRecordExercise.sets ex)).

(** All sets of a record in iteration order. *)
Definition recordSets (record : TrainingRecord.t)
    : list (string * nat * TrainingSet.t) :=
  optList (TrainingRecord.exercises record) ≫= exerciseSets.

(** The replay as a flat sequence of events: for every exercise the
    initialisation of its maxima, then one event per set. *)
Inductive Event :=
  | InitExercise (exerciseName : string)
  | ProcessSet (date exerciseName : string) (setIndex : nat) (set : TrainingSet.t).

Definition step (st : PRCalculationResult.t) (ev : Event) : PRCalculationResult.t :=
  match ev with
  | InitExercise n => initExercise n st
  | ProcessSet d n i s => processSet d n st s i
  end.

Definition exerciseEvents (date : string) (ex : TrainingRecordExercise.t) : list Event :=
  InitExercise (TrainingRecordExercise.name ex)
    :: ((λ p, ProcessSet date p.1.1 p.1.2 p.2) <$> exerciseSets ex).

Definition recordEvents (record : TrainingRecord.t) : list Event :=
  optList (TrainingRecord.exercises record) ≫= exerciseEvents (TrainingRecord.date record).

Definition events (records : list TrainingRecord.t) : list Event :=
  records ≫= recordEvents.

(** ** Sample data *)

Definition mkSet (w : Qc) (r : Z) : TrainingSet.t := TrainingSet.mk 0 0 w r.

Definition mkExercise (n : string) (l : list TrainingSet.t) : TrainingRecordExercise.t :=
  TrainingRecordExercise.mk 0 n "" false (Some l).

Definition mkRecord (d : string) (l : list TrainingRecordExercise.t) : TrainingRecord.t :=
  TrainingRecord.mk 0 d None (Some l).

Definition kg (n : Z) : Qc := Q2Qc (inject_Z n).

Definition benchRecord : TrainingRecord.t :=
  mkRecord "2024-01-01" [mkExercise "Bench Press" [mkSet (kg 100) 5]].

(** Two sessions of a body-weight exercise logged with weight 0. *)
Definition plankRecords : list TrainingRecord.t :=
  [ mkRecord "2024-01-01" [mkExercise "Plank" [mkSet (kg 0) 5]];
    mkRecord "2024-01-02" [mkExercise "Plank" [mkSet (kg 0) 5]] ].

(** ** The summary of a record, said without loops *)

(** The key of a set of a record dated [date]. *)
Definition setKey (date : string) (p : string * nat * TrainingSet.t) : string :=
  getPRKey date p.1.1 p.1.2.

(** The key of the set is present in the map. *)
Definition keyPresent (prData : PRData) (date : string)
    (p : string * nat * TrainingSet.t) : Prop :=
  is_Some (prData !! setKey date p).

(** The key of the set is present and its entry carries maxWeightPR or repPR. *)
Definition keyFlagged (prData : PRData) (date : string)
    (p : string * nat * TrainingSet.t) : Prop :=
  ∃ pr, prData !! setKey date p = Some pr
        ∧ (PRInfo.maxWeightPR pr = Some true ∨ PRInfo.repPR pr = Some true).

Global Instance keyPresent_dec prData date p : Decision (keyPresent prData date p).
Proof. unfold keyPresent. apply _. Defined.

Global Instance keyFlagged_dec prData date p : Decision (keyFlagged prData date p).
Proof.
  unfold keyFlagged. destruct (prData !! setKey date p) as [pr|].
  - destruct (decide (PRInfo.maxWeightPR pr = Some true ∨ PRInfo.repPR pr = Some true)).
    + left. by exists pr.
    + right. by intros (? & [= <-] & ?).
  - right. by intros (? & ? & ?).
Defined.

(** The summary item of a set whose entry is [pr]. *)
Definition summaryItem (p : string * nat * TrainingSet.t) (pr : PRInfo.t)
    : PRSummaryItem.t :=
  PRSummaryItem.mk p.1.1 (TrainingSet.weight p.2) (TrainingSet.reps p.2)
    (Js.truthy (PRInfo.maxWeightPR pr)) (Js.truthy (PRInfo.repPR pr))
    (Js.truthy (PRInfo.isCurrentMaxPR pr)) (Js.truthy (PRInfo.isCurrentRepPR pr)).

Definition summaryItemOf (prData : PRData) (date : string)
    (p : string * nat * TrainingSet.t) : option PRSummaryItem.t :=
  pr ← prData !! setKey date p;
  if Js.truthy (PRInfo.maxWeightPR pr) || Js.truthy (PRInfo.repPR pr)
  then Some (summaryItem p pr) else None.

(** A map whose only entry carries neither maxWeightPR nor repPR. *)
Definition unflaggedMap : PRData :=
  {[ "2024-01-01_Bench Press_0" :=
       PRInfo.mk None None None None "2024-01-01" "Bench Press" (kg 100) 5 0 ]}.

(** 100kg×5 and, a week later, 100kg×8 of the same exercise. *)
Definition benchRepRecords : list TrainingRecord.t :=
  [ mkRecord "2024-01-01" [mkExercise "Bench Press" [mkSet (kg 100) 5]];
    mkRecord "2024-01-08" [mkExercise "Bench Press" [mkSet (kg 100) 8]] ].

(** What the replay stores: every entry carries repPR, carries maxWeightPR
    or leaves it unset, and has no current flag yet. *)
Definition replayEntry (pr : PRInfo.t) : Prop :=
  PRInfo.repPR pr = Some true
  ∧ (PRInfo.maxWeightPR pr = Some true ∨ PRInfo.maxWeightPR pr = None)
  ∧ PRInfo.isCurrentMaxPR pr = None
  ∧ PRInfo.isCurrentRepPR pr = None.

(** ** Dates of the data model *)

(** The date of the record is a calendar date written [YYYY-MM-DD]. *)
Definition validDate (r : TrainingRecord.t) : Prop :=
  is_Some (IsoDate.calendarTime (TrainingRecord.date r)).

(** The time value of the record's date, which the sort compares; 0 stands
    in when the date is not a calendar date. *)
Definition timeOf (r : TrainingRecord.t) : Z :=
  default 0 (IsoDate.calendarTime (TrainingRecord.date r)).

(** ** The best of an exercise, said without loops *)

(** All sets logged under the exercise name [name], over all records. *)
Definition setsOfExercise (name : string) (ex : TrainingRecordExercise.t)
    : list TrainingSet.t :=
  if decide (TrainingRecordExercise.name ex = name)
  then optList (TrainingRecordExercise.sets ex) else [].

Definition setsOf (name : string) (records : list TrainingRecord.t) : list TrainingSet.t :=
  records ≫= λ r, optList (TrainingRecord.exercises r) ≫= setsOfExercise name.

(** [w] is the greatest weight among the sets [l]. *)
Definition isMaxWeight (w : Qc) (l : list TrainingSet.t) : Prop :=
  (∃ s, s ∈ l ∧ TrainingSet.weight s = w)
  ∧ (∀ s, s ∈ l → (TrainingSet.weight s ≤ w)%Qc).

(** [r] is the greatest number of repetitions among the sets of [l] that
    have weight [w]. *)
Definition isMaxRepsAt (w : Qc) (r : Z) (l : list TrainingSet.t) : Prop :=
  (∃ s, s ∈ l ∧ TrainingSet.weight s = w ∧ TrainingSet.reps s = r)
  ∧ (∀ s, s ∈ l → TrainingSet.weight s = w → TrainingSet.reps s ≤ r).

(** The state of the maxima of [name] once the sets [l] have been replayed:
    nothing, before the first exercise of that name or when the name is
    that of an inherited member; a maximum weight of zero with every weight
    so far at most zero; or the greatest weight with the most repetitions at
    it. *)
Definition maximaOf (name : string) (st : PRCalculationResult.t)
    (l : list TrainingSet.t) : Prop :=
  (maxWeightByExercise st !! name = None ∧ maxRepsAtMaxWeight st !! name = None
   ∧ (l = [] ∨ name ∈ Js.objectPrototype))
  ∨ (∃ mr, maxWeightByExercise st !! name = Some 0%Qc
           ∧ maxRepsAtMaxWeight st !! name = Some mr
           ∧ ∀ s, s ∈ l → (TrainingSet.weight s ≤ 0)%Qc)
  ∨ (∃ mx mr, maxWeightByExercise st !! name = Some mx
              ∧ maxRepsAtMaxWeight st !! name = Some mr
              ∧ (0 < mx)%Qc ∧ isMaxWeight mx l ∧ isMaxRepsAt mx mr l).

(** A body-weight exercise logged with weight 0: 5 repetitions, then 3. *)
Definition plankDecline : list TrainingRecord.t :=
  [ mkRecord "2024-01-01" [mkExercise "Plank" [mkSet (kg 0) 5]];
    mkRecord "2024-01-02" [mkExercise "Plank" [mkSet (kg 0) 3]] ].

(** The maxima of [name] have been initialised. *)
Definition started (name : string) (st : PRCalculationResult.t) : Prop :=
  is_Some (maxWeightByExercise st !! name).

(** 100kg×5 and, a week later, 110kg×5 of the same exercise. *)
Definition squatRecords : list TrainingRecord.t :=
  [ mkRecord "2024-01-08" [mkExercise "Squat" [mkSet (kg 110) 5]];
    mkRecord "2024-01-01" [mkExercise "Squat" [mkSet (kg 100) 5]] ].

(** ** [findPreviousRecordForExercise] *)

(** The comparator of the descending sort, [new Date(b.date).getTime() -
    new Date(a.date).getTime()]. *)
Definition compareDatesDesc (E : Engine.t) (a b : TrainingRecord.t) : option Z :=
  x ← Engine.getTime E (TrainingRecord.date b);
  y ← Engine.getTime E (TrainingRecord.date a);
  Some (x - y).

(** [[...records].sort((a, b) => ...)], newest first. *)
Definition sortByDateDesc (E : Engine.t) (records : list TrainingRecord.t)
    : list TrainingRecord.t :=
  Engine.sort E TrainingRecord.t (compareDatesDesc E) records.

Module PreviousSet.
Record t := mk {
  weight : Qc;
  reps : Z
}.
End PreviousSet.

(** [record.exercises?.find((ex) => ex.id === exerciseId)] *)
Definition findExercise (exerciseId : Z) (record : TrainingRecord.t)
    : option TrainingRecordExercise.t :=
  exs ← TrainingRecord.exercises record;
  find (λ ex, bool_decide (TrainingRecordExercise.id ex = exerciseId)) exs.

(** The body of the [for] loop for one record: [Some] is the value returned,
    [None] stands for going on with the next record. *)
Definition previousSetsIn (exerciseId : Z) (currentDate : string)
    (record : TrainingRecord.t) : option (list PreviousSet.t) :=
  if bool_decide (TrainingRecord.date record = currentDate) then None
  else
    match findExercise exerciseId record with
    | Some exercise =>
        match TrainingRecordExercise.sets exercise with
        | Some sets =>
            if (0 <? length sets)%nat
            then Some ((λ set, PreviousSet.mk (TrainingSet.weight set) (TrainingSet.reps set))
                         <$> sets)
            else None
        | None => None
        end
    | None => None
    end.

(** [for (const record of sortedRecords) { ... } return null;] *)
Fixpoint findPreviousLoop (exerciseId : Z) (currentDate : string)
    (sortedRecords : list TrainingRecord.t) : option (list PreviousSet.t) :=
  match sortedRecords with
  | [] => None
  | record :: rest =>
      match previousSetsIn exerciseId currentDate record with
      | Some sets => Some sets
      | None => findPreviousLoop exerciseId currentDate rest
      end
  end.

Definition findPreviousRecordForExercise (E : Engine.t) (records : list TrainingRecord.t)
    (exerciseId : Z) (currentDate : string) : option (list PreviousSet.t) :=
  findPreviousLoop exerciseId currentDate (sortByDateDesc E records).

(** ** The badges of a record card ([RecordCard]) *)

(** A [<span key=... className=...>text</span>] element. *)
Module Badge.
Record t := mk {
  key : string;
  className : string;
  text : string
}.
End Badge.

Definition nowPRBadge : Badge.t := Badge.mk "maxpr" "pr-badge now-pr" "NOW PR!!".
Definition prBadge : Badge.t := Badge.mk "maxpr" "pr-badge" "PR".
Definition nowRepPRBadge : Badge.t := Badge.mk "reppr" "pr-badge now-rep-pr" "NOW repPR!!".
Definition repPRBadge : Badge.t := Badge.mk "reppr" "pr-badge rep-pr" "repPR".

(** The badges pushed for the four flags, first for the maximum weight then
    for the repetitions; the summary and the set list use the same two
    [if]s, on booleans in the summary and on optional flags in the list. *)
Definition badgesOf (isMaxWeightPR isRepPR isCurrentMaxPR isCurrentRepPR : bool)
    : list Badge.t :=
  let badges : list Badge.t := [] in
  let badges :=
    if isMaxWeightPR
    then (if isCurrentMaxPR then badges ++ [nowPRBadge] else badges ++ [prBadge])%list
    else badges in
  if isRepPR && negb isMaxWeightPR
  then (if isCurrentRepPR then badges ++ [nowRepPRBadge] else badges ++ [repPRBadge])%list
  else badges.

(** The badges of an item of the PR summary. *)
Definition summaryBadges (p : PRSummaryItem.t) : list Badge.t :=
  badgesOf (PRSummaryItem.isMaxWeightPR p) (PRSummaryItem.isRepPR p)
    (PRSummaryItem.isCurrentMaxPR p) (PRSummaryItem.isCurrentRepPR p).

(** [const isNowItem = p.isCurrentMaxPR || p.isCurrentRepPR] *)
Definition isNowItem (p : PRSummaryItem.t) : bool :=
  PRSummaryItem.isCurrentMaxPR p || PRSummaryItem.isCurrentRepPR p.

(** The badges of a set in the list of sets of the card. *)
Definition setBadges (prData : PRData) (date exerciseName : string) (setIdx : nat)
    : list Badge.t :=
  match prData !! getPRKey date exerciseName setIdx with
  | Some pr =>
      badgesOf (Js.truthy (PRInfo.maxWeightPR pr)) (Js.truthy (PRInfo.repPR pr))
        (Js.truthy (PRInfo.isCurrentMaxPR pr)) (Js.truthy (PRInfo.isCurrentRepPR pr))
  | None => []
  end.

(** [hasNowPR ? ' has-now-pr' : hasPR ? ' has-pr' : ''] *)
Definition cardPRClass (s : PRSummary.t) : string :=
  if PRSummary.hasNowPR s then " has-now-pr"
  else if PRSummary.hasPR s then " has-pr" else "".

(** ** The calendar of the records page ([Records]) *)

(** [s.padStart(n, '0')] *)
Definition padStart0 (n : nat) (s : string) : string :=
  String.string_of_list_ascii
    (replicate (n - String.length s) "0"%char ++ String.list_ascii_of_string s)%list.

(** [`${year}-${String(month + 1).padStart(2, '0')}-${String(day).padStart(2, '0')}`] *)
Definition calendarDateStr (year month day : Z) : string :=
  pretty year +:+ "-" +:+ padStart0 2 (pretty (month + 1)) +:+ "-" +:+ padStart0 2 (pretty day).

(** [new Set(allRecords.map((r) => r.date))] *)
Definition recordDates (allRecords : list TrainingRecord.t) : gset string :=
  list_to_set (TrainingRecord.date <$> allRecords).

(** [allRecords.filter((r) => r.date === dateStr)] *)
Definition getRecordsForDate (allRecords : list TrainingRecord.t) (year month day : Z)
    : list TrainingRecord.t :=
  let dateStr := calendarDateStr year month day in
  List.filter (λ r, bool_decide (TrainingRecord.date r = dateStr)) allRecords.

(** The updater of [toggleCardExpand]: a copy of the set with [recordId]
    removed when it is there and added when it is not. *)
Definition toggleCardExpand (recordId : Z) (prev : gset Z) : gset Z :=
  if bool_decide (recordId ∈ prev) then prev ∖ {[recordId]} else prev ∪ {[recordId]}.

(** ** Views used by the further properties *)

(** An entry is the copy of a set of the records, filed under its key. *)
Definition entryOf (records : list TrainingRecord.t) (key : string) (pr : PRInfo.t) : Prop :=
  key = getPRKey (PRInfo.date pr) (PRInfo.exercise pr) (PRInfo.setIndex pr)
  ∧ ∃ r s, r ∈ records
           ∧ TrainingRecord.date r = PRInfo.date pr
           ∧ (PRInfo.exercise pr, PRInfo.setIndex pr, s) ∈ recordSets r
           ∧ TrainingSet.weight s = PRInfo.weight pr
           ∧ TrainingSet.reps s = PRInfo.reps pr.

(** The maxima are never negative and every entry has a weight between zero
    and the maximum weight of its exercise. *)
Definition weightsBounded (st : PRCalculationResult.t) : Prop :=
  (∀ n mx, maxWeightByExercise st !! n = Some mx → (0 ≤ mx)%Qc)
  ∧ (∀ key pr, prData st !! key = Some pr →
       ∃ mx, maxWeightByExercise st !! PRInfo.exercise pr = Some mx
             ∧ (0 ≤ PRInfo.weight pr)%Qc ∧ (PRInfo.weight pr ≤ mx)%Qc).

(** A name is in both maxima or in neither. *)
Definition sameNames (st : PRCalculationResult.t) : Prop :=
  ∀ n, is_Some (maxWeightByExercise st !! n) ↔ is_Some (maxRepsAtMaxWeight st !! n).

(** The record with only its exercises called [name]. *)
Definition onlyExercise (name : string) (r : TrainingRecord.t) : TrainingRecord.t :=
  TrainingRecord.mk (TrainingRecord.id r) (TrainingRecord.date r) (TrainingRecord.memo r)
    (List.filter (λ ex, bool_decide (TrainingRecordExercise.name ex = name))
       <$> TrainingRecord.exercises r).

(** Two states agree on the maxima of [name]. *)
Definition agreeOn (name : string) (st st' : PRCalculationResult.t) : Prop :=
  maxWeightByExercise st !! name = maxWeightByExercise st' !! name
  ∧ maxRepsAtMaxWeight st !! name = maxRepsAtMaxWeight st' !! name.

(** The key of the set is present and its entry carries a current flag. *)
Definition keyCurrent (prData : PRData) (date : string)
    (p : string * nat * TrainingSet.t) : Prop :=
  ∃ pr, prData !! setKey date p = Some pr
        ∧ (PRInfo.isCurrentMaxPR pr = Some true ∨ PRInfo.isCurrentRepPR pr = Some true).

Global Instance keyCurrent_dec prData date p : Decision (keyCurrent prData date p).
Proof.
  unfold keyCurrent. destruct (prData !! setKey date p) as [pr|].
  - destruct (decide (PRInfo.isCurrentMaxPR pr = Some true
                      ∨ PRInfo.isCurrentRepPR pr = Some true)).
    + left. by exists pr.
    + right. by intros (? & [= <-] & ?).
  - right. by intros (? & ? & ?).
Defined.

(** The string contains an underscore. *)
Fixpoint hasUnderscore (s : string) : bool :=
  match s with
  | EmptyString => false
  | String c s' => bool_decide (c = "_"%char) || hasUnderscore s'
  end.

(** The state of the records page that a click on a calendar day updates. *)
Module PageState.
Record t := mk {
  selectedDate : option string;
  isRecordModalOpen : bool;
  editingRecord : option TrainingRecord.t;
  expandedCards : gset Z
}.
End PageState.

(** [handleDayClick]: with records on that day the card of the first of
    them is expanded (the scrolling of the page is left out), without records
    the dialog for a new record is opened for that date. *)
Definition handleDayClick (allRecords : list TrainingRecord.t) (year month : Z)
    (st : PageState.t) (day : Z) : PageState.t :=
  let dateStr := calendarDateStr year month day in
  let dayRecords := getRecordsForDate allRecords year month day in
  if (0 <? length dayRecords)%nat then
    match find (λ r, bool_decide (TrainingRecord.date r = dateStr)) allRecords with
    | Some record =>
        PageState.mk (PageState.selectedDate st) (PageState.isRecordModalOpen st)
          (PageState.editingRecord st)
          (PageState.expandedCards st ∪ {[TrainingRecord.id record]})
    | None => st
    end
  else PageState.mk (Some dateStr) true None (PageState.expandedCards st).

(** ** Toast notifications of the UI store ([stores/uiStore.ts]) *)

Inductive ToastType := ToastSuccess | ToastError | ToastInfo.

Module Toast.
Record t := mk {
  id : string;
  message : string;
  type : ToastType
}.
End Toast.

(** The module variable [toastCounter] and the [toasts] array of the store. *)
Module ToastState.
Record t := mk {
  toastCounter : nat;
  toasts : list Toast.t
}.
End ToastState.

Definition initialToasts : ToastState.t := ToastState.mk 0 [].

(** [`toast-${++toastCounter}`] *)
Definition toastId (counter : nat) : string := "toast-" +:+ pretty counter.

(** [showToast(message, type = 'info')]: the state after the call and the id
    whose removal the call schedules. *)
Definition showToast (message : string) (type : option ToastType) (st : ToastState.t)
    : ToastState.t * string :=
  let counter := S (ToastState.toastCounter st) in
  let id := toastId counter in
  (ToastState.mk counter
     (ToastState.toasts st ++ [Toast.mk id message (default ToastInfo type)]), id).

(** [removeToast(id)], which is also what the scheduled removal does. *)
Definition removeToast (id : string) (st : ToastState.t) : ToastState.t :=
  ToastState.mk (ToastState.toastCounter st)
    (List.filter (λ t, negb (bool_decide (Toast.id t = id))) (ToastState.toasts st)).

(** What can happen to the toasts: a call of [showToast], or a removal, by
    the timer or by [removeToast]. *)
Inductive ToastAction :=
  | ShowToast (message : string) (type : option ToastType)
  | RemoveToast (id : string).

Definition toastStep (st : ToastState.t) (a : ToastAction) : ToastState.t :=
  match a with
  | ShowToast message type => (showToast message type st).1
  | RemoveToast id => removeToast id st
  end.

(** Every toast has the id of a counter value already used, and no two
    toasts have the same id. *)
Definition toastsFresh (st : ToastState.t) : Prop :=
  (∀ t, t ∈ ToastState.toasts st →
     ∃ k, Toast.id t = toastId k ∧ (1 ≤ k ≤ ToastState.toastCounter st)%nat)
  ∧ NoDup (Toast.id <$> ToastState.toasts st).

(** ** Views used for the current records *)

(** Among the entries of an exercise name that have a weight above zero, no
    entry beats the running maxima and at most one key holds an entry that
    equals them; among its entries that carry maxWeightPR, all have a weight
    above zero and at most one key holds one at the maximum weight. *)
Definition leadersUnique (st : PRCalculationResult.t) : Prop :=
  ∀ n mx mr,
    maxWeightByExercise st !! n = Some mx →
    maxRepsAtMaxWeight st !! n = Some mr →
    (∀ k pr, prData st !! k = Some pr → PRInfo.exercise pr = n →
       (0 < PRInfo.weight pr)%Qc →
       (PRInfo.weight pr < mx)%Qc ∨ (PRInfo.weight pr = mx ∧ PRInfo.reps pr ≤ mr))
    ∧ (∀ k1 k2 pr1 pr2,
         prData st !! k1 = Some pr1 → prData st !! k2 = Some pr2 →
         PRInfo.exercise pr1 = n → PRInfo.exercise pr2 = n →
         (0 < mx)%Qc →
         PRInfo.weight pr1 = mx → PRInfo.weight pr2 = mx →
         PRInfo.reps pr1 = mr → PRInfo.reps pr2 = mr → k1 = k2)
    ∧ (∀ k pr, prData st !! k = Some pr → PRInfo.exercise pr = n →
         PRInfo.maxWeightPR pr = Some true → (0 < PRInfo.weight pr)%Qc)
    ∧ (∀ k1 k2 pr1 pr2,
         prData st !! k1 = Some pr1 → prData st !! k2 = Some pr2 →
         PRInfo.exercise pr1 = n → PRInfo.exercise pr2 = n →
         PRInfo.maxWeightPR pr1 = Some true → PRInfo.maxWeightPR pr2 = Some true →
         PRInfo.weight pr1 = mx → PRInfo.weight pr2 = mx → k1 = k2).

(** The key an event writes to, if it is the event of a set. *)
Definition eventKey (ev : Event) : option string :=
  match ev with
  | InitExercise _ => None
  | ProcessSet d n i _ => Some (getPRKey d n i)
  end.

(** The keys of all sets of all records, in input order. *)
Definition allKeys (records : list TrainingRecord.t) : list string :=
  records ≫= λ r, setKey (TrainingRecord.date r) <$> recordSets r.

(** Every exercise name with a maximum weight above zero has an entry that
    carries maxWeightPR at that weight and an entry with that weight and the
    repetitions at maximum weight. *)
Definition hasLeaders (st : PRCalculationResult.t) : Prop :=
  ∀ n mx mr,
    maxWeightByExercise st !! n = Some mx →
    maxRepsAtMaxWeight st !! n = Some mr →
    (0 < mx)%Qc →
    (∃ k pr, prData st !! k = Some pr ∧ PRInfo.exercise pr = n
             ∧ PRInfo.weight pr = mx ∧ PRInfo.maxWeightPR pr = Some true)
    ∧ (∃ k pr, prData st !! k = Some pr ∧ PRInfo.exercise pr = n
               ∧ PRInfo.weight pr = mx ∧ PRInfo.reps pr = mr).

(** In the events of a replay the sets of an exercise come after the
    initialisation of its name. *)
Definition initFirst (evs : list Event) : Prop :=
  ∀ pre d n i s post,
    evs = (pre ++ ProcessSet d n i s :: post)%list → InitExercise n ∈ pre.

(** 100kg×5 and, a week later, 100kg×3 of the same exercise. *)
Definition benchRepeatRecords : list TrainingRecord.t :=
  [ mkRecord "2024-01-01" [mkExercise "Bench Press" [mkSet (kg 100) 5]];
    mkRecord "2024-01-08" [mkExercise "Bench Press" [mkSet (kg 100) 3]] ].

(** * Properties *)

(** ** Sorting with a consistent comparator *)

Section Sort.
Context {A : Type} (comparefn : A → A → option Z).
Implicit Types (x y z : A) (l : list A).

Local Abbreviation cmp := (Js.sortCompare comparefn).
Local Abbreviation leC := (λ x y, Js.sortCompare comparefn x y ≤ 0).
Local Abbreviation eqC z := (λ y, Js.sortCompare comparefn z y = 0).

Lemma insertSorted_Permutation x l : Js.insertSorted comparefn x l ≡ₚ x :: l.
Proof.
  induction l as [|y l IH]; simpl; [done|].
  case_match; [done|]. by rewrite IH, Permutation_swap.
Qed.

Lemma stableSort_Permutation l : Js.stableSort comparefn l ≡ₚ l.
Proof.
  induction l as [|x l IH]; simpl; [done|]. by rewrite insertSorted_Permutation, IH.
Qed.

Section Consistent.
Variable l0 : list A.
Hypothesis Hcons : Js.consistent comparefn l0.

Lemma consistent_gt_lt a b : a ∈ l0 → b ∈ l0 → cmp a b > 0 → cmp b a < 0.
Proof.
  intros Ha Hb Hgt.
  destruct (Hcons a b a Ha Hb Ha) as (_ & Haa & _ & _ & _ & Hgt3).
  destruct (Hcons b a b Hb Ha Hb) as (_ & _ & Hsym & _).
  destruct (Z.lt_trichotomy (cmp b a) 0) as [?|[Heq|Hpos]]; [done|..].
  - specialize (Hsym Heq). lia.
  - assert (cmp a a > 0) by (apply Hgt3; lia). lia.
Qed.

Lemma consistent_lt_gt a b : a ∈ l0 → b ∈ l0 → cmp a b < 0 → cmp b a > 0.
Proof.
  intros Ha Hb Hlt.
  destruct (Hcons a b a Ha Hb Ha) as (_ & Haa & _ & _ & Hlt3 & _).
  destruct (Hcons b a b Hb Ha Hb) as (_ & _ & Hsym & _).
  destruct (Z.lt_trichotomy (cmp b a) 0) as [Hneg|[Heq|?]]; [..|lia].
  - assert (cmp a a < 0) by (by apply Hlt3). lia.
  - specialize (Hsym Heq). lia.
Qed.

Lemma consistent_le_trans a b c :
  a ∈ l0 → b ∈ l0 → c ∈ l0 → cmp a b ≤ 0 → cmp b c ≤ 0 → cmp a c ≤ 0.
Proof.
  intros Ha Hb Hc Hab Hbc.
  destruct (Hcons a b c Ha Hb Hc) as (_ & _ & Hsym_ab & Heq3 & Hlt3 & _).
  destruct (Hcons b c a Hb Hc Ha) as (_ & _ & Hsym_bc & Heq3' & Hlt3' & _).
  destruct (Hcons c a b Hc Ha Hb) as (_ & _ & Hsym_ca & Heq3'' & Hlt3'' & _).
  destruct (Hcons a c b Ha Hc Hb) as (_ & _ & Hsym_ac & _).
  destruct (Z.lt_trichotomy (cmp a c) 0) as [?|[?|Hpos]]; [lia..|]. exfalso.
  assert (cmp c a < 0) as Hca by (apply consistent_gt_lt; [done..|lia]).
  destruct (Z.lt_trichotomy (cmp a b) 0) as [Hab'|[Hab'|?]]; [..|lia].
  - (* c < a < b, so c < b, against b ≤ c *)
    specialize (Hlt3'' Hca Hab').
    assert (cmp b c > 0) by (by apply consistent_lt_gt). lia.
  - destruct (Z.lt_trichotomy (cmp b c) 0) as [Hbc'|[Hbc'|?]]; [..|lia].
    + (* b < c < a, so b < a, against a = b *)
      specialize (Hlt3' Hbc' Hca). specialize (Hsym_ab Hab'). lia.
    + specialize (Heq3 Hab' Hbc'). lia.
Qed.

Lemma consistent_le_antisym a b :
  a ∈ l0 → b ∈ l0 → cmp a b ≤ 0 → cmp b a ≤ 0 → cmp a b = 0.
Proof.
  intros Ha Hb Hab Hba.
  destruct (Z.lt_trichotomy (cmp a b) 0) as [Hlt|[?|?]]; [|done|lia].
  apply consistent_lt_gt in Hlt; [lia|done..].
Qed.

Lemma insertSorted_sorted x l :
  x ∈ l0 → (∀ y, y ∈ l → y ∈ l0) →
  StronglySorted leC l → StronglySorted leC (Js.insertSorted comparefn x l).
Proof.
  intros Hx Hl Hs. induction Hs as [|y l Hs IH Hhd]; simpl.
  - repeat constructor.
  - assert (y ∈ l0) as Hy by (apply Hl; left).
    assert (∀ z, z ∈ l → z ∈ l0) as Hl' by (intros z Hz; apply Hl; by right).
    destruct (Z.leb_spec (cmp x y) 0) as [Hle|Hgt].
    + constructor; [by constructor|]. constructor; [done|].
      rewrite Forall_forall in Hhd |- *. intros z Hz.
      apply (consistent_le_trans x y z); [done..|by apply Hl'|done|by apply Hhd].
    + constructor; [by apply IH|].
      rewrite insertSorted_Permutation. constructor; [|done].
      assert (cmp y x < 0) by (apply consistent_gt_lt; [done..|lia]). lia.
Qed.

Lemma stableSort_sorted_in l :
  (∀ y, y ∈ l → y ∈ l0) → StronglySorted leC (Js.stableSort comparefn l).
Proof.
  induction l as [|x l IH]; intros Hl; simpl; [constructor|].
  apply insertSorted_sorted.
  - apply Hl. left.
  - intros y Hy. rewrite stableSort_Permutation in Hy. apply Hl. by right.
  - apply IH. intros y Hy. apply Hl. by right.
Qed.

Lemma insertSorted_stable x l z :
  x ∈ l0 → (∀ y, y ∈ l → y ∈ l0) → z ∈ l0 →
  filter (eqC z) (Js.insertSorted comparefn x l) = filter (eqC z) (x :: l).
Proof.
  intros Hx Hl Hz. induction l as [|y l IH]; [done|].
  assert (y ∈ l0) as Hy by (apply Hl; left).
  cbn [Js.insertSorted]. destruct (Z.leb_spec (cmp x y) 0) as [Hle|Hgt]; [done|].
  rewrite filter_cons, IH by (intros y' Hy'; apply Hl; by right).
  rewrite !filter_cons.
  destruct (decide (cmp z y = 0)) as [Hzy|Hzy], (decide (cmp z x = 0)) as [Hzx|Hzx];
    try done.
  exfalso.
  destruct (Hcons z x y Hz Hx Hy) as (_ & _ & Hsym & _).
  destruct (Hcons x z y Hx Hz Hy) as (_ & _ & _ & Heq3 & _).
  specialize (Heq3 (Hsym Hzx) Hzy). lia.
Qed.

Lemma stableSort_stable_in l z :
  (∀ y, y ∈ l → y ∈ l0) → z ∈ l0 →
  filter (eqC z) (Js.stableSort comparefn l) = filter (eqC z) l.
Proof.
  intros Hl Hz. induction l as [|x l IH]; [done|].
  cbn [Js.stableSort]. rewrite insertSorted_stable.
  - rewrite !filter_cons, IH; [done|]. intros y Hy. apply Hl. by right.
  - apply Hl. left.
  - intros y Hy. rewrite stableSort_Permutation in Hy. apply Hl. by right.
  - done.
Qed.

(** A consistent comparator leaves one way to sort an array stably. *)
Lemma sorted_stable_unique l1 l2 :
  (∀ y, y ∈ l1 → y ∈ l0) →
  l1 ≡ₚ l2 →
  StronglySorted leC l1 → StronglySorted leC l2 →
  (∀ z, z ∈ l0 → filter (eqC z) l1 = filter (eqC z) l2) →
  l1 = l2.
Proof.
  revert l2. induction l1 as [|x l1 IH]; intros l2 Hl Hperm Hs1 Hs2 Hst.
  - by apply Permutation_nil in Hperm.
  - destruct l2 as [|y l2]; [symmetry in Hperm; by apply Permutation_nil_cons in Hperm|].
    assert (x ∈ l0) as Hx by (apply Hl; left).
    assert (y ∈ l0) as Hy by (apply Hl; rewrite Hperm; left).
    apply StronglySorted_inv in Hs1 as [Hs1 Hhd1], Hs2 as [Hs2 Hhd2].
    rewrite Forall_forall in Hhd1, Hhd2.
    destruct (Hcons x x x Hx Hx Hx) as (_ & Hxx & _).
    destruct (Hcons y y y Hy Hy Hy) as (_ & Hyy & _).
    assert (cmp x y ≤ 0) as Hxy.
    { assert (y ∈ x :: l1) as [->|?]%elem_of_cons by (rewrite Hperm; left); [lia|].
      by apply Hhd1. }
    assert (cmp y x ≤ 0) as Hyx.
    { assert (x ∈ y :: l2) as [->|?]%elem_of_cons by (rewrite <- Hperm; left); [lia|].
      by apply Hhd2. }
    pose proof (consistent_le_antisym x y Hx Hy Hxy Hyx) as Heq.
    pose proof (Hst x Hx) as Hfx. rewrite !filter_cons in Hfx.
    rewrite decide_True in Hfx by done. rewrite (decide_True (P:=cmp x y = 0)) in Hfx by done.
    injection Hfx as <- _. f_equal. apply IH.
    + intros z Hz. apply Hl. by right.
    + by apply Permutation_cons_inv in Hperm.
    + done.
    + done.
    + intros z Hz. specialize (Hst z Hz). rewrite !filter_cons in Hst.
      destruct (decide (cmp z x = 0)); [by injection Hst|done].
Qed.

End Consistent.

Lemma stableSort_sorted l :
  Js.consistent comparefn l → StronglySorted leC (Js.stableSort comparefn l).
Proof. intros H. by apply (stableSort_sorted_in l H). Qed.

Lemma stableSort_stable l :
  Js.consistent comparefn l →
  ∀ z, z ∈ l → filter (eqC z) (Js.stableSort comparefn l) = filter (eqC z) l.
Proof. intros H z Hz. by apply (stableSort_stable_in l H). Qed.

End Sort.

Lemma insertSorted_comparisons {A B : Type} (f : A → B)
    (cmpA : A → A → option Z) (cmpB : B → B → option Z) (x : A) (l : list A) :
  (∀ y, y ∈ l → cmpB (f x) (f y) = cmpA x y) →
  Js.insertSorted cmpB (f x) (f <$> l) = f <$> Js.insertSorted cmpA x l.
Proof.
  intros H. induction l as [|y l IH]; [done|].
  rewrite fmap_cons. cbn [Js.insertSorted]. unfold Js.sortCompare.
  rewrite H by left. destruct (_ <=? _); [done|].
  rewrite fmap_cons, IH; [done|]. intros y' Hy'. apply H. by right.
Qed.

Lemma stableSort_comparisons {A B : Type} (f : A → B)
    (cmpA : A → A → option Z) (cmpB : B → B → option Z) (l : list A) :
  (∀ x y, x ∈ l → y ∈ l → cmpB (f x) (f y) = cmpA x y) →
  Js.stableSort cmpB (f <$> l) = f <$> Js.stableSort cmpA l.
Proof.
  intros H. induction l as [|x l IH]; [done|].
  rewrite fmap_cons. cbn [Js.stableSort].
  rewrite IH by (intros x' y' ? ?; apply H; by right).
  apply insertSorted_comparisons. intros y Hy. rewrite stableSort_Permutation in Hy.
  apply H; [left|by right].
Qed.

(** ** Engines *)

(** The reference engine: it answers [NaN] for every string that is not a
    calendar date written [YYYY-MM-DD], and it sorts by insertion. *)
Definition referenceEngine : Engine.t :=
  Engine.mk IsoDate.calendarTime (@Js.stableSort)
    (λ s t H, H)
    (@stableSort_Permutation)
    (@stableSort_comparisons)
    (@stableSort_sorted)
    (@stableSort_stable).

Lemma lenientTime_calendar s t : IsoDate.calendarTime s = Some t → lenientTime s = Some t.
Proof.
  unfold IsoDate.calendarTime, lenientTime.
  destruct (IsoDate.fields s) as [[[y m] d]|]; simpl; [|done].
  unfold IsoDate.timeOfDay. case_match eqn:H; [|done]. intros [= <-].
  rewrite !andb_true_iff, !Z.leb_le in H.
  assert (IsoDate.daysInMonth (IsoDate.inLeapYear y) m ≤ 31).
  { unfold IsoDate.daysInMonth. repeat case_match; lia. }
  rewrite (proj2 (andb_true_iff _ _)); [done|]. rewrite !andb_true_iff, !Z.leb_le. lia.
Qed.

(** An engine that reads dates in that way; it sorts as the reference. *)
Definition lenientEngine : Engine.t :=
  Engine.mk lenientTime (@Js.stableSort)
    lenientTime_calendar
    (@stableSort_Permutation)
    (@stableSort_comparisons)
    (@stableSort_sorted)
    (@stableSort_stable).

(** The two engines differ on the thirtieth of February. *)
Example getTime_no_such_day :
  Engine.getTime referenceEngine "2024-02-30" = None
  ∧ Engine.getTime lenientEngine "2024-02-30" = Some 1709251200000
  ∧ Engine.getTime lenientEngine "2024-03-01" = Some 1709251200000.
Proof. split_and!; reflexivity. Qed.

(** Every engine sorts as the reference does where the comparator is
    consistent. *)
Lemma Engine_sort_consistent (E : Engine.t) {A : Type} (comparefn : A → A → option Z)
    (l : list A) :
  Js.consistent comparefn l → Engine.sort E A comparefn l = Js.stableSort comparefn l.
Proof.
  intros Hcons. apply (sorted_stable_unique comparefn l Hcons).
  - intros y Hy. by rewrite Engine.sort_permutation in Hy.
  - by rewrite Engine.sort_permutation, stableSort_Permutation.
  - by apply Engine.sort_sorted.
  - by apply stableSort_sorted.
  - intros z Hz. by rewrite Engine.sort_stable, stableSort_stable.
Qed.

(** ** The sort by date *)

(** Where a date is not a calendar date, engines may replay the records in
    different orders: the reference engine compares the thirtieth of
    February as [NaN] and leaves these records as they are, the other one
    takes it for the first of March. *)
Example sortByDate_engines_differ :
  let l := [mkRecord "2024-03-05" []; mkRecord "2024-02-30" []; mkRecord "2024-02-28" []] in
  sortByDate referenceEngine l = l ∧ sortByDate lenientEngine l = rev l.
Proof. split; reflexivity. Qed.

Lemma getTime_valid (E : Engine.t) r :
  validDate r → Engine.getTime E (TrainingRecord.date r) = Some (timeOf r).
Proof.
  unfold validDate, timeOf. intros [t Ht]. rewrite Ht. simpl.
  by apply Engine.getTime_calendar.
Qed.

Lemma compareDates_valid (E : Engine.t) a b :
  validDate a → validDate b → compareDates E a b = Some (timeOf a - timeOf b).
Proof. intros Ha Hb. unfold compareDates. by rewrite !getTime_valid. Qed.

Lemma sortCompare_valid (E : Engine.t) a b :
  validDate a → validDate b → Js.sortCompare (compareDates E) a b = timeOf a - timeOf b.
Proof. intros Ha Hb. unfold Js.sortCompare. by rewrite compareDates_valid. Qed.

(** On calendar dates the comparator of the code is a consistent
    comparator. *)
Lemma compareDates_consistent (E : Engine.t) l :
  Forall validDate l → Js.consistent (compareDates E) l.
Proof.
  rewrite Forall_forall. intros Hvalid a b c Ha%Hvalid Hb%Hvalid Hc%Hvalid.
  rewrite !sortCompare_valid, compareDates_valid by done.
  split_and!; [by eexists|lia..].
Qed.

Lemma sortByDate_Permutation (E : Engine.t) l : sortByDate E l ≡ₚ l.
Proof. apply Engine.sort_permutation. Qed.

Lemma StronglySorted_impl_in {A : Type} (R R' : A → A → Prop) (l : list A) :
  (∀ x y, x ∈ l → y ∈ l → R x y → R' x y) → StronglySorted R l → StronglySorted R' l.
Proof.
  intros H Hs. induction Hs as [|x l Hs IH Hhd]; constructor.
  - apply IH. intros y z Hy Hz. apply H; by right.
  - rewrite Forall_forall in Hhd |- *. intros y Hy. apply H; [left|by right|by apply Hhd].
Qed.

Lemma sortByDate_sorted (E : Engine.t) l :
  Forall validDate l → StronglySorted (λ a b, timeOf a ≤ timeOf b) (sortByDate E l).
Proof.
  intros Hvalid.
  apply (StronglySorted_impl_in (λ a b, Js.sortCompare (compareDates E) a b ≤ 0)).
  - rewrite Forall_forall in Hvalid.
    intros a b Ha Hb. rewrite sortByDate_Permutation in Ha, Hb.
    rewrite sortCompare_valid by by apply Hvalid. lia.
  - by apply Engine.sort_sorted, compareDates_consistent.
Qed.

(** On calendar dates every engine replays the records in the order the
    reference engine does. *)
Lemma sortByDate_reference (E : Engine.t) l :
  Forall validDate l → sortByDate E l = sortByDate referenceEngine l.
Proof.
  intros Hvalid. unfold sortByDate.
  rewrite !Engine_sort_consistent by by apply compareDates_consistent.
  rewrite <- (list_fmap_id (Js.stableSort (compareDates referenceEngine) l)).
  rewrite <- (list_fmap_id l) at 1.
  apply stableSort_comparisons. rewrite Forall_forall in Hvalid.
  intros a b Ha%Hvalid Hb%Hvalid. by rewrite !compareDates_valid.
Qed.

Lemma calculatePRs_reference (E : Engine.t) records :
  Forall validDate records → calculatePRs E records = calculatePRs referenceEngine records.
Proof. intros Hvalid. unfold calculatePRs. by rewrite (sortByDate_reference E). Qed.

(** The same for the descending sort of [findPreviousRecordForExercise]. *)
Lemma compareDatesDesc_valid (E : Engine.t) a b :
  validDate a → validDate b → compareDatesDesc E a b = Some (timeOf b - timeOf a).
Proof. intros Ha Hb. unfold compareDatesDesc. by rewrite !getTime_valid. Qed.

Lemma sortCompareDesc_valid (E : Engine.t) a b :
  validDate a → validDate b →
  Js.sortCompare (compareDatesDesc E) a b = timeOf b - timeOf a.
Proof. intros Ha Hb. unfold Js.sortCompare. by rewrite compareDatesDesc_valid. Qed.

Lemma compareDatesDesc_consistent (E : Engine.t) l :
  Forall validDate l → Js.consistent (compareDatesDesc E) l.
Proof.
  rewrite Forall_forall. intros Hvalid a b c Ha%Hvalid Hb%Hvalid Hc%Hvalid.
  rewrite !sortCompareDesc_valid, compareDatesDesc_valid by done.
  split_and!; [by eexists|lia..].
Qed.

Lemma sortByDateDesc_Permutation (E : Engine.t) l : sortByDateDesc E l ≡ₚ l.
Proof. apply Engine.sort_permutation. Qed.

Lemma sortByDateDesc_sorted (E : Engine.t) l :
  Forall validDate l → StronglySorted (λ a b, timeOf b ≤ timeOf a) (sortByDateDesc E l).
Proof.
  intros Hvalid.
  apply (StronglySorted_impl_in (λ a b, Js.sortCompare (compareDatesDesc E) a b ≤ 0)).
  - rewrite Forall_forall in Hvalid.
    intros a b Ha Hb. rewrite sortByDateDesc_Permutation in Ha, Hb.
    rewrite sortCompareDesc_valid by by apply Hvalid. lia.
  - by apply Engine.sort_sorted, compareDatesDesc_consistent.
Qed.

Lemma sortByDateDesc_reference (E : Engine.t) l :
  Forall validDate l → sortByDateDesc E l = sortByDateDesc referenceEngine l.
Proof.
  intros Hvalid. unfold sortByDateDesc.
  rewrite !Engine_sort_consistent by by apply compareDatesDesc_consistent.
  rewrite <- (list_fmap_id (Js.stableSort (compareDatesDesc referenceEngine) l)).
  rewrite <- (list_fmap_id l) at 1.
  apply stableSort_comparisons. rewrite Forall_forall in Hvalid.
  intros a b Ha%Hvalid Hb%Hvalid. by rewrite !compareDatesDesc_valid.
Qed.

Lemma findPreviousRecordForExercise_reference (E : Engine.t) records exerciseId currentDate :
  Forall validDate records →
  findPreviousRecordForExercise E records exerciseId currentDate
    = findPreviousRecordForExercise referenceEngine records exerciseId currentDate.
Proof.
  intros Hvalid. unfold findPreviousRecordForExercise.
  by rewrite (sortByDateDesc_reference E).
Qed.

(** The dates of a list of sample records are calendar dates. *)
Local Ltac calendar_dates := repeat constructor; by eexists.


(** ** Loops as folds *)

Section ForEach.
Context {A St : Type}.
Implicit Types (f : St → A → nat → St) (xs : list A) (s : St).

Lemma forEachFrom_foldl f i xs s :
  Js.forEachFrom f i xs s = foldl (λ acc p, f acc p.2 p.1) s (indexedFrom i xs).
Proof.
  revert i s. induction xs as [|x xs IH]; intros i s; simpl; [done|]. apply IH.
Qed.

Lemma forEach_no_index (g : St → A → St) xs s :
  Js.forEach (λ acc x _, g acc x) xs s = foldl g s xs.
Proof.
  unfold Js.forEach. generalize 0%nat. revert s.
  induction xs as [|x xs IH]; intros s i; simpl; [done|]. apply IH.
Qed.
End ForEach.

Lemma foldl_bind {A B St : Type} (f : St → B → St) (g : A → list B) (l : list A) (s : St) :
  foldl f s (l ≫= g) = foldl (λ acc x, foldl f acc (g x)) s l.
Proof.
  revert s. induction l as [|x l IH]; intros s; simpl; [done|].
  rewrite foldl_app. apply IH.
Qed.

Lemma processExercise_events date st ex i :
  processExercise date st ex i = foldl step st (exerciseEvents date ex).
Proof.
  unfold processExercise, exerciseEvents, exerciseSets. simpl.
  generalize (initExercise (TrainingRecordExercise.name ex) st) as st0.
  destruct (TrainingRecordExercise.sets ex) as [l|]; simpl; [|done].
  unfold Js.forEach. intros st0. rewrite forEachFrom_foldl.
  rewrite <- !list_fmap_compose. rewrite foldl_fmap. done.
Qed.

Lemma processRecord_events st record i :
  processRecord st record i = foldl step st (recordEvents record).
Proof.
  unfold processRecord, recordEvents.
  destruct (TrainingRecord.exercises record) as [l|]; simpl; [|done].
  rewrite foldl_bind.
  rewrite <- (forEach_no_index (λ acc x, foldl step acc (exerciseEvents _ x))).
  unfold Js.forEach. generalize 0%nat. revert st.
  induction l as [|x l IH]; intros st k; simpl; [done|].
  rewrite processExercise_events. apply IH.
Qed.

Lemma replay_events records :
  replay records = foldl step initialState (events records).
Proof.
  unfold replay, events. rewrite foldl_bind.
  unfold Js.forEach. generalize 0%nat. generalize initialState.
  induction records as [|r l IH]; intros st k; simpl; [done|].
  rewrite processRecord_events. apply IH.
Qed.

(** Whatever holds initially and is kept by every event holds after the
    replay. *)
Lemma replay_invariant (P : PRCalculationResult.t → Prop) records :
  P initialState →
  (∀ st ev, P st → P (step st ev)) →
  P (replay records).
Proof.
  intros H0 Hstep. rewrite replay_events.
  generalize (events records) as evs. intros evs. revert H0.
  generalize initialState. induction evs as [|ev evs IH]; intros st Hst; simpl; [done|].
  apply IH, Hstep, Hst.
Qed.

(** ** Steps of the replay *)

(** Reading a key gives a number exactly when the dictionary holds one at
    that key. *)
Lemma read_Own {A : Type} (o : gmap string A) k a : Js.read o k = Js.Own a ↔ o !! k = Some a.
Proof.
  unfold Js.read. destruct (o !! k); [|case_bool_decide]; split; congruence.
Qed.

Lemma read_Some {A : Type} (o : gmap string A) k a : o !! k = Some a → Js.read o k = Js.Own a.
Proof. apply read_Own. Qed.

Lemma read_None {A : Type} (o : gmap string A) k :
  o !! k = None →
  Js.read o k = if bool_decide (k ∈ Js.objectPrototype) then Js.Inherited else Js.Undefined.
Proof. unfold Js.read. by intros ->. Qed.

Lemma gtQ_true a b : Js.gtQ a b = true ↔ ∃ q, b = Js.Own q ∧ (q < a)%Qc.
Proof.
  destruct b as [q| |]; simpl.
  - rewrite bool_decide_eq_true. split; [eauto|]. by intros (? & [= <-] & ?).
  - split; [done|]. by intros (? & ? & ?).
  - split; [done|]. by intros (? & ? & ?).
Qed.

Lemma eqQ_true a b : Js.eqQ a b = true ↔ b = Js.Own a.
Proof.
  destruct b as [q| |]; simpl; [|done..].
  rewrite bool_decide_eq_true. split; [by intros ->|by intros [= ->]].
Qed.

Lemma gtZ_true a b : Js.gtZ a b = true ↔ ∃ z, b = Js.Own z ∧ z < a.
Proof.
  destruct b as [z| |]; simpl.
  - rewrite bool_decide_eq_true. split; [eauto|]. by intros (? & [= <-] & ?).
  - split; [done|]. by intros (? & ? & ?).
  - split; [done|]. by intros (? & ? & ?).
Qed.

Lemma eqZ_true a b : Js.eqZ a b = true ↔ b = Js.Own a.
Proof.
  destruct b as [z| |]; simpl; [|done..].
  rewrite bool_decide_eq_true. split; [by intros ->|by intros [= ->]].
Qed.

(** Without a number of its own at the name a set changes nothing: the name
    is read as [undefined] or as an inherited member, and both comparisons
    are false. *)
Lemma processSet_not_own date name st set i :
  maxWeightByExercise st !! name = None → processSet date name st set i = st.
Proof.
  intros H. unfold processSet. rewrite (read_None _ _ H). by case_bool_decide.
Qed.

(** The initialisation does nothing for a name that the maxima inherit. *)
Lemma initExercise_inherited name st :
  maxWeightByExercise st !! name = None → name ∈ Js.objectPrototype →
  initExercise name st = st.
Proof.
  intros H Hin. unfold initExercise. rewrite (read_None _ _ H).
  by rewrite bool_decide_eq_true_2.
Qed.

Lemma initExercise_undefined name st :
  maxWeightByExercise st !! name = None → name ∉ Js.objectPrototype →
  initExercise name st =
    PRCalculationResult.mk (prData st)
      (<[name := 0%Qc]> (maxWeightByExercise st))
      (<[name := 0]> (maxRepsAtMaxWeight st)).
Proof.
  intros H Hin. unfold initExercise. rewrite (read_None _ _ H).
  by rewrite bool_decide_eq_false_2.
Qed.

Lemma initExercise_own name st q :
  maxWeightByExercise st !! name = Some q →
  initExercise name st =
    if bool_decide (q = 0%Qc)
    then PRCalculationResult.mk (prData st)
           (<[name := 0%Qc]> (maxWeightByExercise st))
           (<[name := 0]> (maxRepsAtMaxWeight st))
    else st.
Proof. intros H. unfold initExercise. by rewrite (read_Some _ _ _ H). Qed.

Lemma processSet_new_max date name st set i mx :
  maxWeightByExercise st !! name = Some mx →
  (mx < TrainingSet.weight set)%Qc →
  processSet date name st set i =
    PRCalculationResult.mk
      (<[getPRKey date name i :=
           PRInfo.mk (Some true) (Some true) None None date name
             (TrainingSet.weight set) (TrainingSet.reps set) i]> (prData st))
      (<[name := TrainingSet.weight set]> (maxWeightByExercise st))
      (<[name := TrainingSet.reps set]> (maxRepsAtMaxWeight st)).
Proof.
  intros Hmx Hlt. unfold processSet.
  assert (Js.gtQ (TrainingSet.weight set) (Js.read (maxWeightByExercise st) name) = true)
    as ->; [|done].
  apply gtQ_true. exists mx. split; [by apply read_Some|done].
Qed.

(** A set that neither exceeds the running maximum weight nor ties it with
    more repetitions leaves the three objects as they are. *)
Lemma processSet_no_entry date name st set i :
  Js.gtQ (TrainingSet.weight set) (Js.read (maxWeightByExercise st) name) = false →
  Js.eqQ (TrainingSet.weight set) (Js.read (maxWeightByExercise st) name)
    && Js.gtZ (TrainingSet.reps set) (Js.read (maxRepsAtMaxWeight st) name) = false →
  processSet date name st set i = st.
Proof. intros H1 H2. unfold processSet. by rewrite H1, H2. Qed.

(** ** Repeated sets *)

(** The running maxima of [name] already dominate a set of weight [w] and
    [r] repetitions. *)
Definition dominated (name : string) (w : Qc) (r : Z) (st : PRCalculationResult.t) : Prop :=
  ∃ mx mr,
    maxWeightByExercise st !! name = Some mx
    ∧ maxRepsAtMaxWeight st !! name = Some mr
    ∧ ((w < mx)%Qc ∨ (mx = w ∧ r ≤ mr)).

Lemma processSet_dominated date name st set i :
  is_Some (maxWeightByExercise st !! name) →
  is_Some (maxRepsAtMaxWeight st !! name) →
  dominated name (TrainingSet.weight set) (TrainingSet.reps set)
    (processSet date name st set i).
Proof.
  intros [mx Hmx] [mr Hmr]. unfold processSet, dominated.
  rewrite (read_Some _ _ _ Hmx), (read_Some _ _ _ Hmr). simpl.
  repeat case_bool_decide; simpl.
  - eexists _, _. rewrite !lookup_insert_eq. split_and!; [done..|]. right. split; [done|lia].
  - eexists _, _. rewrite lookup_insert_eq. split_and!; [done..|]. right. split; [done|lia].
  - exists mx, mr. split_and!; [done..|]. right. split; [done|lia].
  - exists mx, mr. split_and!; [done..|]. left.
    destruct (Qclt_le_dec (TrainingSet.weight set) mx) as [|Hle]; [done|].
    destruct (Qcle_lt_or_eq _ _ Hle); [done|congruence].
  - exists mx, mr. split_and!; [done..|]. left.
    destruct (Qclt_le_dec (TrainingSet.weight set) mx) as [|Hle]; [done|].
    destruct (Qcle_lt_or_eq _ _ Hle); [done|congruence].
Qed.

Lemma step_dominated name w r st ev :
  (0 < w)%Qc → dominated name w r st → dominated name w r (step st ev).
Proof.
  intros Hw (mx & mr & Hmx & Hmr & Hdom).
  assert (0 < mx)%Qc as Hpos.
  { destruct Hdom as [?|[-> _]]; [by eapply Qclt_trans|done]. }
  unfold dominated. destruct ev as [n|d n i s]; simpl.
  - unfold initExercise. destruct (decide (n = name)) as [->|Hne].
    + rewrite (read_Some _ _ _ Hmx). simpl. rewrite bool_decide_eq_false_2; [by exists mx, mr|].
      intros ->. by apply Qclt_not_eq in Hpos.
    + destruct (Js.falsy _); [|by exists mx, mr].
      exists mx, mr. simpl. by rewrite !lookup_insert_ne.
  - unfold processSet. destruct (decide (n = name)) as [->|Hne].
    + rewrite (read_Some _ _ _ Hmx), (read_Some _ _ _ Hmr). simpl.
      repeat case_bool_decide; simpl.
      * eexists _, _. rewrite !lookup_insert_eq. split_and!; [done..|]. left.
        destruct Hdom as [?|[-> _]]; [by eapply Qclt_trans|done].
      * eexists _, _. rewrite lookup_insert_eq. split_and!; [done..|].
        destruct Hdom as [?|[-> ?]]; [by left|right; split; [done|lia]].
      * by exists mx, mr.
      * by exists mx, mr.
      * by exists mx, mr.
    + repeat case_match; exists mx, mr; simpl; by rewrite ?lookup_insert_ne.
Qed.

(** For a weight above zero: once a set of weight [w] and [r] repetitions of
    an exercise has been replayed, a later set of that exercise with the same
    weight and at most [r] repetitions changes nothing and so creates no
    entry, whatever is replayed in between. *)
Lemma repeated_set_no_entry name st d1 i1 s1 (mid : list Event) d2 i2 s2 :
  is_Some (maxWeightByExercise st !! name) →
  is_Some (maxRepsAtMaxWeight st !! name) →
  (0 < TrainingSet.weight s1)%Qc →
  TrainingSet.weight s2 = TrainingSet.weight s1 →
  TrainingSet.reps s2 ≤ TrainingSet.reps s1 →
  let st2 := foldl step (processSet d1 name st s1 i1) mid in
  processSet d2 name st2 s2 i2 = st2.
Proof.
  intros Hw Hr Hpos Heq Hle st2.
  assert (dominated name (TrainingSet.weight s1) (TrainingSet.reps s1) st2)
    as (mx & mr & Hmx & Hmr & Hdom).
  { subst st2. generalize (processSet_dominated d1 name st s1 i1 Hw Hr).
    generalize (processSet d1 name st s1 i1). induction mid as [|ev mid IH]; intros st1 H1;
      simpl; [done|]. by apply IH, step_dominated. }
  apply processSet_no_entry;
    rewrite (read_Some _ _ _ Hmx), ?(read_Some _ _ _ Hmr), Heq; simpl.
  - apply bool_decide_eq_false_2. destruct Hdom as [?|[-> _]].
    + by apply Qcle_not_lt, Qclt_le_weak.
    + apply Qcle_not_lt, Qcle_refl.
  - destruct Hdom as [Hlt|[-> ?]].
    + rewrite bool_decide_eq_false_2; [done|]. intros E. by apply Qclt_not_eq in Hlt.
    + rewrite andb_false_iff. right. apply bool_decide_eq_false_2. lia.
Qed.

(** C1, at weight 0: after the first session the running maxima of "Plank"
    are weight 0 and 5 repetitions, so the 0kg×5 set of the second session
    neither exceeds the maximum weight nor ties it with more repetitions;
    [calculatePRs] stores an entry for it all the same. *)
Theorem calculatePRs_zero_weight_repeat_creates_entry (E : Engine.t) :
  maxWeightByExercise (calculatePRs E (take 1 plankRecords)) !! "Plank" = Some 0%Qc
  ∧ maxRepsAtMaxWeight (calculatePRs E (take 1 plankRecords)) !! "Plank" = Some 5
  ∧ prData (calculatePRs E plankRecords) !! getPRKey "2024-01-02" "Plank" 0 =
      Some (PRInfo.mk None (Some true) None (Some true) "2024-01-02" "Plank" (kg 0) 5 0).
Proof. rewrite !(calculatePRs_reference E) by calendar_dates. split_and!; reflexivity. Qed.

(** ** Date lookups *)

Lemma append_assoc (s1 s2 s3 : string) : (s1 +:+ s2) +:+ s3 = s1 +:+ s2 +:+ s3.
Proof.
  induction s1 as [|c s1 IH]; [done|].
  change (String c ((s1 +:+ s2) +:+ s3) = String c (s1 +:+ s2 +:+ s3)). by rewrite IH.
Qed.

Lemma prefix_true_iff (p s : string) :
  String.prefix p s = true ↔ ∃ suffix, s = p +:+ suffix.
Proof.
  revert s. induction p as [|c p IH]; intros s.
  - destruct s; simpl; (split; [by eexists|done]).
  - change (λ x, String c p +:+ x) with (λ x, String c (p +:+ x)).
    destruct s as [|c' s]; simpl.
    + split; [done|]. by intros [? ?].
    + destruct (Ascii.ascii_dec c c') as [->|Hne].
      * rewrite IH. split; intros [x Hx]; exists x; [by rewrite Hx|by injection Hx].
      * split; [done|]. intros [x Hx]. by injection Hx.
Qed.

Lemma elem_of_keys (prData : PRData) key :
  key ∈ keys prData ↔ is_Some (prData !! key).
Proof.
  unfold keys. rewrite list_elem_of_fmap. split.
  - intros [[k pr] [-> Hin]]. apply elem_of_map_to_list in Hin. by exists pr.
  - intros [pr Hpr]. exists (key, pr). split; [done|]. by apply elem_of_map_to_list.
Qed.

Lemma truthy_true (b : option bool) : Js.truthy b = true ↔ b = Some true.
Proof. destruct b as [[]|]; simpl; split; congruence. Qed.

(** C9: [dateHasPR] answers true exactly when some key of the map is the
    date followed by an underscore followed by anything, and
    [dateHasCurrentPR] exactly when the entry of some such key has
    isCurrentMaxPR or isCurrentRepPR true. *)
Theorem dateHasPR_dateHasCurrentPR_spec (prData : PRData) (d : string) :
  (dateHasPR prData d = true ↔
     ∃ key suffix, is_Some (prData !! key) ∧ key = d +:+ "_" +:+ suffix)
  ∧ (dateHasCurrentPR prData d = true ↔
       ∃ key suffix pr,
         prData !! key = Some pr ∧ key = d +:+ "_" +:+ suffix
         ∧ (PRInfo.isCurrentMaxPR pr = Some true ∨ PRInfo.isCurrentRepPR pr = Some true)).
Proof.
  assert (∀ key, String.prefix (d +:+ "_") key = true ↔ ∃ suffix, key = d +:+ "_" +:+ suffix)
    as Hpre.
  { intros key. rewrite prefix_true_iff.
    split; intros [x ->]; exists x; by rewrite append_assoc. }
  split.
  - unfold dateHasPR. rewrite existsb_exists. split.
    + intros (key & Hin & Hp). apply list_elem_of_In, elem_of_keys in Hin.
      apply Hpre in Hp as [suffix ->]. eauto.
    + intros (key & suffix & Hin & ->). exists (d +:+ "_" +:+ suffix). split.
      * by apply list_elem_of_In, elem_of_keys.
      * apply Hpre. eauto.
  - unfold dateHasCurrentPR. rewrite existsb_exists. split.
    + intros (key & Hin & Hp).
      destruct (String.prefix (d +:+ "_") key) eqn:Hk; simpl in Hp; [|done].
      apply Hpre in Hk as [suffix ->].
      destruct (prData !! _) as [pr|] eqn:Hpr; [|done].
      exists (d +:+ "_" +:+ suffix), suffix, pr. split_and!; [done..|].
      apply orb_true_iff in Hp. by rewrite <- !truthy_true.
    + intros (key & suffix & pr & Hpr & -> & Hcur). exists (d +:+ "_" +:+ suffix). split.
      * apply list_elem_of_In, elem_of_keys. by exists pr.
      * assert (String.prefix (d +:+ "_") (d +:+ "_" +:+ suffix) = true) as ->
          by (apply Hpre; eauto).
        simpl. rewrite Hpr. apply orb_true_iff. by rewrite !truthy_true.
Qed.

(** ** The summary of a record *)

Lemma getPRSummaryForRecord_fold record prData :
  getPRSummaryForRecord record prData =
    foldl (λ acc p, summarizeSet prData (TrainingRecord.date record) p.1.1 acc p.2 p.1.2)
      (PRSummary.mk false false []) (recordSets record).
Proof.
  unfold getPRSummaryForRecord, recordSets.
  generalize (PRSummary.mk false false []).
  destruct (TrainingRecord.exercises record) as [exs|]; simpl; [|done].
  unfold Js.forEach. generalize 0%nat.
  induction exs as [|ex exs IH]; intros k acc; simpl; [done|].
  rewrite IH, foldl_app. f_equal.
  unfold summarizeExercise, exerciseSets.
  destruct (TrainingRecordExercise.sets ex) as [l|]; simpl; [|done].
  unfold Js.forEach. by rewrite forEachFrom_foldl, foldl_fmap.
Qed.

Lemma summarizeSet_spec prData date acc (p : string * nat * TrainingSet.t) :
  let r := summarizeSet prData date p.1.1 acc p.2 p.1.2 in
  PRSummary.prSummary r =
    (PRSummary.prSummary acc ++ option_list (summaryItemOf prData date p))%list
  ∧ PRSummary.hasPR r = PRSummary.hasPR acc || bool_decide (keyPresent prData date p).
Proof.
  destruct p as [[n i] s].
  rewrite (bool_decide_ext (keyPresent prData date (n, i, s))
             (is_Some (prData !! getPRKey date n i))) by done.
  unfold summarizeSet, summaryItemOf, setKey. cbn [fst snd].
  destruct (prData !! getPRKey date n i) as [pr|]; simpl.
  - split; [|by rewrite orb_true_r].
    by destruct (Js.truthy (PRInfo.maxWeightPR pr) || Js.truthy (PRInfo.repPR pr));
      simpl; rewrite ?app_nil_r.
  - by rewrite app_nil_r, orb_false_r.
Qed.

Lemma summarize_fold prData date l acc :
  let r := foldl (λ acc p, summarizeSet prData date p.1.1 acc p.2 p.1.2) acc l in
  PRSummary.prSummary r = (PRSummary.prSummary acc ++ omap (summaryItemOf prData date) l)%list
  ∧ PRSummary.hasPR r =
      PRSummary.hasPR acc || bool_decide (Exists (keyPresent prData date) l).
Proof.
  revert acc. induction l as [|p l IH]; intros acc.
  - split; [by rewrite app_nil_r|by rewrite orb_false_r].
  - destruct (IH (summarizeSet prData date p.1.1 acc p.2 p.1.2)) as [E1 E2].
    destruct (summarizeSet_spec prData date acc p) as [F1 F2].
    cbn [foldl]. cbv zeta. rewrite E1, E2, F1, F2. split.
    + rewrite <- app_assoc. f_equal. simpl. by destruct (summaryItemOf prData date p).
    + rewrite <- orb_assoc. f_equal. apply eq_bool_prop_intro.
      rewrite orb_True, !bool_decide_spec, Exists_cons. done.
Qed.

Lemma summaryItemOf_flagged prData date p :
  is_Some (summaryItemOf prData date p) ↔ keyFlagged prData date p.
Proof.
  unfold summaryItemOf, keyFlagged.
  destruct (prData !! setKey date p) as [pr|]; simpl.
  - destruct (Js.truthy (PRInfo.maxWeightPR pr) || Js.truthy (PRInfo.repPR pr)) eqn:Hfl.
    + split; [|by eexists]. intros _. exists pr. split; [done|].
      by rewrite <- !truthy_true, <- orb_true_iff.
    + split; [by intros [? ?]|]. intros (? & [= <-] & Hpr).
      rewrite <- !truthy_true, <- orb_true_iff in Hpr. congruence.
  - split; [by intros [? ?]|by intros (? & ? & ?)].
Qed.

Lemma length_omap_summaryItemOf prData date l :
  length (omap (summaryItemOf prData date) l) = length (filter (keyFlagged prData date) l).
Proof.
  induction l as [|p l IH]; [done|].
  rewrite filter_cons. cbn [omap list_omap]. fold (omap (summaryItemOf prData date) l).
  pose proof (summaryItemOf_flagged prData date p) as Hp.
  destruct (decide (keyFlagged prData date p)) as [Hfl|Hno].
  - apply Hp in Hfl as [x ->]. simpl. by rewrite IH.
  - destruct (summaryItemOf prData date p); [|done]. exfalso. apply Hno, Hp. by eexists.
Qed.

(** C6 as stated fails: the benchRecord has one set, its key is present in
    the map, and the summary is empty because the entry carries neither
    maxWeightPR nor repPR. *)
Lemma getPRSummaryForRecord_length_counterexample :
  ¬ (∀ (record : TrainingRecord.t) (prData : PRData),
       length (PRSummary.prSummary (getPRSummaryForRecord record prData)) =
       length (filter (keyPresent prData (TrainingRecord.date record)) (recordSets record))).
Proof. intros H. specialize (H benchRecord unflaggedMap). vm_compute in H. discriminate H. Qed.

Lemma getPRSummaryForRecord_items (record : TrainingRecord.t) (prData : PRData) :
  let r := getPRSummaryForRecord record prData in
  let date := TrainingRecord.date record in
  PRSummary.prSummary r = omap (summaryItemOf prData date) (recordSets record)
  ∧ length (PRSummary.prSummary r) =
      length (filter (keyFlagged prData date) (recordSets record))
  ∧ PRSummary.hasPR r = bool_decide (Exists (keyPresent prData date) (recordSets record)).
Proof.
  intros r date. subst r. rewrite getPRSummaryForRecord_fold.
  destruct (summarize_fold prData date (recordSets record) (PRSummary.mk false false []))
    as [Hs Hh]. simpl in Hs, Hh. fold date. rewrite Hs, Hh. split_and!; [done| |done].
  apply length_omap_summaryItemOf.
Qed.

(** C6, amended: for every record and every map, the summary holds, in set
    iteration order, one item for each set of the record whose key is
    present in the map with maxWeightPR or repPR true, so its length is the
    number of those sets; hasPR is true exactly when at least one set of the
    record has its key present in the map. *)
Theorem getPRSummaryForRecord_spec (record : TrainingRecord.t) (prData : PRData) :
  let r := getPRSummaryForRecord record prData in
  let date := TrainingRecord.date record in
  PRSummary.prSummary r = omap (summaryItemOf prData date) (recordSets record)
  ∧ length (PRSummary.prSummary r) =
      length (filter (keyFlagged prData date) (recordSets record))
  ∧ (PRSummary.hasPR r = true ↔
       (1 ≤ length (filter (keyPresent prData date) (recordSets record)))%nat).
Proof.
  intros r date. destruct (getPRSummaryForRecord_items record prData) as (Hs & Hl & Hh).
  split_and!; [done..|].
  subst r date. rewrite Hh, bool_decide_eq_true, List.Exists_exists.
  set (present := keyPresent prData (TrainingRecord.date record)).
  split.
  - intros (p & Hin%list_elem_of_In & Hp).
    assert (p ∈ filter present (recordSets record)) as Hf by (by apply list_elem_of_filter).
    revert Hf. generalize (filter present (recordSets record)).
    intros [|? ?] Hf; [by apply elem_of_nil in Hf|simpl; lia].
  - destruct (filter present (recordSets record)) as [|p l] eqn:Hf; [simpl; lia|].
    intros _. assert (p ∈ filter present (recordSets record)) as Hp by (rewrite Hf; left).
    apply list_elem_of_filter in Hp as [? ?%list_elem_of_In]. eauto.
Qed.

(** ** Entries of the map *)

Lemma processSet_prData date name st set i :
  prData (processSet date name st set i) = prData st
  ∨ (Js.gtQ (TrainingSet.weight set) (Js.read (maxWeightByExercise st) name) = true
     ∧ prData (processSet date name st set i) =
         <[getPRKey date name i :=
             PRInfo.mk (Some true) (Some true) None None date name
               (TrainingSet.weight set) (TrainingSet.reps set) i]> (prData st))
  ∨ (Js.gtQ (TrainingSet.weight set) (Js.read (maxWeightByExercise st) name) = false
     ∧ prData (processSet date name st set i) =
         <[getPRKey date name i :=
             PRInfo.mk None (Some true) None None date name
               (TrainingSet.weight set) (TrainingSet.reps set) i]> (prData st)).
Proof.
  unfold processSet.
  destruct (Js.gtQ _ _); [right; left; done|].
  destruct (Js.eqQ _ _ && Js.gtZ _ _); [right; right; done|left; done].
Qed.

Lemma replay_entries records key pr :
  prData (replay records) !! key = Some pr → replayEntry pr.
Proof.
  revert key pr.
  apply (replay_invariant (λ st, ∀ key pr, prData st !! key = Some pr → replayEntry pr)).
  - intros key pr. unfold initialState. simpl. by rewrite lookup_empty.
  - intros st ev IH key pr. destruct ev as [n|d n i s]; simpl.
    + unfold initExercise. destruct (Js.falsy _); apply IH.
    + destruct (processSet_prData d n st s i) as [->|[[_ ->]|[_ ->]]]; [apply IH|..];
        (rewrite lookup_insert; case_decide; [|apply IH]); intros [= <-];
        unfold replayEntry; simpl; auto.
Qed.

Lemma markCurrent_flags mw mr pr :
  PRInfo.maxWeightPR (markCurrent mw mr pr) = PRInfo.maxWeightPR pr
  ∧ PRInfo.repPR (markCurrent mw mr pr) = PRInfo.repPR pr
  ∧ PRInfo.exercise (markCurrent mw mr pr) = PRInfo.exercise pr
  ∧ PRInfo.weight (markCurrent mw mr pr) = PRInfo.weight pr
  ∧ PRInfo.reps (markCurrent mw mr pr) = PRInfo.reps pr.
Proof. unfold markCurrent. by repeat case_match. Qed.

(** C10: every entry of the map returned by [calculatePRs] has repPR true
    and has maxWeightPR either true or unset; a step of the replay that
    stores an entry stores it with maxWeightPR true exactly in the new
    maximum weight branch; hence on such a map the summary of any record has
    one item per set whose key is present. *)
Theorem calculatePRs_entries_carry_repPR (E : Engine.t) (records : list TrainingRecord.t) :
  (∀ key pr, prData (calculatePRs E records) !! key = Some pr →
     PRInfo.repPR pr = Some true
     ∧ (PRInfo.maxWeightPR pr = Some true ∨ PRInfo.maxWeightPR pr = None))
  ∧ (∀ date name st set i,
       prData (processSet date name st set i) = prData st
       ∨ ∃ pr, prData (processSet date name st set i) = <[getPRKey date name i := pr]> (prData st)
               ∧ PRInfo.repPR pr = Some true
               ∧ PRInfo.maxWeightPR pr =
                   (if Js.gtQ (TrainingSet.weight set)
                         (Js.read (maxWeightByExercise st) name)
                    then Some true else None))
  ∧ (∀ record,
       length (PRSummary.prSummary
                 (getPRSummaryForRecord record (prData (calculatePRs E records)))) =
       length (filter (keyPresent (prData (calculatePRs E records)) (TrainingRecord.date record))
                 (recordSets record))).
Proof.
  assert (∀ key pr, prData (calculatePRs E records) !! key = Some pr →
     PRInfo.repPR pr = Some true
     ∧ (PRInfo.maxWeightPR pr = Some true ∨ PRInfo.maxWeightPR pr = None)) as Hentries.
  { intros key pr. unfold calculatePRs. simpl. rewrite lookup_fmap.
    destruct (prData (replay (sortByDate E records)) !! key) as [pr0|] eqn:Hpr0; [|done].
    intros [= <-]. apply replay_entries in Hpr0 as (Hrep & Hmax & _).
    destruct (markCurrent_flags (maxWeightByExercise (replay (sortByDate E records)))
                (maxRepsAtMaxWeight (replay (sortByDate E records))) pr0)
      as (-> & -> & _). done. }
  split_and!; [done| |].
  - intros date name st set i.
    destruct (processSet_prData date name st set i) as [?|[[Hgt ->]|[Hgt ->]]]; [by left|..];
      right; eexists; rewrite Hgt; done.
  - intros record.
    destruct (getPRSummaryForRecord_items record (prData (calculatePRs E records)))
      as (_ & -> & _).
    f_equal. apply list_filter_iff. intros p. unfold keyFlagged, keyPresent. split.
    + intros (pr & -> & _). by eexists.
    + intros [pr Hpr]. exists pr. split; [done|]. right. by apply (Hentries _ _ Hpr).
Qed.

Lemma calculatePRs_entries_carry_repPR_witness :
  let pr := PRInfo.mk (Some true) (Some true) (Some true) (Some true)
              "2024-01-01" "Bench Press" (kg 100) 5 0 in
  PRInfo.repPR pr = Some true
  ∧ (PRInfo.maxWeightPR pr = Some true ∨ PRInfo.maxWeightPR pr = None).
Proof.
  destruct (calculatePRs_entries_carry_repPR referenceEngine [benchRecord]) as (H & _ & _).
  apply (H "2024-01-01_Bench Press_0"). reflexivity.
Defined.

(** ** The current flags *)

Lemma markCurrent_current mw mr pr :
  replayEntry pr →
  (PRInfo.isCurrentMaxPR (markCurrent mw mr pr) = Some true ↔
     PRInfo.exercise pr ≠ "" ∧ PRInfo.maxWeightPR pr = Some true
     ∧ mw !! PRInfo.exercise pr = Some (PRInfo.weight pr))
  ∧ (PRInfo.isCurrentRepPR (markCurrent mw mr pr) = Some true ↔
       PRInfo.exercise pr ≠ "" ∧ mw !! PRInfo.exercise pr = Some (PRInfo.weight pr)
       ∧ mr !! PRInfo.exercise pr = Some (PRInfo.reps pr)).
Proof.
  intros (Hrep & Hmax & Hcm & Hcr). rewrite <- !read_Own. unfold markCurrent.
  case_bool_decide as Hex; [rewrite Hcm, Hcr; split; split; [done| |done|]; by intros [? _]|].
  destruct (Js.truthy (PRInfo.maxWeightPR pr)) eqn:Hm;
    destruct (Js.eqQ (PRInfo.weight pr) (Js.read mw (PRInfo.exercise pr))) eqn:Hw;
    destruct (Js.eqZ (PRInfo.reps pr) (Js.read mr (PRInfo.exercise pr))) eqn:Hr;
    simpl; rewrite Hrep, ?Hw, ?Hr; simpl; rewrite ?Hcm, ?Hcr;
    try (apply truthy_true in Hm); try (apply eqQ_true in Hw); try (apply eqZ_true in Hr);
    (split; split; [try done; intros _; by split_and!| | try done; intros _; by split_and! |]);
    intros (_ & H1 & H2); try done.
  all: try (rewrite <- eqQ_true in H2; congruence).
  all: try (rewrite <- eqQ_true in H1; congruence).
  all: try (rewrite <- eqZ_true in H2; congruence).
  all: try (rewrite <- truthy_true in H1; congruence).
Qed.

(** C2 as stated fails: after 100kg×5 and, later, 100kg×8, the entry of the
    second set has the final maximum weight and yet isCurrentMaxPR is not
    set, because the entry does not carry maxWeightPR. *)
Lemma calculatePRs_isCurrentMaxPR_counterexample :
  ¬ (∀ (records : list TrainingRecord.t) key pr,
       prData (calculatePRs referenceEngine records) !! key = Some pr →
       (PRInfo.isCurrentMaxPR pr = Some true ↔
          maxWeightByExercise (calculatePRs referenceEngine records) !! PRInfo.exercise pr
            = Some (PRInfo.weight pr))).
Proof.
  intros H.
  specialize (H benchRepRecords "2024-01-08_Bench Press_0"
                (PRInfo.mk None (Some true) None (Some true) "2024-01-08" "Bench Press"
                   (kg 100) 8 0) eq_refl).
  destruct H as [_ H]. by specialize (H eq_refl).
Qed.

(** C2, amended: in the map returned by [calculatePRs] an entry has
    isCurrentMaxPR true exactly when its exercise name is not empty, it
    carries maxWeightPR, and its weight is the final maximum weight of its
    exercise; it has isCurrentRepPR true exactly when its exercise name is
    not empty, its weight is that final maximum weight and its repetitions
    are the final repetitions at maximum weight of its exercise. *)
Theorem calculatePRs_current_flags (E : Engine.t) (records : list TrainingRecord.t) (key : string)
    (pr : PRInfo.t) :
  prData (calculatePRs E records) !! key = Some pr →
  (PRInfo.isCurrentMaxPR pr = Some true ↔
     PRInfo.exercise pr ≠ "" ∧ PRInfo.maxWeightPR pr = Some true
     ∧ maxWeightByExercise (calculatePRs E records) !! PRInfo.exercise pr
         = Some (PRInfo.weight pr))
  ∧ (PRInfo.isCurrentRepPR pr = Some true ↔
       PRInfo.exercise pr ≠ ""
       ∧ maxWeightByExercise (calculatePRs E records) !! PRInfo.exercise pr
           = Some (PRInfo.weight pr)
       ∧ maxRepsAtMaxWeight (calculatePRs E records) !! PRInfo.exercise pr
           = Some (PRInfo.reps pr)).
Proof.
  unfold calculatePRs. simpl. rewrite lookup_fmap.
  destruct (prData (replay (sortByDate E records)) !! key) as [pr0|] eqn:Hpr0; [|done].
  intros [= <-]. apply replay_entries in Hpr0.
  set (mw := maxWeightByExercise (replay (sortByDate E records))).
  set (mr := maxRepsAtMaxWeight (replay (sortByDate E records))).
  destruct (markCurrent_flags mw mr pr0) as (-> & _ & -> & -> & ->).
  by apply markCurrent_current.
Qed.

Lemma calculatePRs_current_flags_witness :
  let pr := PRInfo.mk (Some true) (Some true) (Some true) (Some true)
              "2024-01-01" "Bench Press" (kg 100) 5 0 in
  (PRInfo.isCurrentMaxPR pr = Some true ↔
     PRInfo.exercise pr ≠ "" ∧ PRInfo.maxWeightPR pr = Some true
     ∧ maxWeightByExercise (calculatePRs referenceEngine [benchRecord]) !! PRInfo.exercise pr
         = Some (PRInfo.weight pr))
  ∧ (PRInfo.isCurrentRepPR pr = Some true ↔
       PRInfo.exercise pr ≠ ""
       ∧ maxWeightByExercise (calculatePRs referenceEngine [benchRecord]) !! PRInfo.exercise pr
           = Some (PRInfo.weight pr)
       ∧ maxRepsAtMaxWeight (calculatePRs referenceEngine [benchRecord]) !! PRInfo.exercise pr
           = Some (PRInfo.reps pr)).
Proof.
  apply (calculatePRs_current_flags referenceEngine [benchRecord]
           "2024-01-01_Bench Press_0").
  reflexivity.
Defined.

(** ** Sparse input *)

Lemma forEachOpt_nil {A St : Type} (f : St → A → nat → St) (xs : option (list A)) (s : St) :
  optList xs = [] → Js.forEachOpt f xs s = s.
Proof. destruct xs as [[|x l]|]; simpl; [done| |done]. intros [=]. Qed.

(** C8 as stated fails: an exercise without a sets array is tolerated, but
    it does contribute to the output; it adds its name with 0 to the
    maxima, which are empty for the empty input. *)
Lemma calculatePRs_sparse_exercise_counterexample :
  ¬ (∀ (date : string) (ex : TrainingRecordExercise.t),
       optList (TrainingRecordExercise.sets ex) = [] →
       calculatePRs referenceEngine [TrainingRecord.mk 0 date None (Some [ex])]
         = calculatePRs referenceEngine []).
Proof.
  intros H.
  specialize (H "2024-01-01" (TrainingRecordExercise.mk 0 "Squat" "legs" false None) eq_refl).
  apply (f_equal (λ r, maxWeightByExercise r !! "Squat")) in H. discriminate H.
Qed.

(** C8, amended: [calculatePRs] of the empty sequence returns an empty map
    and empty maxima; a record whose exercises array is missing or empty
    changes nothing in the replay and has the empty summary; an exercise
    whose sets array is missing or empty stores no entry; it changes nothing
    when its name already has a maximum weight other than zero, and nothing
    when its name has no maximum weight and is the name of a member
    inherited from [Object.prototype]; it adds its name with 0 to both
    maxima when the name has no maximum weight and is no such name; in the
    summary such an exercise adds nothing. *)
Theorem sparse_input_tolerated (E : Engine.t) :
  calculatePRs E [] = PRCalculationResult.mk ∅ ∅ ∅
  ∧ (∀ record st i,
       optList (TrainingRecord.exercises record) = [] → processRecord st record i = st)
  ∧ (∀ record prData,
       optList (TrainingRecord.exercises record) = [] →
       getPRSummaryForRecord record prData = PRSummary.mk false false [])
  ∧ (∀ date ex st i,
       optList (TrainingRecordExercise.sets ex) = [] →
       let name := TrainingRecordExercise.name ex in
       let st' := processExercise date st ex i in
       prData st' = prData st
       ∧ (∀ q, maxWeightByExercise st !! name = Some q → q ≠ 0%Qc → st' = st)
       ∧ (maxWeightByExercise st !! name = None → name ∈ Js.objectPrototype → st' = st)
       ∧ (maxWeightByExercise st !! name = None → name ∉ Js.objectPrototype →
            maxWeightByExercise st' = <[name := 0%Qc]> (maxWeightByExercise st)
            ∧ maxRepsAtMaxWeight st' = <[name := 0]> (maxRepsAtMaxWeight st)))
  ∧ (∀ prData date acc ex i,
       optList (TrainingRecordExercise.sets ex) = [] →
       summarizeExercise prData date acc ex i = acc).
Proof.
  split_and!.
  - rewrite calculatePRs_reference by constructor. reflexivity.
  - intros record st i H. unfold processRecord. by rewrite forEachOpt_nil.
  - intros record prData H. unfold getPRSummaryForRecord. by rewrite forEachOpt_nil.
  - intros date ex st i H name st'. subst st'. unfold processExercise.
    rewrite forEachOpt_nil by done. fold name. split_and!.
    + unfold initExercise. by destruct (Js.falsy _).
    + intros q Hq Hq0. rewrite (initExercise_own _ _ _ Hq).
      by rewrite bool_decide_eq_false_2.
    + intros Hnone Hin. by apply initExercise_inherited.
    + intros Hnone Hin. by rewrite initExercise_undefined.
  - intros prData date acc ex i H. unfold summarizeExercise. by rewrite forEachOpt_nil.
Qed.

Lemma sparse_input_tolerated_witness :
  processRecord initialState (TrainingRecord.mk 0 "2024-01-01" None None) 0 = initialState
  ∧ getPRSummaryForRecord (TrainingRecord.mk 0 "2024-01-01" None (Some [])) ∅
      = PRSummary.mk false false []
  ∧ prData (processExercise "2024-01-01" initialState
              (TrainingRecordExercise.mk 0 "Squat" "legs" false None) 0) = ∅
  ∧ maxWeightByExercise (processExercise "2024-01-01" initialState
                           (TrainingRecordExercise.mk 0 "Squat" "legs" false None) 0)
      = <["Squat" := 0%Qc]> ∅
  ∧ processExercise "2024-01-01" initialState
      (TrainingRecordExercise.mk 0 "constructor" "" true None) 0 = initialState.
Proof.
  destruct (sparse_input_tolerated referenceEngine) as (_ & H1 & H2 & H3 & _).
  destruct (H3 "2024-01-01" (TrainingRecordExercise.mk 0 "Squat" "legs" false None)
              initialState 0%nat eq_refl) as (Hsquat & _ & _ & Hnew).
  destruct (H3 "2024-01-01" (TrainingRecordExercise.mk 0 "constructor" "" true None)
              initialState 0%nat eq_refl) as (_ & _ & Hinherited & _).
  split_and!.
  - apply H1. reflexivity.
  - apply H2. reflexivity.
  - exact Hsquat.
  - apply Hnew; [reflexivity|]. apply (bool_decide_unpack _). reflexivity.
  - apply Hinherited; [reflexivity|]. apply (bool_decide_unpack _). reflexivity.
Defined.

(** ** The records argument is not written *)

(** C7: on a heap where [records] points to an array, the call returns, the
    array [records] points to holds the same records in the same order
    afterwards, every array that existed before is unchanged, and the result
    is the one computed from the array's elements. *)
Theorem calculatePRs_does_not_mutate_records (E : Engine.t) (h : Heap.heap) (records : Heap.loc)
    (xs : list TrainingRecord.t) :
  h !! records = Some xs →
  ∃ res h',
    Heap.calculatePRs E h records = Some (res, h')
    ∧ h' !! records = Some xs
    ∧ (∀ a, is_Some (h !! a) → h' !! a = h !! a)
    ∧ res = calculatePRs E xs.
Proof.
  intros Hxs. unfold Heap.calculatePRs, Heap.spread, Heap.sort. rewrite Hxs. simpl.
  rewrite lookup_insert_eq. simpl. rewrite lookup_insert_eq. simpl.
  eexists _, _. split; [done|].
  assert (∀ a, is_Some (h !! a) → a ≠ fresh (dom h)) as Hfresh.
  { intros a Ha%elem_of_dom ->. by apply (is_fresh (dom h)). }
  split_and!.
  - rewrite !lookup_insert_ne; [done|..]; apply not_eq_sym, Hfresh; by rewrite Hxs.
  - intros a Ha. rewrite !lookup_insert_ne; [done|..]; by apply not_eq_sym, Hfresh.
  - done.
Qed.

Lemma calculatePRs_does_not_mutate_records_witness :
  ∃ res h',
    Heap.calculatePRs referenceEngine {[ 1%positive := rev plankRecords ]} 1%positive
      = Some (res, h')
    ∧ h' !! 1%positive = Some (rev plankRecords)
    ∧ (∀ a, is_Some (({[ 1%positive := rev plankRecords ]} : Heap.heap) !! a) →
            h' !! a = ({[ 1%positive := rev plankRecords ]} : Heap.heap) !! a)
    ∧ res = calculatePRs referenceEngine (rev plankRecords).
Proof.
  apply (calculatePRs_does_not_mutate_records referenceEngine
           {[ 1%positive := rev plankRecords ]} 1%positive
           (rev plankRecords)).
  reflexivity.
Defined.

(** ** Dates and time stamps *)

Module IsoDateFacts.
Import IsoDate.

Lemma dayFromYear_next y :
  dayFromYear (y + 1) = dayFromYear y + 365 + (if inLeapYear y then 1 else 0).
Proof.
  unfold dayFromYear, inLeapYear.
  destruct (Z.eqb_spec (y mod 4) 0), (Z.eqb_spec (y mod 100) 0),
    (Z.eqb_spec (y mod 400) 0); simpl; Z.div_mod_to_equations; lia.
Qed.

Lemma dayFromYear_mono y y' : y ≤ y' → dayFromYear y ≤ dayFromYear y'.
Proof. unfold dayFromYear. intros H. Z.div_mod_to_equations. lia. Qed.

Lemma dayFromYear_lt y y' :
  y < y' → dayFromYear y + 365 + (if inLeapYear y then 1 else 0) ≤ dayFromYear y'.
Proof.
  intros H. rewrite <- dayFromYear_next. apply dayFromYear_mono. lia.
Qed.

(** The day of the year, counted from 0, of a valid month and day. *)
Lemma dayWithinYear_range leap m d :
  1 ≤ m ≤ 12 → 1 ≤ d ≤ daysInMonth leap m →
  0 ≤ dayWithinYear leap m + d - 1 ≤ 364 + (if leap then 1 else 0).
Proof.
  intros Hm Hd.
  assert (m = 1 ∨ m = 2 ∨ m = 3 ∨ m = 4 ∨ m = 5 ∨ m = 6 ∨ m = 7 ∨ m = 8 ∨ m = 9
          ∨ m = 10 ∨ m = 11 ∨ m = 12) as Hcases by lia.
  destruct leap; repeat (destruct Hcases as [->|Hcases]); try subst m;
    cbv [daysInMonth dayWithinYear] in *; simpl in *; lia.
Qed.

Lemma dayWithinYear_inj leap m d m' d' :
  1 ≤ m ≤ 12 → 1 ≤ d ≤ daysInMonth leap m →
  1 ≤ m' ≤ 12 → 1 ≤ d' ≤ daysInMonth leap m' →
  dayWithinYear leap m + d = dayWithinYear leap m' + d' → m = m' ∧ d = d'.
Proof.
  intros Hm Hd Hm' Hd'.
  assert (m = 1 ∨ m = 2 ∨ m = 3 ∨ m = 4 ∨ m = 5 ∨ m = 6 ∨ m = 7 ∨ m = 8 ∨ m = 9
          ∨ m = 10 ∨ m = 11 ∨ m = 12) as Hcases by lia.
  assert (m' = 1 ∨ m' = 2 ∨ m' = 3 ∨ m' = 4 ∨ m' = 5 ∨ m' = 6 ∨ m' = 7 ∨ m' = 8 ∨ m' = 9
          ∨ m' = 10 ∨ m' = 11 ∨ m' = 12) as Hcases' by lia.
  destruct leap; repeat (destruct Hcases as [->|Hcases]); try subst m;
    repeat (destruct Hcases' as [->|Hcases']); try subst m';
    cbv [daysInMonth dayWithinYear] in *; simpl in *; lia.
Qed.

Lemma timeOfDay_Some y m d t :
  timeOfDay y m d = Some t →
  1 ≤ m ≤ 12 ∧ 1 ≤ d ≤ daysInMonth (inLeapYear y) m
  ∧ t = (dayFromYear y + dayWithinYear (inLeapYear y) m + d - 1) * msPerDay.
Proof.
  unfold timeOfDay, utcMidnight. case_match eqn:H; [|done]. intros [= <-].
  rewrite !andb_true_iff, !Z.leb_le in H. lia.
Qed.

Lemma timeOfDay_inj y m d y' m' d' t :
  timeOfDay y m d = Some t → timeOfDay y' m' d' = Some t →
  y = y' ∧ m = m' ∧ d = d'.
Proof.
  intros (Hm & Hd & ->)%timeOfDay_Some (Hm' & Hd' & Heq)%timeOfDay_Some.
  unfold msPerDay in Heq.
  pose proof (dayWithinYear_range _ _ _ Hm Hd).
  pose proof (dayWithinYear_range _ _ _ Hm' Hd').
  assert (y = y') as <-.
  { destruct (Z.lt_trichotomy y y') as [Hlt|[?|Hlt]]; [|done|];
      apply dayFromYear_lt in Hlt; lia. }
  split; [done|]. apply (dayWithinYear_inj (inLeapYear y)); [done..|lia].
Qed.

Lemma digit_Some c n : digit c = Some n → 0 ≤ n ≤ 9 ∧ c = ascii_of_nat (Z.to_nat (n + 48)).
Proof.
  unfold digit. case_match eqn:H; [|done]. intros [= <-].
  rewrite andb_true_iff, !Z.leb_le in H. split; [lia|].
  replace (Z.of_nat (nat_of_ascii c) - 48 + 48) with (Z.of_nat (nat_of_ascii c)) by lia.
  by rewrite Nat2Z.id, ascii_nat_embedding.
Qed.

Lemma isDash_true c : isDash c = true → c = ascii_of_nat 45.
Proof.
  unfold isDash. intros H%Nat.eqb_eq. by rewrite <- H, ascii_nat_embedding.
Qed.

Lemma fields_inj s s' f : fields s = Some f → fields s' = Some f → s = s'.
Proof.
  unfold fields. intros H H'.
  repeat (case_match; try done). subst.
  repeat match goal with
         | H : isDash _ && isDash _ = true |- _ =>
             apply andb_true_iff in H as [?%isDash_true ?%isDash_true]
         end.
  repeat match goal with
         | H : _ ≫= _ = Some _ |- _ => apply bind_Some in H as (? & ?%digit_Some & H)
         end.
  simplify_eq. destruct_and!. subst.
  repeat match goal with
         | H : Some _ = Some _ |- _ => injection H as ? ? ?
         end.
  repeat f_equal; lia.
Qed.

Lemma calendarTime_inj s s' t : calendarTime s = Some t → calendarTime s' = Some t → s = s'.
Proof.
  unfold calendarTime. intros ([[y m] d] & Hf & Ht)%bind_Some ([[y' m'] d'] & Hf' & Ht')%bind_Some.
  destruct (timeOfDay_inj _ _ _ _ _ _ _ Ht Ht') as (<- & <- & <-).
  by eapply fields_inj.
Qed.

End IsoDateFacts.

(** ** The sort *)

(** On every engine, permutations of records with pairwise distinct calendar
    dates sort to the same array. *)
Lemma sortByDate_unique (E : Engine.t) l1 l2 :
  l1 ≡ₚ l2 → NoDup (TrainingRecord.date <$> l1) → Forall validDate l1 →
  sortByDate E l1 = sortByDate E l2.
Proof.
  intros Hperm Hnodup Hvalid.
  apply (StronglySorted_unique_strong (λ a b, timeOf a ≤ timeOf b)).
  - intros x1 x2 Hx1 Hx2 H12 H21.
    rewrite sortByDate_Permutation in Hx1. rewrite sortByDate_Permutation, <- Hperm in Hx2.
    rewrite Forall_forall in Hvalid.
    destruct (Hvalid _ Hx1) as [t1 Ht1], (Hvalid _ Hx2) as [t2 Ht2].
    unfold timeOf in H12, H21. rewrite Ht1, Ht2 in H12, H21. simpl in H12, H21.
    assert (t1 = t2) as -> by lia.
    pose proof (IsoDateFacts.calendarTime_inj _ _ _ Ht1 Ht2) as Hdate.
    apply list_elem_of_lookup in Hx1 as [i1 Hi1], Hx2 as [i2 Hi2].
    assert (i1 = i2) as ->; [|congruence].
    eapply NoDup_lookup; [exact Hnodup| |].
    + rewrite list_lookup_fmap, Hi1. simpl. reflexivity.
    + rewrite list_lookup_fmap, Hi2. simpl. by rewrite Hdate.
  - by apply sortByDate_sorted.
  - apply sortByDate_sorted. by rewrite <- Hperm.
  - by rewrite !sortByDate_Permutation.
Qed.

(** C5: for two sequences of records that are permutations of each other,
    whose dates are calendar dates written YYYY-MM-DD and pairwise distinct,
    [calculatePRs] returns the same map and the same maxima. *)
Theorem calculatePRs_order_independent (E : Engine.t) (l1 l2 : list TrainingRecord.t) :
  l1 ≡ₚ l2 →
  NoDup (TrainingRecord.date <$> l1) →
  Forall validDate l1 →
  calculatePRs E l1 = calculatePRs E l2.
Proof.
  intros Hperm Hnodup Hvalid. unfold calculatePRs.
  by rewrite (sortByDate_unique E l1 l2).
Qed.

Lemma calculatePRs_order_independent_witness :
  calculatePRs referenceEngine plankRecords = calculatePRs referenceEngine (rev plankRecords).
Proof.
  apply calculatePRs_order_independent.
  - apply Permutation_swap.
  - apply (bool_decide_unpack _). reflexivity.
  - repeat constructor; by eexists.
Defined.

(** ** The final maxima *)

Local Ltac in_snoc := apply elem_of_app; first [by left | right; by left].

Section Maxima.
Variable name : string.

Lemma initExercise_other n st :
  n ≠ name →
  maxWeightByExercise (initExercise n st) !! name = maxWeightByExercise st !! name
  ∧ maxRepsAtMaxWeight (initExercise n st) !! name = maxRepsAtMaxWeight st !! name.
Proof.
  intros Hne. unfold initExercise. destruct (Js.falsy _); [|done]. simpl.
  by rewrite !lookup_insert_ne.
Qed.

Lemma processSet_other d n st s i :
  n ≠ name →
  maxWeightByExercise (processSet d n st s i) !! name = maxWeightByExercise st !! name
  ∧ maxRepsAtMaxWeight (processSet d n st s i) !! name = maxRepsAtMaxWeight st !! name.
Proof.
  intros Hne. unfold processSet. repeat case_match; simpl; by rewrite ?lookup_insert_ne.
Qed.

Lemma maximaOf_ext st st' l :
  maxWeightByExercise st' !! name = maxWeightByExercise st !! name →
  maxRepsAtMaxWeight st' !! name = maxRepsAtMaxWeight st !! name →
  maximaOf name st l → maximaOf name st' l.
Proof. unfold maximaOf. by intros -> ->. Qed.

Lemma initExercise_maximaOf st l :
  maximaOf name st l →
  maximaOf name (initExercise name st) l
  ∧ (started name (initExercise name st)
     ∨ (maxWeightByExercise (initExercise name st) !! name = None
        ∧ name ∈ Js.objectPrototype)).
Proof.
  unfold maximaOf, started.
  intros [(Hw & Hr & Hl)|[(mr & Hw & Hr & Hl)|(mx & mr & Hw & Hr & Hpos & Hmax)]].
  - destruct (decide (name ∈ Js.objectPrototype)) as [Hin|Hin].
    + rewrite (initExercise_inherited _ _ Hw Hin). split; [|by right].
      left. split_and!; [done..|by right].
    + rewrite (initExercise_undefined _ _ Hw Hin). simpl. rewrite !lookup_insert_eq.
      destruct Hl as [->|?]; [|done]. split; [|by left]. right. left. exists 0.
      split_and!; [done..|]. by intros s ?%elem_of_nil.
  - rewrite (initExercise_own _ _ _ Hw), bool_decide_eq_true_2 by done. simpl.
    rewrite !lookup_insert_eq. split; [|by left]. right. left. by exists 0.
  - rewrite (initExercise_own _ _ _ Hw), bool_decide_eq_false_2.
    + rewrite Hw. split; [|by left]. right. right. by exists mx, mr.
    + intros ->. by apply Qclt_not_eq in Hpos.
Qed.

Lemma processSet_maximaOf d st s i l :
  started name st → maximaOf name st l →
  maximaOf name (processSet d name st s i) (l ++ [s])
  ∧ started name (processSet d name st s i).
Proof.
  unfold started.
  intros [mx0 Hsome] [(Hw & _)|[(mr & Hw & Hr & Hl)|(mx & mr & Hw & Hr & Hpos & Hmw & Hmr)]].
  { congruence. }
  - unfold processSet, maximaOf. rewrite (read_Some _ _ _ Hw), (read_Some _ _ _ Hr). simpl.
    destruct (decide (0 < TrainingSet.weight s)%Qc) as [Hgt|Hngt].
    + rewrite bool_decide_eq_true_2 by done. simpl. rewrite !lookup_insert_eq.
      split; [|done]. right. right. exists (TrainingSet.weight s), (TrainingSet.reps s).
      split_and!; [done..| |].
      * split; [exists s; split; [in_snoc|done]|].
        intros s' [Hin| ->%list_elem_of_singleton]%elem_of_app; [|apply Qcle_refl].
        apply Qclt_le_weak. eapply Qcle_lt_trans; [by apply Hl|done].
      * split; [exists s; split_and!; [in_snoc|done..]|].
        intros s' [Hin| ->%list_elem_of_singleton]%elem_of_app Heq; [|lia].
        apply Hl in Hin. rewrite Heq in Hin. by apply Qcle_not_lt in Hin.
    + rewrite bool_decide_eq_false_2 by done.
      assert (∀ s', s' ∈ (l ++ [s])%list → (TrainingSet.weight s' ≤ 0)%Qc) as Hl'.
      { intros s' [Hin| ->%list_elem_of_singleton]%elem_of_app; [by apply Hl|].
        by apply Qcnot_lt_le. }
      repeat case_bool_decide; simpl; rewrite ?lookup_insert_eq, Hw, ?Hr;
        (split; [|done]); right; left; by eexists.
  - unfold processSet, maximaOf. rewrite (read_Some _ _ _ Hw), (read_Some _ _ _ Hr). simpl.
    destruct Hmw as [Hmw1 Hmw2], Hmr as [Hmr1 Hmr2].
    destruct (decide (mx < TrainingSet.weight s)%Qc) as [Hgt|Hngt].
    + rewrite bool_decide_eq_true_2 by done. simpl. rewrite !lookup_insert_eq.
      split; [|done]. right. right. exists (TrainingSet.weight s), (TrainingSet.reps s).
      split_and!; [done..|by eapply Qclt_trans| |].
      * split; [exists s; split; [in_snoc|done]|].
        intros s' [Hin| ->%list_elem_of_singleton]%elem_of_app; [|apply Qcle_refl].
        apply Qclt_le_weak. eapply Qcle_lt_trans; [by apply Hmw2|done].
      * split; [exists s; split_and!; [in_snoc|done..]|].
        intros s' [Hin| ->%list_elem_of_singleton]%elem_of_app Heq; [|lia].
        apply Hmw2 in Hin. rewrite Heq in Hin. by apply Qcle_not_lt in Hin.
    + rewrite bool_decide_eq_false_2 by done. apply Qcnot_lt_le in Hngt.
      destruct (decide (TrainingSet.weight s = mx)) as [Heq|Hne].
      * rewrite (bool_decide_eq_true_2 _ Heq). simpl.
        destruct (decide (mr < TrainingSet.reps s)) as [Hr'|Hr'].
        -- rewrite bool_decide_eq_true_2 by done. simpl. rewrite lookup_insert_eq, Hw.
           split; [|done]. right. right. exists mx, (TrainingSet.reps s).
           split_and!; [done..| |].
           ++ split; [destruct Hmw1 as (s0 & ? & ?); exists s0; split; [in_snoc|done]|].
              intros s' [Hin| ->%list_elem_of_singleton]%elem_of_app; [by apply Hmw2|done].
           ++ split; [exists s; split_and!; [in_snoc|done..]|].
              intros s' [Hin| ->%list_elem_of_singleton]%elem_of_app Hs'; [|lia].
              specialize (Hmr2 _ Hin Hs'). lia.
        -- rewrite bool_decide_eq_false_2 by done. simpl. rewrite Hw, Hr.
           split; [|done]. right. right. exists mx, mr. split_and!; [done..| |].
           ++ split; [destruct Hmw1 as (s0 & ? & ?); exists s0; split; [in_snoc|done]|].
              intros s' [Hin| ->%list_elem_of_singleton]%elem_of_app; [by apply Hmw2|done].
           ++ split; [destruct Hmr1 as (s0 & ? & ?); exists s0; split; [in_snoc|done]|].
              intros s' [Hin| ->%list_elem_of_singleton]%elem_of_app Hs'; [by apply Hmr2|lia].
      * rewrite (bool_decide_eq_false_2 _ Hne). simpl. rewrite Hw, Hr.
        split; [|done]. right. right. exists mx, mr. split_and!; [done..| |].
        -- split; [destruct Hmw1 as (s0 & ? & ?); exists s0; split; [in_snoc|done]|].
           intros s' [Hin| ->%list_elem_of_singleton]%elem_of_app; [by apply Hmw2|done].
        -- split; [destruct Hmr1 as (s0 & ? & ?); exists s0; split; [in_snoc|done]|].
           intros s' [Hin| ->%list_elem_of_singleton]%elem_of_app Hs'; [by apply Hmr2|done].
Qed.

Lemma sets_maximaOf d st (l : list TrainingSet.t) i sets :
  started name st → maximaOf name st l →
  maximaOf name (Js.forEachFrom (processSet d name) i sets st) (l ++ sets)
  ∧ started name (Js.forEachFrom (processSet d name) i sets st).
Proof.
  revert st l i. induction sets as [|s sets IH]; intros st l i Hst Hmax; simpl.
  - by rewrite app_nil_r.
  - destruct (processSet_maximaOf d st s i l Hst Hmax) as [Hmax' Hst'].
    destruct (IH _ _ (S i) Hst' Hmax') as [? ?]. by rewrite <- app_assoc in *.
Qed.

Lemma sets_not_own d st i sets :
  maxWeightByExercise st !! name = None →
  Js.forEachFrom (processSet d name) i sets st = st.
Proof.
  intros Hnone. revert i. induction sets as [|s sets IH]; intros i; simpl; [done|].
  rewrite processSet_not_own by done. apply IH.
Qed.

Lemma sets_other d n st i sets :
  n ≠ name →
  maxWeightByExercise (Js.forEachFrom (processSet d n) i sets st) !! name
    = maxWeightByExercise st !! name
  ∧ maxRepsAtMaxWeight (Js.forEachFrom (processSet d n) i sets st) !! name
    = maxRepsAtMaxWeight st !! name.
Proof.
  intros Hne. revert st i. induction sets as [|s sets IH]; intros st i; simpl; [done|].
  destruct (IH (processSet d n st s i) (S i)) as [-> ->]. by apply processSet_other.
Qed.

Lemma processExercise_maximaOf d st ex i l :
  maximaOf name st l →
  maximaOf name (processExercise d st ex i) (l ++ setsOfExercise name ex).
Proof.
  intros Hmax. unfold processExercise, setsOfExercise, Js.forEachOpt, Js.forEach.
  case_decide as Hn.
  - rewrite Hn. destruct (initExercise_maximaOf st l Hmax) as [Hmax' [Hst'|[Hnone Hin]]].
    + destruct (TrainingRecordExercise.sets ex) as [sets|]; simpl.
      * by apply sets_maximaOf.
      * by rewrite app_nil_r.
    + assert (maximaOf name (initExercise name st) (l ++ optList (TrainingRecordExercise.sets ex)))
        as Hmax''.
      { destruct Hmax' as [(Hw & Hr & _)|[(? & Hw & _)|(? & ? & Hw & _)]]; [|congruence..].
        left. split_and!; [done..|by right]. }
      destruct (TrainingRecordExercise.sets ex) as [sets|]; simpl in *; [|done].
      by rewrite sets_not_own.
  - rewrite app_nil_r.
    destruct (initExercise_other (TrainingRecordExercise.name ex) st Hn) as [Hw Hr].
    destruct (TrainingRecordExercise.sets ex) as [sets|]; simpl.
    + destruct (sets_other d _ (initExercise (TrainingRecordExercise.name ex) st) 0 sets Hn)
        as [Hw' Hr'].
      eapply maximaOf_ext; [| |exact Hmax]; congruence.
    + by eapply maximaOf_ext.
Qed.

Lemma processRecord_maximaOf st r i l :
  maximaOf name st l →
  maximaOf name (processRecord st r i)
    (l ++ (optList (TrainingRecord.exercises r) ≫= setsOfExercise name)).
Proof.
  unfold processRecord, Js.forEachOpt, Js.forEach.
  destruct (TrainingRecord.exercises r) as [exs|]; simpl; [|by rewrite app_nil_r].
  generalize 0%nat. revert st l.
  induction exs as [|ex exs IH]; intros st l k Hmax; simpl; [by rewrite app_nil_r|].
  rewrite app_assoc. by apply IH, processExercise_maximaOf.
Qed.

Lemma records_maximaOf records st k l :
  maximaOf name st l →
  maximaOf name (Js.forEachFrom processRecord k records st) (l ++ setsOf name records).
Proof.
  unfold setsOf. revert st k l.
  induction records as [|r records IH]; intros st k l Hmax; simpl.
  - by rewrite app_nil_r.
  - rewrite app_assoc. by apply IH, processRecord_maximaOf.
Qed.

Lemma replay_maximaOf records : maximaOf name (replay records) (setsOf name records).
Proof.
  apply (records_maximaOf records initialState 0 []).
  left. unfold initialState. simpl. rewrite !lookup_empty. split_and!; [done..|by left].
Qed.

End Maxima.

Lemma setsOf_sortByDate (E : Engine.t) name records :
  setsOf name (sortByDate E records) ≡ₚ setsOf name records.
Proof. unfold setsOf. by rewrite sortByDate_Permutation. Qed.

(** Where an exercise name that is not the name of an inherited member has a
    set of weight above zero, the returned maxima are the greatest weight
    among all its sets and the most repetitions among its sets of that
    weight. *)
Lemma calculatePRs_maxima_positive (E : Engine.t) records name w :
  name ∉ Js.objectPrototype →
  isMaxWeight w (setsOf name records) → (0 < w)%Qc →
  maxWeightByExercise (calculatePRs E records) !! name = Some w
  ∧ ∃ r, maxRepsAtMaxWeight (calculatePRs E records) !! name = Some r
         ∧ isMaxRepsAt w r (setsOf name records).
Proof.
  intros Hname [(s & Hs & Hsw) Hle] Hpos. unfold calculatePRs. simpl.
  pose proof (setsOf_sortByDate E name records) as Hperm.
  destruct (replay_maximaOf name (sortByDate E records))
    as [(_ & _ & [Hnil|?])|[(mr & _ & _ & Hl)|(mx & mr & Hw & Hr & _ & Hmw & Hmr)]]; [|done|..].
  - rewrite Hnil in Hperm. apply Permutation_nil in Hperm. rewrite Hperm in Hs.
    by apply elem_of_nil in Hs.
  - rewrite <- Hperm in Hs. apply Hl in Hs. rewrite Hsw in Hs. by apply Qcle_not_lt in Hs.
  - assert (mx = w) as ->.
    { destruct Hmw as [(s' & Hs' & Hsw') Hle']. apply Qcle_antisym.
      - rewrite <- Hsw'. apply Hle. by rewrite <- Hperm.
      - rewrite <- Hsw. apply Hle'. by rewrite Hperm. }
    split; [done|]. exists mr. split; [done|].
    destruct Hmr as [(s' & Hs' & ?) Hle']. split.
    + exists s'. by rewrite <- Hperm.
    + intros s0 Hs0. apply Hle'. by rewrite Hperm.
Qed.

(** C3, at weight 0: the sets of "Plank" have greatest weight 0 and, at
    that weight, at most 5 repetitions, reached in the first session; the
    maxima returned by [calculatePRs] give weight 0 and 3 repetitions. *)
Theorem calculatePRs_zero_weight_maxima (E : Engine.t) :
  isMaxWeight 0%Qc (setsOf "Plank" plankDecline)
  ∧ isMaxRepsAt 0%Qc 5 (setsOf "Plank" plankDecline)
  ∧ maxWeightByExercise (calculatePRs E plankDecline) !! "Plank" = Some 0%Qc
  ∧ maxRepsAtMaxWeight (calculatePRs E plankDecline) !! "Plank" = Some 3.
Proof.
  assert (setsOf "Plank" plankDecline = [mkSet (kg 0) 5; mkSet (kg 0) 3]) as -> by reflexivity.
  rewrite !(calculatePRs_reference E) by calendar_dates.
  split_and!; [| |reflexivity..].
  - split.
    + exists (mkSet (kg 0) 5). split; [by left|done].
    + intros s Hs. repeat (apply elem_of_cons in Hs as [->|Hs]); [done..|].
      by apply elem_of_nil in Hs.
  - split.
    + exists (mkSet (kg 0) 5). split; [by left|done].
    + intros s Hs _. repeat (apply elem_of_cons in Hs as [->|Hs]); simpl; [lia..|].
      by apply elem_of_nil in Hs.
Qed.

(** ** Runs on sample data *)

Example calendarTime_epoch : IsoDate.calendarTime "1970-01-01" = Some 0.
Proof. reflexivity. Qed.

Example calendarTime_leap_day : IsoDate.calendarTime "2024-02-29" = Some 1709164800000.
Proof. reflexivity. Qed.

Example calendarTime_no_such_day : IsoDate.calendarTime "2023-02-29" = None.
Proof. reflexivity. Qed.

Example getPRKey_bench : getPRKey "2024-01-01" "Bench Press" 12 = "2024-01-01_Bench Press_12".
Proof. reflexivity. Qed.

Example calculatePRs_single_set (E : Engine.t) :
  prData (calculatePRs E [benchRecord]) =
    {[ "2024-01-01_Bench Press_0" :=
         PRInfo.mk (Some true) (Some true) (Some true) (Some true)
           "2024-01-01" "Bench Press" (kg 100) 5 0 ]}.
Proof. rewrite (calculatePRs_reference E) by calendar_dates. reflexivity. Qed.

(** The input is given newest first; the replay is chronological. *)
Example calculatePRs_weight_increase (E : Engine.t) :
  prData (calculatePRs E squatRecords) !! "2024-01-01_Squat_0" =
    Some (PRInfo.mk (Some true) (Some true) None None "2024-01-01" "Squat" (kg 100) 5 0)
  ∧ prData (calculatePRs E squatRecords) !! "2024-01-08_Squat_0" =
      Some (PRInfo.mk (Some true) (Some true) (Some true) (Some true)
              "2024-01-08" "Squat" (kg 110) 5 0).
Proof. rewrite !(calculatePRs_reference E) by calendar_dates. split; reflexivity. Qed.

Example calculatePRs_more_reps (E : Engine.t) :
  prData (calculatePRs E benchRepRecords) !! "2024-01-01_Bench Press_0" =
    Some (PRInfo.mk (Some true) (Some true) (Some true) None
            "2024-01-01" "Bench Press" (kg 100) 5 0)
  ∧ prData (calculatePRs E benchRepRecords) !! "2024-01-08_Bench Press_0" =
      Some (PRInfo.mk None (Some true) None (Some true)
              "2024-01-08" "Bench Press" (kg 100) 8 0)
  ∧ dateHasPR (prData (calculatePRs E benchRepRecords)) "2024-01-08" = true
  ∧ dateHasPR (prData (calculatePRs E benchRepRecords)) "2024-01-0" = false.
Proof. rewrite !(calculatePRs_reference E) by calendar_dates. split_and!; reflexivity. Qed.

(** An exercise called [constructor] leaves no trace: the maxima inherit a
    member of that name, which is truthy and compares as [NaN]. *)
Example calculatePRs_inherited_name (E : Engine.t) :
  calculatePRs E [mkRecord "2024-01-01" [mkExercise "constructor" [mkSet (kg 100) 5]]]
    = PRCalculationResult.mk ∅ ∅ ∅.
Proof. rewrite (calculatePRs_reference E) by calendar_dates. reflexivity. Qed.

(** * Further properties of the PR calculation *)

(** ** Where the events of the replay come from *)

Lemma elem_of_exerciseEvents date ex ev :
  ev ∈ exerciseEvents date ex ↔
    ev = InitExercise (TrainingRecordExercise.name ex)
    ∨ ∃ p, p ∈ exerciseSets ex ∧ ev = ProcessSet date p.1.1 p.1.2 p.2.
Proof.
  unfold exerciseEvents. rewrite elem_of_cons, list_elem_of_fmap. split.
  - intros [->|(p & -> & Hp)]; [by left|right; eauto].
  - intros [->|(p & Hp & ->)]; [by left|right; eauto].
Qed.

Lemma elem_of_events_set records d n i s :
  ProcessSet d n i s ∈ events records ↔
    ∃ r, r ∈ records ∧ d = TrainingRecord.date r ∧ (n, i, s) ∈ recordSets r.
Proof.
  unfold events, recordEvents, recordSets. rewrite list_elem_of_bind. split.
  - intros (r & Hev & Hr). exists r. split; [done|].
    apply list_elem_of_bind in Hev as (ex & Hev & Hex).
    apply elem_of_exerciseEvents in Hev as [[=]|([[n' i'] s'] & Hp & [= -> -> -> ->])].
    split; [done|]. apply list_elem_of_bind. eauto.
  - intros (r & Hr & -> & Hp). exists r. split; [|done].
    apply list_elem_of_bind in Hp as (ex & Hp & Hex). apply list_elem_of_bind.
    exists ex. split; [|done]. apply elem_of_exerciseEvents. right. by exists (n, i, s).
Qed.

Lemma elem_of_events_init records n :
  InitExercise n ∈ events records ↔
    ∃ r ex, r ∈ records ∧ ex ∈ optList (TrainingRecord.exercises r)
            ∧ TrainingRecordExercise.name ex = n.
Proof.
  unfold events, recordEvents. rewrite list_elem_of_bind. split.
  - intros (r & Hev & Hr). apply list_elem_of_bind in Hev as (ex & Hev & Hex).
    apply elem_of_exerciseEvents in Hev as [[= ->]|(p & _ & [=])]. eauto.
  - intros (r & ex & Hr & Hex & <-). exists r. split; [|done].
    apply list_elem_of_bind. exists ex. split; [|done]. apply elem_of_exerciseEvents. by left.
Qed.

Lemma exerciseSets_name ex n i s :
  (n, i, s) ∈ exerciseSets ex → n = TrainingRecordExercise.name ex.
Proof.
  unfold exerciseSets. intros ([i' s'] & [= -> -> ->] & _)%list_elem_of_fmap. done.
Qed.

Lemma events_Permutation l1 l2 : l1 ≡ₚ l2 → events l1 ≡ₚ events l2.
Proof. intros H. unfold events. by rewrite H. Qed.

(** Whatever holds initially and is kept by the events that occur holds
    after the replay. *)
Lemma replay_invariant_in (P : PRCalculationResult.t → Prop) records :
  P initialState →
  (∀ st ev, ev ∈ events records → P st → P (step st ev)) →
  P (replay records).
Proof.
  intros H0 Hstep. rewrite replay_events. revert H0 Hstep.
  generalize (events records), initialState.
  induction l as [|ev evs IH]; intros st Hst Hstep; simpl; [done|].
  apply IH.
  - apply Hstep; [by left|done].
  - intros st' ev' Hin. apply Hstep. by right.
Qed.

(** The same for a prefix of the events and what follows it. *)
Lemma foldl_step_invariant (P : PRCalculationResult.t → Prop) evs st :
  P st → (∀ st ev, P st → P (step st ev)) → P (foldl step st evs).
Proof.
  intros Hst Hstep. revert st Hst.
  induction evs as [|ev evs IH]; intros st Hst; simpl; [done|]. by apply IH, Hstep.
Qed.

(** ** Entries and the sets they come from *)

Lemma markCurrent_fields mw mr pr :
  PRInfo.date (markCurrent mw mr pr) = PRInfo.date pr
  ∧ PRInfo.setIndex (markCurrent mw mr pr) = PRInfo.setIndex pr.
Proof. unfold markCurrent. by repeat case_match. Qed.

Lemma replay_entryOf records key pr :
  prData (replay records) !! key = Some pr → entryOf records key pr.
Proof.
  revert key pr.
  apply (replay_invariant_in
           (λ st, ∀ key pr, prData st !! key = Some pr → entryOf records key pr)).
  - intros key pr. unfold initialState. simpl. by rewrite lookup_empty.
  - intros st ev Hev IH key pr. destruct ev as [n|d n i s]; simpl.
    + unfold initExercise. destruct (Js.falsy _); apply IH.
    + apply elem_of_events_set in Hev as (r & Hr & -> & Hp).
      destruct (processSet_prData (TrainingRecord.date r) n st s i)
        as [->|[[_ ->]|[_ ->]]]; [apply IH|..];
        (rewrite lookup_insert; case_decide as Hk; [|apply IH]); intros [= <-];
        (split; [done|]); exists r, s; simpl; done.
Qed.

(** X1: every entry of the map returned by [calculatePRs] is stored under
    the key of its own date, exercise name and set index, and copies the
    weight and repetitions of the set at that index of an exercise of that
    name in a record of that date. *)
Theorem calculatePRs_entry_provenance (E : Engine.t) (records : list TrainingRecord.t)
    (key : string)
    (pr : PRInfo.t) :
  prData (calculatePRs E records) !! key = Some pr →
  key = getPRKey (PRInfo.date pr) (PRInfo.exercise pr) (PRInfo.setIndex pr)
  ∧ ∃ r s, r ∈ records
           ∧ TrainingRecord.date r = PRInfo.date pr
           ∧ (PRInfo.exercise pr, PRInfo.setIndex pr, s) ∈ recordSets r
           ∧ TrainingSet.weight s = PRInfo.weight pr
           ∧ TrainingSet.reps s = PRInfo.reps pr.
Proof.
  unfold calculatePRs. simpl. rewrite lookup_fmap.
  destruct (prData (replay (sortByDate E records)) !! key) as [pr0|] eqn:Hpr0; [|done].
  intros [= <-]. apply replay_entryOf in Hpr0 as (Hkey & r & s & Hr & Hrest).
  set (mw := maxWeightByExercise (replay (sortByDate E records))).
  set (mr := maxRepsAtMaxWeight (replay (sortByDate E records))).
  destruct (markCurrent_flags mw mr pr0) as (_ & _ & -> & -> & ->).
  destruct (markCurrent_fields mw mr pr0) as (-> & ->).
  split; [done|]. exists r, s. split; [|done]. by rewrite sortByDate_Permutation in Hr.
Qed.

Lemma calculatePRs_entry_provenance_witness :
  let pr := PRInfo.mk None (Some true) None (Some true) "2024-01-08" "Bench Press"
              (kg 100) 8 0 in
  "2024-01-08_Bench Press_0"
    = getPRKey (PRInfo.date pr) (PRInfo.exercise pr) (PRInfo.setIndex pr)
  ∧ ∃ r s, r ∈ benchRepRecords
           ∧ TrainingRecord.date r = PRInfo.date pr
           ∧ (PRInfo.exercise pr, PRInfo.setIndex pr, s) ∈ recordSets r
           ∧ TrainingSet.weight s = PRInfo.weight pr
           ∧ TrainingSet.reps s = PRInfo.reps pr.
Proof.
  apply (calculatePRs_entry_provenance referenceEngine benchRepRecords "2024-01-08_Bench Press_0").
  reflexivity.
Defined.

(** ** The running maximum weight *)

Lemma step_maxWeight_grows st ev name a :
  maxWeightByExercise st !! name = Some a →
  ∃ b, maxWeightByExercise (step st ev) !! name = Some b ∧ (a ≤ b)%Qc.
Proof.
  intros Ha. destruct ev as [n|d n i s]; simpl.
  - unfold initExercise. destruct (decide (n = name)) as [->|Hne].
    + rewrite (read_Some _ _ _ Ha). simpl. case_bool_decide as H0.
      * simpl. rewrite lookup_insert_eq. exists 0%Qc. split; [done|]. rewrite H0.
        apply Qcle_refl.
      * exists a. split; [done|apply Qcle_refl].
    + destruct (Js.falsy _); simpl; rewrite ?lookup_insert_ne by done;
        exists a; (split; [done|apply Qcle_refl]).
  - unfold processSet. destruct (decide (n = name)) as [->|Hne].
    + rewrite (read_Some _ _ _ Ha). simpl. case_bool_decide as Hgt; simpl.
      * rewrite lookup_insert_eq. eexists. split; [done|]. by apply Qclt_le_weak.
      * destruct (_ && _); simpl; exists a; (split; [done|apply Qcle_refl]).
    + repeat case_match; simpl; rewrite ?lookup_insert_ne by done;
        exists a; (split; [done|apply Qcle_refl]).
Qed.

(** X2: along the replay the maximum weight recorded for an exercise name
    never goes down: a value it has after any prefix of the events is at
    most the value [calculatePRs] returns for that name. *)
Theorem calculatePRs_max_weight_never_decreases (E : Engine.t) (records : list TrainingRecord.t)
    (pre post : list Event) (name : string) (a : Qc) :
  events (sortByDate E records) = (pre ++ post)%list →
  maxWeightByExercise (foldl step initialState pre) !! name = Some a →
  ∃ b, maxWeightByExercise (calculatePRs E records) !! name = Some b ∧ (a ≤ b)%Qc.
Proof.
  intros Hev Ha. unfold calculatePRs. simpl. rewrite replay_events, Hev, foldl_app.
  clear Hev. revert Ha. generalize (foldl step initialState pre). revert a.
  induction post as [|ev post IH]; intros a st Ha; simpl.
  - exists a. split; [done|apply Qcle_refl].
  - destruct (step_maxWeight_grows st ev name a Ha) as (b & Hb & Hab).
    destruct (IH b _ Hb) as (c & Hc & Hbc). exists c. split; [done|].
    by eapply Qcle_trans.
Qed.

Lemma calculatePRs_max_weight_never_decreases_witness :
  ∃ b, maxWeightByExercise (calculatePRs referenceEngine squatRecords) !! "Squat" = Some b
       ∧ (kg 100 ≤ b)%Qc.
Proof.
  apply (calculatePRs_max_weight_never_decreases referenceEngine squatRecords
           [InitExercise "Squat"; ProcessSet "2024-01-01" "Squat" 0 (mkSet (kg 100) 5)]
           [InitExercise "Squat"; ProcessSet "2024-01-08" "Squat" 0 (mkSet (kg 110) 5)]).
  - reflexivity.
  - reflexivity.
Defined.

(** ** A new maximum weight *)

Lemma foldl_step_maxWeight_grows evs st name a :
  maxWeightByExercise st !! name = Some a →
  ∃ b, maxWeightByExercise (foldl step st evs) !! name = Some b ∧ (a ≤ b)%Qc.
Proof.
  revert a st. induction evs as [|ev evs IH]; intros a st Ha; simpl.
  - exists a. split; [done|apply Qcle_refl].
  - destruct (step_maxWeight_grows st ev name a Ha) as (b & Hb & Hab).
    destruct (IH b _ Hb) as (c & Hc & Hbc). exists c. split; [done|].
    by eapply Qcle_trans.
Qed.

(** An event writes to no key but its own. *)
Lemma step_prData_other st ev k :
  eventKey ev ≠ Some k → prData (step st ev) !! k = prData st !! k.
Proof.
  intros Hne. destruct ev as [n|d n i s]; simpl.
  - unfold initExercise. by destruct (Js.falsy _).
  - simpl in Hne.
    destruct (processSet_prData d n st s i) as [->|[[_ ->]|[_ ->]]]; [done|..];
      rewrite lookup_insert_ne; congruence.
Qed.

Lemma foldl_step_prData_other evs st k :
  k ∉ omap eventKey evs → prData (foldl step st evs) !! k = prData st !! k.
Proof.
  revert st. induction evs as [|ev evs IH]; intros st Hk; [done|].
  cbn [foldl]. rewrite IH, step_prData_other; [done|..].
  - intros Hev. apply Hk. cbn [omap list_omap]. rewrite Hev. left.
  - intros Hin. apply Hk. cbn [omap list_omap]. destruct (eventKey ev); [by right|done].
Qed.

(** A key that holds an entry holds one ever after. *)
Lemma foldl_step_prData_present evs st k :
  is_Some (prData st !! k) → is_Some (prData (foldl step st evs) !! k).
Proof.
  revert st. induction evs as [|ev evs IH]; intros st Hk; [done|].
  cbn [foldl]. apply IH. destruct ev as [n|d n i s]; simpl.
  - unfold initExercise. by destruct (Js.falsy _).
  - destruct (processSet_prData d n st s i) as [->|[[_ ->]|[_ ->]]]; [done|..];
      (rewrite lookup_insert; by case_decide).
Qed.

(** C4: take any set of the replay of [calculatePRs] whose weight is
    strictly greater than the running maximum weight of its exercise name.
    Right after the set the maximum weight of the name is the set's weight,
    the repetitions at maximum weight are the set's repetitions whatever
    they were before, and the key of (record date, exercise name, set index)
    holds an entry with maxWeightPR and repPR both true and the set's weight
    and repetitions.  The rest of the replay starts from there: the maximum
    weight that [calculatePRs] returns for the name is at least the set's
    weight, the map that [calculatePRs] returns has an entry at the key, and
    unless a later set has the same key this is that entry, with
    maxWeightPR and repPR true and the current flags set from the final
    maxima. *)
Theorem calculatePRs_new_max_weight_step (E : Engine.t)
    (records : list TrainingRecord.t) (pre post : list Event)
    (date name : string) (i : nat) (set : TrainingSet.t) (mx : Qc) :
  events (sortByDate E records) = (pre ++ ProcessSet date name i set :: post)%list →
  maxWeightByExercise (foldl step initialState pre) !! name = Some mx →
  (mx < TrainingSet.weight set)%Qc →
  let key := getPRKey date name i in
  let entry := PRInfo.mk (Some true) (Some true) None None date name
                 (TrainingSet.weight set) (TrainingSet.reps set) i in
  let st' := foldl step initialState (pre ++ [ProcessSet date name i set]) in
  let result := calculatePRs E records in
  maxWeightByExercise st' !! name = Some (TrainingSet.weight set)
  ∧ maxRepsAtMaxWeight st' !! name = Some (TrainingSet.reps set)
  ∧ prData st' !! key = Some entry
  ∧ replay (sortByDate E records) = foldl step st' post
  ∧ (∃ b, maxWeightByExercise result !! name = Some b ∧ (TrainingSet.weight set ≤ b)%Qc)
  ∧ is_Some (prData result !! key)
  ∧ (key ∉ omap eventKey post →
       ∃ pr, prData result !! key = Some pr
             ∧ pr = markCurrent (maxWeightByExercise result) (maxRepsAtMaxWeight result) entry
             ∧ PRInfo.maxWeightPR pr = Some true ∧ PRInfo.repPR pr = Some true
             ∧ PRInfo.weight pr = TrainingSet.weight set
             ∧ PRInfo.reps pr = TrainingSet.reps set).
Proof.
  intros Hev Hmx Hlt key entry st' result.
  assert (maxWeightByExercise st' !! name = Some (TrainingSet.weight set)
          ∧ maxRepsAtMaxWeight st' !! name = Some (TrainingSet.reps set)
          ∧ prData st' !! key = Some entry) as (Hw & Hr & Hentry).
  { subst st'. rewrite foldl_app. simpl.
    rewrite (processSet_new_max _ _ _ _ _ mx Hmx Hlt). simpl.
    by rewrite !lookup_insert_eq. }
  assert (replay (sortByDate E records) = foldl step st' post) as Hreplay.
  { rewrite replay_events, Hev. subst st'. by rewrite !foldl_app. }
  split_and!; [done..| | |].
  - subst result. unfold calculatePRs. simpl. rewrite Hreplay.
    by apply foldl_step_maxWeight_grows.
  - subst result. unfold calculatePRs. simpl. rewrite lookup_fmap, Hreplay.
    apply fmap_is_Some, foldl_step_prData_present. by rewrite Hentry.
  - intros Hkey.
    exists (markCurrent (maxWeightByExercise result) (maxRepsAtMaxWeight result) entry).
    destruct (markCurrent_flags (maxWeightByExercise result) (maxRepsAtMaxWeight result) entry)
      as (Hf1 & Hf2 & _ & Hf3 & Hf4).
    split_and!; [|done..].
    subst result. unfold calculatePRs. simpl. rewrite lookup_fmap.
    by rewrite Hreplay, foldl_step_prData_other, Hentry.
Qed.

Lemma calculatePRs_new_max_weight_step_witness :
  let key := "2024-01-01_Bench Press_0" in
  let entry := PRInfo.mk (Some true) (Some true) None None "2024-01-01" "Bench Press"
                 (kg 100) 5 0 in
  let st' := foldl step initialState
               [InitExercise "Bench Press";
                ProcessSet "2024-01-01" "Bench Press" 0 (mkSet (kg 100) 5)] in
  let result := calculatePRs referenceEngine [benchRecord] in
  maxWeightByExercise st' !! "Bench Press" = Some (kg 100)
  ∧ maxRepsAtMaxWeight st' !! "Bench Press" = Some 5
  ∧ prData st' !! key = Some entry
  ∧ replay (sortByDate referenceEngine [benchRecord]) = foldl step st' []
  ∧ (∃ b, maxWeightByExercise result !! "Bench Press" = Some b ∧ (kg 100 ≤ b)%Qc)
  ∧ is_Some (prData result !! key)
  ∧ ∃ pr, prData result !! key = Some pr
          ∧ pr = markCurrent (maxWeightByExercise result) (maxRepsAtMaxWeight result) entry
          ∧ PRInfo.maxWeightPR pr = Some true ∧ PRInfo.repPR pr = Some true
          ∧ PRInfo.weight pr = kg 100 ∧ PRInfo.reps pr = 5.
Proof.
  destruct (calculatePRs_new_max_weight_step referenceEngine [benchRecord]
              [InitExercise "Bench Press"] [] "2024-01-01" "Bench Press" 0
              (mkSet (kg 100) 5) 0%Qc) as (H1 & H2 & H3 & H4 & H5 & H6 & H7);
    [reflexivity..|].
  split_and!; [done..|]. apply H7. apply not_elem_of_nil.
Defined.

(** ** Bounds on the stored weights *)

Lemma step_weightsBounded st ev : weightsBounded st → weightsBounded (step st ev).
Proof.
  intros [Hmax Hent]. destruct ev as [n|d n i s]; simpl.
  - destruct (maxWeightByExercise st !! n) as [q|] eqn:Hq.
    + rewrite (initExercise_own _ _ _ Hq).
      case_bool_decide as H0; [|by split]. subst q. split; simpl.
      * intros n' mx. rewrite lookup_insert. case_decide; [|apply Hmax].
        intros [= <-]. apply Qcle_refl.
      * intros key pr Hpr. destruct (Hent key pr Hpr) as (mx & Hmx & H1 & H2).
        rewrite lookup_insert. case_decide as Hn; [|by exists mx].
        exists 0%Qc. split; [done|]. rewrite <- Hn, Hq in Hmx. by injection Hmx as <-.
    + destruct (decide (n ∈ Js.objectPrototype)) as [Hin|Hin].
      { rewrite initExercise_inherited by done. by split. }
      rewrite initExercise_undefined by done. split; simpl.
      * intros n' mx. rewrite lookup_insert. case_decide; [|apply Hmax].
        intros [= <-]. apply Qcle_refl.
      * intros key pr Hpr. destruct (Hent key pr Hpr) as (mx & Hmx & H1 & H2).
        rewrite lookup_insert_ne; [by exists mx|]. intros ->. congruence.
  - destruct (maxWeightByExercise st !! n) as [q|] eqn:Hq;
      [|rewrite processSet_not_own by done; by split].
    unfold processSet. rewrite (read_Some _ _ _ Hq). simpl.
    pose proof (Hmax _ _ Hq) as Hq0.
    case_bool_decide as Hgt; simpl.
    + assert (0 ≤ TrainingSet.weight s)%Qc as Hw0.
      { apply Qclt_le_weak. by eapply Qcle_lt_trans. }
      split; simpl.
      * intros n' mx. rewrite lookup_insert. case_decide; [|apply Hmax]. by intros [= <-].
      * intros key pr. rewrite lookup_insert. case_decide.
        -- intros [= <-]. simpl. rewrite lookup_insert_eq. eexists. split; [done|].
           split; [done|apply Qcle_refl].
        -- intros Hpr. destruct (Hent key pr Hpr) as (mx & Hmx & H1 & H2).
           rewrite lookup_insert. case_decide as Hn; [|by exists mx].
           eexists. split; [done|]. split; [done|].
           rewrite <- Hn, Hq in Hmx. injection Hmx as <-.
           apply Qclt_le_weak. by eapply Qcle_lt_trans.
    + case_bool_decide as Heq; simpl; [|by split].
      destruct (Js.gtZ _ _); [|by split]. split; simpl; [done|].
      intros key pr. rewrite lookup_insert. case_decide; [|apply Hent].
      intros [= <-]. simpl. exists q. rewrite Heq. split; [done|]. split; [done|apply Qcle_refl].
Qed.

Lemma markCurrent_weight_bound mw mr (m : PRData) key pr :
  (markCurrent mw mr <$> m) !! key = Some pr →
  ∃ pr0, m !! key = Some pr0 ∧ PRInfo.exercise pr = PRInfo.exercise pr0
         ∧ PRInfo.weight pr = PRInfo.weight pr0.
Proof.
  rewrite lookup_fmap. destruct (m !! key) as [pr0|]; [|done]. intros [= <-].
  exists pr0. destruct (markCurrent_flags mw mr pr0) as (_ & _ & -> & -> & _). done.
Qed.

(** X3: in the result of [calculatePRs] no maximum weight is negative, and
    the weight of every entry lies between zero and the maximum weight
    returned for its exercise name. *)
Theorem calculatePRs_weights_bounded (E : Engine.t) (records : list TrainingRecord.t) :
  (∀ name mx, maxWeightByExercise (calculatePRs E records) !! name = Some mx → (0 ≤ mx)%Qc)
  ∧ (∀ key pr, prData (calculatePRs E records) !! key = Some pr →
       ∃ mx, maxWeightByExercise (calculatePRs E records) !! PRInfo.exercise pr = Some mx
             ∧ (0 ≤ PRInfo.weight pr)%Qc ∧ (PRInfo.weight pr ≤ mx)%Qc).
Proof.
  assert (weightsBounded (replay (sortByDate E records))) as [Hmax Hent].
  { apply replay_invariant; [|apply step_weightsBounded].
    split; intros ? ?; unfold initialState; simpl; by rewrite lookup_empty. }
  unfold calculatePRs. simpl. split; [done|].
  intros key pr (pr0 & Hpr0 & -> & ->)%markCurrent_weight_bound. by apply (Hent key).
Qed.

Lemma calculatePRs_weights_bounded_witness :
  (0 ≤ kg 110)%Qc
  ∧ ∃ mx, maxWeightByExercise (calculatePRs referenceEngine squatRecords) !! "Squat" = Some mx
          ∧ (0 ≤ kg 100)%Qc ∧ (kg 100 ≤ mx)%Qc.
Proof.
  destruct (calculatePRs_weights_bounded referenceEngine squatRecords) as [H1 H2]. split.
  - apply (H1 "Squat"). reflexivity.
  - apply (H2 "2024-01-01_Squat_0"
             (PRInfo.mk (Some true) (Some true) None None "2024-01-01" "Squat" (kg 100) 5 0)).
    reflexivity.
Defined.

(** ** The names in the maxima *)

Lemma step_names st ev n :
  sameNames st →
  sameNames (step st ev)
  ∧ (is_Some (maxWeightByExercise (step st ev) !! n) ↔
       is_Some (maxWeightByExercise st !! n)
       ∨ (ev = InitExercise n ∧ n ∉ Js.objectPrototype)).
Proof.
  intros Hsame. destruct ev as [n'|d n' i s]; simpl.
  - destruct (maxWeightByExercise st !! n') as [q|] eqn:Hq.
    + rewrite (initExercise_own _ _ _ Hq). case_bool_decide; simpl.
      * split.
        -- intros m. simpl. rewrite !lookup_insert. case_decide; [done|apply Hsame].
        -- rewrite lookup_insert. case_decide as Hn; [subst|].
           ++ rewrite Hq. split; [by left|by eexists].
           ++ split; [by left|]. intros [?|[[= ->] _]]; done.
      * split; [done|]. split; [by left|]. intros [?|[[= ->] _]]; [done|by rewrite Hq].
    + destruct (decide (n' ∈ Js.objectPrototype)) as [Hin|Hin].
      { rewrite initExercise_inherited by done. split; [done|].
        split; [by left|]. by intros [?|[[= ->] ?]]. }
      rewrite initExercise_undefined by done. split.
      * intros m. simpl. rewrite !lookup_insert. case_decide; [done|apply Hsame].
      * simpl. rewrite lookup_insert. case_decide as Hn; [subst|].
        -- split; [by right|by eexists].
        -- split; [by left|]. intros [?|[[= ->] _]]; done.
  - assert (∀ m, is_Some (maxWeightByExercise (processSet d n' st s i) !! m)
                 ↔ is_Some (maxWeightByExercise st !! m)) as Hw.
    { intros m.
      destruct (maxWeightByExercise st !! n') as [q|] eqn:Hq;
        [|by rewrite processSet_not_own].
      unfold processSet. rewrite (read_Some _ _ _ Hq). simpl.
      destruct (bool_decide _); simpl; [|by destruct (_ && _)].
      rewrite lookup_insert. case_decide; [subst|done]. rewrite Hq. split; by eexists. }
    assert (∀ m, is_Some (maxRepsAtMaxWeight (processSet d n' st s i) !! m)
                 ↔ is_Some (maxRepsAtMaxWeight st !! m)) as Hr.
    { intros m.
      destruct (maxWeightByExercise st !! n') as [q|] eqn:Hq;
        [|by rewrite processSet_not_own].
      assert (is_Some (maxRepsAtMaxWeight st !! n')) as [z Hz] by (apply Hsame; by eexists).
      unfold processSet. rewrite (read_Some _ _ _ Hq). simpl.
      destruct (bool_decide _); simpl.
      - rewrite lookup_insert. case_decide; [subst|done]. rewrite Hz. split; by eexists.
      - destruct (_ && _); simpl; [|done].
        rewrite lookup_insert. case_decide; [subst|done]. rewrite Hz. split; by eexists. }
    split.
    + intros m. rewrite Hw, Hr. apply Hsame.
    + rewrite Hw. split; [by left|]. by intros [?|[[=] _]].
Qed.

Lemma foldl_step_names evs st n :
  sameNames st →
  sameNames (foldl step st evs)
  ∧ (is_Some (maxWeightByExercise (foldl step st evs) !! n) ↔
       is_Some (maxWeightByExercise st !! n)
       ∨ (InitExercise n ∈ evs ∧ n ∉ Js.objectPrototype)).
Proof.
  revert st. induction evs as [|ev evs IH]; intros st Hsame; simpl.
  - split; [done|]. split; [by left|]. by intros [?|[?%elem_of_nil _]].
  - destruct (step_names st ev n Hsame) as [Hsame' Hn].
    destruct (IH _ Hsame') as [Hsame'' Hn']. split; [done|].
    rewrite Hn', Hn, elem_of_cons. split.
    + intros [[? | [-> ?]] | [? ?]]; [by left|right; split; [by left|done]|].
      right. split; [by right|done].
    + intros [? | [[-> | ?] ?]]; [left; by left|left; by right|by right].
Qed.

(** X4: the two maxima returned by [calculatePRs] have the same names, and a
    name is among them exactly when some record has an exercise of that
    name, with or without sets, and the name is not that of a member
    inherited from [Object.prototype]; an exercise called [constructor] or
    [toString] never gets maxima. *)
Theorem calculatePRs_maxima_names (E : Engine.t) (records : list TrainingRecord.t) (name : string) :
  (is_Some (maxWeightByExercise (calculatePRs E records) !! name) ↔
     is_Some (maxRepsAtMaxWeight (calculatePRs E records) !! name))
  ∧ (is_Some (maxWeightByExercise (calculatePRs E records) !! name) ↔
       (∃ r ex, r ∈ records ∧ ex ∈ optList (TrainingRecord.exercises r)
                ∧ TrainingRecordExercise.name ex = name)
       ∧ name ∉ Js.objectPrototype).
Proof.
  unfold calculatePRs. simpl. rewrite replay_events.
  destruct (foldl_step_names (events (sortByDate E records)) initialState name) as [Hsame Hn].
  { intros n. unfold initialState. simpl. rewrite !lookup_empty. done. }
  split; [apply Hsame|]. rewrite Hn, elem_of_events_init.
  unfold initialState. simpl. rewrite lookup_empty. split.
  - intros [[? [=]]|[(r & ex & Hr & Hex) Hname]]. split; [|done]. exists r, ex.
    by rewrite sortByDate_Permutation in Hr.
  - intros [(r & ex & Hr & Hex) Hname]. right. split; [|done]. exists r, ex.
    by rewrite sortByDate_Permutation.
Qed.

(** ** Exercise names do not interfere *)

(** The sort sees the records only through their dates. *)
Lemma sortByDate_fmap (E : Engine.t) (f : TrainingRecord.t → TrainingRecord.t) l :
  (∀ r, TrainingRecord.date (f r) = TrainingRecord.date r) →
  sortByDate E (f <$> l) = f <$> sortByDate E l.
Proof.
  intros Hf. unfold sortByDate. apply Engine.sort_comparisons.
  intros x y _ _. unfold compareDates. by rewrite !Hf.
Qed.

Section Isolation.
Variable name : string.

Lemma initExercise_agree st st' :
  agreeOn name st st' → agreeOn name (initExercise name st) (initExercise name st').
Proof.
  intros [Hw Hr]. unfold agreeOn, initExercise, Js.read. rewrite Hw.
  destruct (Js.falsy _); simpl; [by rewrite !lookup_insert_eq|done].
Qed.

Lemma processSet_agree d st st' s i :
  agreeOn name st st' → agreeOn name (processSet d name st s i) (processSet d name st' s i).
Proof.
  intros [Hw Hr]. unfold agreeOn, processSet, Js.read. rewrite Hw, Hr.
  destruct (Js.gtQ _ _); simpl; [by rewrite ?lookup_insert_eq|].
  destruct (_ && _); simpl; by rewrite ?lookup_insert_eq.
Qed.

Lemma sets_agree d st st' i sets :
  agreeOn name st st' →
  agreeOn name (Js.forEachFrom (processSet d name) i sets st)
    (Js.forEachFrom (processSet d name) i sets st').
Proof.
  revert st st' i. induction sets as [|s sets IH]; intros st st' i H; simpl; [done|].
  by apply IH, processSet_agree.
Qed.

Lemma processExercise_agree d st st' ex i j :
  TrainingRecordExercise.name ex = name →
  agreeOn name st st' →
  agreeOn name (processExercise d st ex i) (processExercise d st' ex j).
Proof.
  intros Hn H. unfold processExercise, Js.forEachOpt, Js.forEach. rewrite Hn.
  destruct (TrainingRecordExercise.sets ex); [apply sets_agree|]; by apply initExercise_agree.
Qed.

Lemma processExercise_skip d st st' ex i :
  TrainingRecordExercise.name ex ≠ name →
  agreeOn name st st' → agreeOn name (processExercise d st ex i) st'.
Proof.
  intros Hn [Hw Hr]. unfold agreeOn, processExercise, Js.forEachOpt, Js.forEach.
  destruct (initExercise_other name _ st Hn) as [Hw' Hr'].
  destruct (TrainingRecordExercise.sets ex) as [sets|].
  - destruct (sets_other name d _ (initExercise (TrainingRecordExercise.name ex) st) 0 sets Hn)
      as [-> ->]. by rewrite Hw', Hr'.
  - by rewrite Hw', Hr'.
Qed.

Lemma exercises_agree d exs st st' i j :
  agreeOn name st st' →
  agreeOn name (Js.forEachFrom (processExercise d) i exs st)
    (Js.forEachFrom (processExercise d) j
       (List.filter (λ ex, bool_decide (TrainingRecordExercise.name ex = name)) exs) st').
Proof.
  revert st st' i j. induction exs as [|ex exs IH]; intros st st' i j H; simpl; [done|].
  case_bool_decide as Hn; simpl.
  - by apply IH, processExercise_agree.
  - by apply IH, processExercise_skip.
Qed.

Lemma processRecord_agree st st' r i j :
  agreeOn name st st' →
  agreeOn name (processRecord st r i) (processRecord st' (onlyExercise name r) j).
Proof.
  intros H. unfold processRecord, onlyExercise, Js.forEachOpt, Js.forEach. simpl.
  destruct (TrainingRecord.exercises r) as [exs|]; simpl; [|done]. by apply exercises_agree.
Qed.

Lemma records_agree records st st' i j :
  agreeOn name st st' →
  agreeOn name (Js.forEachFrom processRecord i records st)
    (Js.forEachFrom processRecord j (onlyExercise name <$> records) st').
Proof.
  revert st st' i j. induction records as [|r records IH]; intros st st' i j H; simpl; [done|].
  by apply IH, processRecord_agree.
Qed.

End Isolation.

(** X5: the maxima [calculatePRs] returns for an exercise name are those it
    returns when every exercise of another name is taken out of the
    records; exercises of other names have no influence on them. *)
Theorem calculatePRs_exercise_isolation (E : Engine.t) (records : list TrainingRecord.t)
    (name : string) :
  maxWeightByExercise (calculatePRs E records) !! name
    = maxWeightByExercise (calculatePRs E (onlyExercise name <$> records)) !! name
  ∧ maxRepsAtMaxWeight (calculatePRs E records) !! name
    = maxRepsAtMaxWeight (calculatePRs E (onlyExercise name <$> records)) !! name.
Proof.
  unfold calculatePRs. simpl. rewrite sortByDate_fmap by done.
  apply (records_agree name (sortByDate E records) initialState initialState 0 0). by split.
Qed.

(** * Further properties of the summary and of the date lookups *)

Lemma summarizeSet_hasNowPR prData date acc (p : string * nat * TrainingSet.t) :
  PRSummary.hasNowPR (summarizeSet prData date p.1.1 acc p.2 p.1.2) =
    PRSummary.hasNowPR acc || bool_decide (keyCurrent prData date p).
Proof.
  destruct p as [[n i] s]. unfold summarizeSet. cbn [fst snd].
  destruct (prData !! getPRKey date n i) as [pr|] eqn:Hpr; simpl.
  - destruct (Js.truthy (PRInfo.isCurrentMaxPR pr) || Js.truthy (PRInfo.isCurrentRepPR pr))
      eqn:Hcur.
    + rewrite bool_decide_eq_true_2; [by rewrite orb_true_r|].
      exists pr. split; [done|]. by rewrite <- !truthy_true, <- orb_true_iff.
    + rewrite bool_decide_eq_false_2; [by rewrite orb_false_r|].
      intros (pr' & Hpr' & Hc). unfold setKey in Hpr'. simpl in Hpr'.
      rewrite Hpr in Hpr'. injection Hpr' as <-.
      rewrite <- !truthy_true, <- orb_true_iff in Hc. congruence.
  - rewrite bool_decide_eq_false_2; [by rewrite orb_false_r|].
    intros (pr' & Hpr' & _). unfold setKey in Hpr'. simpl in Hpr'. congruence.
Qed.

Lemma summarize_fold_hasNowPR prData date l acc :
  PRSummary.hasNowPR
    (foldl (λ acc p, summarizeSet prData date p.1.1 acc p.2 p.1.2) acc l) =
  PRSummary.hasNowPR acc || bool_decide (Exists (keyCurrent prData date) l).
Proof.
  revert acc. induction l as [|p l IH]; intros acc.
  - by rewrite orb_false_r.
  - cbn [foldl]. rewrite IH, summarizeSet_hasNowPR, <- orb_assoc. f_equal.
    apply eq_bool_prop_intro. rewrite orb_True, !bool_decide_spec, Exists_cons. done.
Qed.

Lemma keyCurrent_keyPresent prData date p :
  keyCurrent prData date p → keyPresent prData date p.
Proof. intros (pr & Hpr & _). by exists pr. Qed.

(** X6: for every record and every map, hasNowPR is true exactly when some
    set of the record has its key in the map with isCurrentMaxPR or
    isCurrentRepPR true, and it is never true without hasPR. *)
Theorem getPRSummaryForRecord_hasNowPR (record : TrainingRecord.t) (prData : PRData) :
  let r := getPRSummaryForRecord record prData in
  (PRSummary.hasNowPR r = true ↔
     ∃ p, p ∈ recordSets record ∧ keyCurrent prData (TrainingRecord.date record) p)
  ∧ (PRSummary.hasNowPR r = true → PRSummary.hasPR r = true).
Proof.
  intros r. subst r.
  destruct (getPRSummaryForRecord_items record prData) as (_ & _ & Hh).
  simpl in Hh. rewrite Hh, getPRSummaryForRecord_fold, summarize_fold_hasNowPR. simpl.
  rewrite !bool_decide_eq_true, !Exists_exists. split; [done|].
  intros (p & Hp & Hcur). exists p. split; [done|]. by apply keyCurrent_keyPresent.
Qed.

(** ** Keys and dates *)

Lemma fields_length s f : IsoDate.fields s = Some f → String.length s = 10%nat.
Proof. unfold IsoDate.fields. intros H. by repeat (case_match; try done). Qed.

Lemma calendarTime_length s : is_Some (IsoDate.calendarTime s) → String.length s = 10%nat.
Proof.
  unfold IsoDate.calendarTime. intros [t (f & Hf & _)%bind_Some]. by eapply fields_length.
Qed.

Lemma append_same_length (s1 s2 t1 t2 : string) :
  String.length s1 = String.length s2 → s1 +:+ t1 = s2 +:+ t2 → s1 = s2 ∧ t1 = t2.
Proof.
  revert s2. induction s1 as [|c s1 IH]; intros [|c' s2] Hlen; try done.
  change (String c (s1 +:+ t1) = String c' (s2 +:+ t2) → String c s1 = String c' s2 ∧ t1 = t2).
  intros [= -> H]. injection Hlen as Hlen. by destruct (IH s2 Hlen H) as [-> ->].
Qed.

Lemma dateHasPR_iff (prData : PRData) (d : string) :
  dateHasPR prData d = true ↔
    ∃ key suffix, is_Some (prData !! key) ∧ key = d +:+ "_" +:+ suffix.
Proof.
  unfold dateHasPR. rewrite existsb_exists. split.
  - intros (key & Hin & Hp). apply list_elem_of_In, elem_of_keys in Hin.
    apply prefix_true_iff in Hp as [suffix ->]. eexists _, suffix. split; [done|].
    apply append_assoc.
  - intros (key & suffix & Hin & ->). exists (d +:+ "_" +:+ suffix). split.
    + by apply list_elem_of_In, elem_of_keys.
    + apply prefix_true_iff. exists suffix. by rewrite append_assoc.
Qed.

Lemma dateHasCurrentPR_iff (prData : PRData) (d : string) :
  dateHasCurrentPR prData d = true ↔
    ∃ key suffix pr,
      prData !! key = Some pr ∧ key = d +:+ "_" +:+ suffix
      ∧ (PRInfo.isCurrentMaxPR pr = Some true ∨ PRInfo.isCurrentRepPR pr = Some true).
Proof.
  unfold dateHasCurrentPR. rewrite existsb_exists. split.
  - intros (key & Hin & Hp).
    destruct (String.prefix (d +:+ "_") key) eqn:Hk; simpl in Hp; [|done].
    apply prefix_true_iff in Hk as [suffix ->].
    destruct (prData !! _) as [pr|] eqn:Hpr; [|done].
    exists ((d +:+ "_") +:+ suffix), suffix, pr. split_and!; [done|apply append_assoc|].
    apply orb_true_iff in Hp. by rewrite <- !truthy_true.
  - intros (key & suffix & pr & Hpr & -> & Hcur). exists (d +:+ "_" +:+ suffix). split.
    + apply list_elem_of_In, elem_of_keys. by exists pr.
    + assert (String.prefix (d +:+ "_") (d +:+ "_" +:+ suffix) = true) as ->.
      { apply prefix_true_iff. exists suffix. by rewrite append_assoc. }
      simpl. rewrite Hpr. apply orb_true_iff. by rewrite !truthy_true.
Qed.

(** X7: a date that has a current PR has a PR. *)
Theorem dateHasCurrentPR_dateHasPR (prData : PRData) (d : string) :
  dateHasCurrentPR prData d = true → dateHasPR prData d = true.
Proof.
  rewrite dateHasCurrentPR_iff, dateHasPR_iff.
  intros (key & suffix & pr & Hpr & -> & _). exists (d +:+ "_" +:+ suffix), suffix.
  split; [by exists pr|done].
Qed.

Lemma dateHasCurrentPR_dateHasPR_witness :
  dateHasPR (prData (calculatePRs referenceEngine benchRepRecords)) "2024-01-08" = true.
Proof. apply dateHasCurrentPR_dateHasPR. reflexivity. Defined.

Lemma calculatePRs_lookup (E : Engine.t) records key pr :
  prData (calculatePRs E records) !! key = Some pr →
  ∃ pr0, prData (replay (sortByDate E records)) !! key = Some pr0
         ∧ pr = markCurrent (maxWeightByExercise (replay (sortByDate E records)))
                  (maxRepsAtMaxWeight (replay (sortByDate E records))) pr0.
Proof.
  unfold calculatePRs. simpl. rewrite lookup_fmap.
  destruct (prData (replay (sortByDate E records)) !! key) as [pr0|]; [|done].
  intros [= <-]. by exists pr0.
Qed.

(** A key of the map that starts with a calendar date and an underscore is
    the key of a set of a record of that date. *)
Lemma calculatePRs_key_of_date (E : Engine.t) records d suffix pr :
  Forall validDate records → is_Some (IsoDate.calendarTime d) →
  prData (calculatePRs E records) !! (d +:+ "_" +:+ suffix) = Some pr →
  ∃ r p, r ∈ records ∧ TrainingRecord.date r = d ∧ p ∈ recordSets r
         ∧ setKey d p = d +:+ "_" +:+ suffix.
Proof.
  intros Hvalid Hd (pr0 & Hpr0 & _)%calculatePRs_lookup.
  apply replay_entryOf in Hpr0 as (Hkey & r & s & Hr & Hdate & Hp & _).
  rewrite sortByDate_Permutation in Hr.
  rewrite Forall_forall in Hvalid. pose proof (Hvalid r Hr) as Hrv.
  assert (d = TrainingRecord.date r) as Heq.
  { unfold getPRKey in Hkey. rewrite <- Hdate in Hkey.
    apply append_same_length in Hkey as [Heq _]; [done|].
    rewrite (calendarTime_length _ Hd). symmetry. by apply calendarTime_length. }
  exists r, (PRInfo.exercise pr0, PRInfo.setIndex pr0, s). split_and!; [done..|].
  unfold setKey. simpl. by rewrite Hkey, <- Hdate, <- Heq.
Qed.

Lemma hasPR_iff record (prData : PRData) :
  PRSummary.hasPR (getPRSummaryForRecord record prData) = true ↔
    ∃ p, p ∈ recordSets record ∧ keyPresent prData (TrainingRecord.date record) p.
Proof.
  destruct (getPRSummaryForRecord_items record prData) as (_ & _ & Hh).
  simpl in Hh. by rewrite Hh, bool_decide_eq_true, Exists_exists.
Qed.

Lemma hasNowPR_iff record (prData : PRData) :
  PRSummary.hasNowPR (getPRSummaryForRecord record prData) = true ↔
    ∃ p, p ∈ recordSets record ∧ keyCurrent prData (TrainingRecord.date record) p.
Proof.
  rewrite getPRSummaryForRecord_fold, summarize_fold_hasNowPR. simpl.
  by rewrite bool_decide_eq_true, Exists_exists.
Qed.

Lemma setKey_suffix d (p : string * nat * TrainingSet.t) :
  setKey d p = d +:+ "_" +:+ (p.1.1 +:+ "_" +:+ pretty p.1.2).
Proof. done. Qed.

(** X8: where all records carry calendar dates, the calendar and the record
    cards agree on the map [calculatePRs] returns: a calendar date has a PR
    exactly when the summary of some record of that date has hasPR, and it
    has a current PR exactly when the summary of some record of that date
    has hasNowPR. *)
Theorem calendar_agrees_with_cards (E : Engine.t) (records : list TrainingRecord.t) (d : string) :
  Forall validDate records →
  is_Some (IsoDate.calendarTime d) →
  let prData := prData (calculatePRs E records) in
  (dateHasPR prData d = true ↔
     ∃ r, r ∈ records ∧ TrainingRecord.date r = d
          ∧ PRSummary.hasPR (getPRSummaryForRecord r prData) = true)
  ∧ (dateHasCurrentPR prData d = true ↔
       ∃ r, r ∈ records ∧ TrainingRecord.date r = d
            ∧ PRSummary.hasNowPR (getPRSummaryForRecord r prData) = true).
Proof.
  intros Hvalid Hd m. split.
  - rewrite dateHasPR_iff. split.
    + intros (key & suffix & [pr Hpr] & ->).
      destruct (calculatePRs_key_of_date E records d suffix pr Hvalid Hd Hpr)
        as (r & p & Hr & Hdate & Hp & Hkey).
      exists r. split_and!; [done..|]. apply hasPR_iff. exists p. split; [done|].
      unfold keyPresent. rewrite Hdate, Hkey. by exists pr.
    + intros (r & Hr & <- & (p & Hp & Hpres)%hasPR_iff).
      eexists _, _. split; [exact Hpres|apply setKey_suffix].
  - rewrite dateHasCurrentPR_iff. split.
    + intros (key & suffix & pr & Hpr & -> & Hcur).
      destruct (calculatePRs_key_of_date E records d suffix pr Hvalid Hd Hpr)
        as (r & p & Hr & Hdate & Hp & Hkey).
      exists r. split_and!; [done..|]. apply hasNowPR_iff. exists p. split; [done|].
      unfold keyCurrent. rewrite Hdate, Hkey. by exists pr.
    + intros (r & Hr & <- & (p & Hp & pr & Hpr & Hcur)%hasNowPR_iff).
      eexists _, _, pr. split_and!; [exact Hpr|apply setKey_suffix|done].
Qed.

Lemma calendar_agrees_with_cards_witness :
  let prData := prData (calculatePRs referenceEngine benchRepRecords) in
  (dateHasPR prData "2024-01-08" = true ↔
     ∃ r, r ∈ benchRepRecords ∧ TrainingRecord.date r = "2024-01-08"
          ∧ PRSummary.hasPR (getPRSummaryForRecord r prData) = true)
  ∧ (dateHasCurrentPR prData "2024-01-08" = true ↔
       ∃ r, r ∈ benchRepRecords ∧ TrainingRecord.date r = "2024-01-08"
            ∧ PRSummary.hasNowPR (getPRSummaryForRecord r prData) = true).
Proof.
  apply calendar_agrees_with_cards.
  - repeat constructor; by eexists.
  - by eexists.
Defined.

(** ** Keys do not collide *)

Lemma pretty_N_char_not_underscore x : pretty_N_char x ≠ "_"%char.
Proof. unfold pretty_N_char. by repeat case_match. Qed.

Lemma pretty_N_go_hasUnderscore x s :
  hasUnderscore (pretty_N_go x s) = hasUnderscore s.
Proof.
  revert s. induction (N.lt_wf_0 x) as [x _ IH]; intros s.
  destruct (decide (x = 0)%N) as [->|Hx]; [done|].
  rewrite pretty_N_go_step by lia. rewrite IH by (apply N.div_lt; lia). simpl.
  rewrite bool_decide_eq_false_2; [done|]. apply pretty_N_char_not_underscore.
Qed.

Lemma pretty_nat_hasUnderscore (i : nat) : hasUnderscore (pretty i) = false.
Proof.
  unfold pretty, pretty_nat, pretty, pretty_N. case_decide; [done|].
  apply pretty_N_go_hasUnderscore.
Qed.

Lemma hasUnderscore_app a b : hasUnderscore (a +:+ String "_" b) = true.
Proof.
  induction a as [|c a IH]; [done|].
  change (bool_decide (c = "_"%char) || hasUnderscore (a +:+ String "_" b) = true).
  by rewrite IH, orb_true_r.
Qed.

(** The last underscore of a key separates the name from the index. *)
Lemma name_index_split (n n' p p' : string) :
  hasUnderscore p = false → hasUnderscore p' = false →
  n +:+ "_" +:+ p = n' +:+ "_" +:+ p' → n = n' ∧ p = p'.
Proof.
  intros Hp Hp'. revert n'. induction n as [|c n IH]; intros [|c' n'].
  - change (String "_" p = String "_" p' → "" = "" ∧ p = p'). by intros [= ->].
  - change (String "_" p = String c' (n' +:+ String "_" p') → "" = String c' n' ∧ p = p').
    intros [= <- ->]. by rewrite hasUnderscore_app in Hp.
  - change (String c (n +:+ String "_" p) = String "_" p' → String c n = "" ∧ p = p').
    intros [= -> <-]. by rewrite hasUnderscore_app in Hp'.
  - change (String c (n +:+ "_" +:+ p) = String c' (n' +:+ "_" +:+ p')
            → String c n = String c' n' ∧ p = p').
    intros [= -> H]. by destruct (IH _ H) as [-> ->].
Qed.

Lemma getPRKey_inj (d d' n n' : string) (i i' : nat) :
  is_Some (IsoDate.calendarTime d) → is_Some (IsoDate.calendarTime d') →
  getPRKey d n i = getPRKey d' n' i' →
  d = d' ∧ n = n' ∧ i = i'.
Proof.
  intros Hd Hd' Hkey. unfold getPRKey in Hkey.
  apply append_same_length in Hkey as [-> Hrest].
  2:{ by rewrite (calendarTime_length _ Hd), (calendarTime_length _ Hd'). }
  injection Hrest as Hrest.
  apply name_index_split in Hrest as [-> Hi]; [|apply pretty_nat_hasUnderscore..].
  split_and!; [done..|]. by apply (inj pretty).
Qed.

(** X9: for calendar dates, [getPRKey] gives different keys to different
    triples of date, exercise name and set index, whatever characters the
    exercise name contains. *)
Theorem getPRKey_injective (d d' n n' : string) (i i' : nat) :
  is_Some (IsoDate.calendarTime d) → is_Some (IsoDate.calendarTime d') →
  getPRKey d n i = getPRKey d' n' i' →
  d = d' ∧ n = n' ∧ i = i'.
Proof.
  intros Hd Hd' Hkey. unfold getPRKey in Hkey.
  apply append_same_length in Hkey as [-> Hrest].
  2:{ by rewrite (calendarTime_length _ Hd), (calendarTime_length _ Hd'). }
  injection Hrest as Hrest.
  apply name_index_split in Hrest as [-> Hi]; [|apply pretty_nat_hasUnderscore..].
  split_and!; [done..|]. by apply (inj pretty).
Qed.

Lemma getPRKey_injective_witness :
  "2024-01-01" = "2024-01-01" ∧ "Bench_1" = "Bench_1" ∧ 2%nat = 2%nat.
Proof.
  apply (getPRKey_injective "2024-01-01" "2024-01-01" "Bench_1" "Bench_1" 2 2).
  - by eexists.
  - by eexists.
  - reflexivity.
Defined.

(** * Further properties of the sort *)

Lemma filter_bool_Prop {A : Type} (P : A → Prop) `{∀ x, Decision (P x)} (f : A → bool)
    (l : list A) :
  (∀ x, x ∈ l → f x = true ↔ P x) → List.filter f l = filter P l.
Proof.
  intros Hf. induction l as [|x l IH]; [done|].
  rewrite filter_cons. cbn [List.filter].
  rewrite IH by (intros y Hy; apply Hf; by right).
  pose proof (Hf x ltac:(left)) as Hx.
  destruct (decide (P x)) as [HP|HP], (f x) eqn:Hfx; try done.
  - apply Hx in HP. congruence.
  - by destruct HP; apply Hx.
Qed.

Lemma filter_bool_nil {A : Type} (f : A → bool) (l : list A) :
  (∀ x, x ∈ l → f x = false) → List.filter f l = [].
Proof.
  intros Hf. induction l as [|x l IH]; [done|]. simpl.
  rewrite (Hf x) by left. apply IH. intros y Hy. apply Hf. by right.
Qed.

(** Two records with calendar dates compare equal exactly when they have
    the same date. *)
Lemma sortCompare_zero (E : Engine.t) a b :
  validDate a → validDate b →
  Js.sortCompare (compareDates E) a b = 0 ↔ TrainingRecord.date a = TrainingRecord.date b.
Proof.
  intros Ha Hb. rewrite sortCompare_valid by done.
  destruct Ha as [ta Hta], Hb as [tb Htb]. unfold timeOf. rewrite Hta, Htb. simpl. split.
  - intros Heq. assert (ta = tb) as -> by lia.
    by eapply IsoDateFacts.calendarTime_inj.
  - intros Heq. rewrite Heq, Htb in Hta. injection Hta as ->. lia.
Qed.

(** X10: on every engine the order in which [calculatePRs] replays the
    records is a permutation of the input; where all dates are calendar
    dates it is ascending in time and keeps the input order among the
    records of one date.  (Where some date is not a calendar date the
    comparator may answer [NaN], and the order is the engine's.) *)
Theorem sortByDate_chronological (E : Engine.t) (l : list TrainingRecord.t) :
  sortByDate E l ≡ₚ l
  ∧ (Forall validDate l →
       StronglySorted (λ a b, timeOf a ≤ timeOf b) (sortByDate E l)
       ∧ ∀ d, List.filter (λ x, bool_decide (TrainingRecord.date x = d)) (sortByDate E l)
              = List.filter (λ x, bool_decide (TrainingRecord.date x = d)) l).
Proof.
  split; [apply Engine.sort_permutation|]. intros Hvalid.
  split; [by apply sortByDate_sorted|].
  intros d. pose proof (compareDates_consistent E l Hvalid) as Hcons.
  rewrite Forall_forall in Hvalid.
  destruct (decide (d ∈ TrainingRecord.date <$> l)) as [Hd|Hd].
  - apply list_elem_of_fmap in Hd as (r & -> & Hr).
    rewrite !(filter_bool_Prop (λ y, Js.sortCompare (compareDates E) r y = 0)).
    + by apply Engine.sort_stable.
    + intros x Hx. rewrite bool_decide_eq_true, sortCompare_zero by by apply Hvalid.
      split; congruence.
    + intros x Hx. unfold sortByDate in Hx. rewrite Engine.sort_permutation in Hx.
      rewrite bool_decide_eq_true, sortCompare_zero by by apply Hvalid.
      split; congruence.
  - rewrite !filter_bool_nil; [done|..].
    + intros x Hx. apply bool_decide_eq_false_2. intros <-.
      apply Hd, list_elem_of_fmap. eauto.
    + intros x Hx. unfold sortByDate in Hx. rewrite Engine.sort_permutation in Hx.
      apply bool_decide_eq_false_2. intros <-. apply Hd, list_elem_of_fmap. eauto.
Qed.

Lemma sortByDate_chronological_witness :
  StronglySorted (λ a b, timeOf a ≤ timeOf b) (sortByDate referenceEngine squatRecords)
  ∧ ∀ d, List.filter (λ x, bool_decide (TrainingRecord.date x = d))
           (sortByDate referenceEngine squatRecords)
         = List.filter (λ x, bool_decide (TrainingRecord.date x = d)) squatRecords.
Proof.
  apply (sortByDate_chronological referenceEngine squatRecords).
  repeat constructor; by eexists.
Defined.

(** * Properties of [findPreviousRecordForExercise] *)

Lemma sortByDateDesc_unique (E : Engine.t) l1 l2 :
  l1 ≡ₚ l2 → NoDup (TrainingRecord.date <$> l1) → Forall validDate l1 →
  sortByDateDesc E l1 = sortByDateDesc E l2.
Proof.
  intros Hperm Hnodup Hvalid.
  apply (StronglySorted_unique_strong (λ a b, timeOf b ≤ timeOf a)).
  - intros x1 x2 Hx1 Hx2 H12 H21.
    rewrite sortByDateDesc_Permutation in Hx1.
    rewrite sortByDateDesc_Permutation, <- Hperm in Hx2.
    rewrite Forall_forall in Hvalid.
    destruct (Hvalid _ Hx1) as [t1 Ht1], (Hvalid _ Hx2) as [t2 Ht2].
    unfold timeOf in H12, H21. rewrite Ht1, Ht2 in H12, H21. simpl in H12, H21.
    assert (t1 = t2) as -> by lia.
    pose proof (IsoDateFacts.calendarTime_inj _ _ _ Ht1 Ht2) as Hdate.
    apply list_elem_of_lookup in Hx1 as [i1 Hi1], Hx2 as [i2 Hi2].
    assert (i1 = i2) as ->; [|congruence].
    eapply NoDup_lookup; [exact Hnodup| |].
    + rewrite list_lookup_fmap, Hi1. simpl. reflexivity.
    + rewrite list_lookup_fmap, Hi2. simpl. by rewrite Hdate.
  - by apply sortByDateDesc_sorted.
  - apply sortByDateDesc_sorted. by rewrite <- Hperm.
  - by rewrite !sortByDateDesc_Permutation.
Qed.

(** The loop returns what the first record that returns gives. *)
Lemma findPreviousLoop_Some exerciseId currentDate l sets :
  findPreviousLoop exerciseId currentDate l = Some sets ↔
    ∃ pre r post, l = (pre ++ r :: post)%list
      ∧ Forall (λ x, previousSetsIn exerciseId currentDate x = None) pre
      ∧ previousSetsIn exerciseId currentDate r = Some sets.
Proof.
  induction l as [|x l IH]; simpl.
  - split; [done|]. intros (pre & r & post & H & _). by destruct pre.
  - destruct (previousSetsIn exerciseId currentDate x) as [s|] eqn:Hx.
    + split.
      * intros [= ->]. by exists [], x, l.
      * intros ([|y pre] & r & post & [= -> ->] & Hpre & Hr); [congruence|].
        apply Forall_cons_1 in Hpre as [? _]. congruence.
    + rewrite IH. split.
      * intros (pre & r & post & -> & Hpre & Hr). exists (x :: pre), r, post.
        split_and!; [done| |done]. by constructor.
      * intros ([|y pre] & r & post & [= -> ->] & Hpre & Hr); [congruence|].
        apply Forall_cons_1 in Hpre as [_ Hpre]. by exists pre, r, post.
Qed.

Lemma findPreviousLoop_None exerciseId currentDate l :
  findPreviousLoop exerciseId currentDate l = None ↔
    Forall (λ x, previousSetsIn exerciseId currentDate x = None) l.
Proof.
  induction l as [|x l IH]; simpl; [done|].
  destruct (previousSetsIn exerciseId currentDate x) as [s|] eqn:Hx.
  - split; [done|]. intros [? _]%Forall_cons_1. congruence.
  - rewrite IH. split; [by constructor|by intros [_ ?]%Forall_cons_1].
Qed.

(** What a record must be like for the loop to return its sets. *)
Lemma previousSetsIn_Some exerciseId currentDate r sets :
  previousSetsIn exerciseId currentDate r = Some sets ↔
    TrainingRecord.date r ≠ currentDate
    ∧ ∃ ex ss, findExercise exerciseId r = Some ex
               ∧ TrainingRecordExercise.sets ex = Some ss ∧ ss ≠ []
               ∧ sets = (λ set, PreviousSet.mk (TrainingSet.weight set) (TrainingSet.reps set))
                          <$> ss.
Proof.
  unfold previousSetsIn. case_bool_decide as Hd.
  - split; [done|]. by intros [? _].
  - destruct (findExercise exerciseId r) as [ex|].
    + destruct (TrainingRecordExercise.sets ex) as [[|s ss]|] eqn:Hs; simpl.
      * split; [done|]. intros (_ & ex' & ss' & [= <-] & Hs' & Hne & _). congruence.
      * split.
        -- intros [= <-]. split; [done|]. by eexists _, _.
        -- intros (_ & ex' & ss' & [= <-] & Hs' & _ & ->).
           rewrite Hs in Hs'. by injection Hs' as <-.
      * split; [done|]. intros (_ & ex' & ss' & [= <-] & Hs' & _). congruence.
    + split; [done|]. by intros (_ & ? & ? & [=] & _).
Qed.

Lemma findExercise_Some exerciseId r ex :
  findExercise exerciseId r = Some ex →
  ex ∈ optList (TrainingRecord.exercises r) ∧ TrainingRecordExercise.id ex = exerciseId.
Proof.
  unfold findExercise. destruct (TrainingRecord.exercises r) as [exs|]; simpl; [|done].
  intros [Hin Hid]%find_some. split; [by apply list_elem_of_In|].
  by apply bool_decide_eq_true in Hid.
Qed.

(** X11: a value returned by [findPreviousRecordForExercise] is never an
    empty array: it lists, in order, the weight and repetitions of the sets
    of an exercise with the asked id, taken from a record of the input whose
    date is not the current date. *)
Theorem findPreviousRecordForExercise_result (E : Engine.t) (records : list TrainingRecord.t)
    (exerciseId : Z) (currentDate : string) (sets : list PreviousSet.t) :
  findPreviousRecordForExercise E records exerciseId currentDate = Some sets →
  sets ≠ []
  ∧ ∃ r ex ss,
      r ∈ records ∧ TrainingRecord.date r ≠ currentDate
      ∧ ex ∈ optList (TrainingRecord.exercises r)
      ∧ TrainingRecordExercise.id ex = exerciseId
      ∧ TrainingRecordExercise.sets ex = Some ss
      ∧ sets = (λ set, PreviousSet.mk (TrainingSet.weight set) (TrainingSet.reps set)) <$> ss.
Proof.
  unfold findPreviousRecordForExercise.
  intros (pre & r & post & Hl & _ & Hr)%findPreviousLoop_Some.
  apply previousSetsIn_Some in Hr as (Hd & ex & ss & Hex & Hss & Hne & ->).
  split; [by destruct ss|].
  apply findExercise_Some in Hex as [Hin Hid]. exists r, ex, ss. split_and!; [|done..].
  rewrite <- sortByDateDesc_Permutation, Hl. apply elem_of_app. right. by left.
Qed.

Lemma findPreviousRecordForExercise_result_witness :
  [PreviousSet.mk (kg 100) 5] ≠ []
  ∧ ∃ r ex ss,
      r ∈ benchRepRecords ∧ TrainingRecord.date r ≠ "2024-01-08"
      ∧ ex ∈ optList (TrainingRecord.exercises r)
      ∧ TrainingRecordExercise.id ex = 0
      ∧ TrainingRecordExercise.sets ex = Some ss
      ∧ [PreviousSet.mk (kg 100) 5]
        = (λ set, PreviousSet.mk (TrainingSet.weight set) (TrainingSet.reps set)) <$> ss.
Proof.
  apply (findPreviousRecordForExercise_result referenceEngine benchRepRecords 0 "2024-01-08").
  reflexivity.
Defined.

(** X12: [findPreviousRecordForExercise] returns null exactly when every
    record of the input either has the current date or is such that the
    first of its exercises with the asked id, if there is one, has no sets;
    a later exercise with the same id in that record is not looked at. *)
Theorem findPreviousRecordForExercise_null (E : Engine.t) (records : list TrainingRecord.t)
    (exerciseId : Z) (currentDate : string) :
  findPreviousRecordForExercise E records exerciseId currentDate = None ↔
    ∀ r, r ∈ records →
      TrainingRecord.date r = currentDate
      ∨ ∀ ex, findExercise exerciseId r = Some ex →
              optList (TrainingRecordExercise.sets ex) = [].
Proof.
  unfold findPreviousRecordForExercise.
  rewrite findPreviousLoop_None, Forall_forall.
  assert (∀ r, previousSetsIn exerciseId currentDate r = None ↔
               TrainingRecord.date r = currentDate
               ∨ ∀ ex, findExercise exerciseId r = Some ex →
                       optList (TrainingRecordExercise.sets ex) = []) as Hbody.
  { intros r. unfold previousSetsIn. case_bool_decide as Hd; [by split; [left|]|].
    destruct (findExercise exerciseId r) as [ex|].
    - destruct (TrainingRecordExercise.sets ex) as [[|s ss]|] eqn:Hs; simpl.
      + split; [|done]. intros _. right. intros ? [= <-]. by rewrite Hs.
      + split; [done|]. intros [?|H]; [done|]. specialize (H ex eq_refl).
        by rewrite Hs in H.
      + split; [|done]. intros _. right. intros ? [= <-]. by rewrite Hs.
    - split; [|done]. intros _. by right. }
  split.
  - intros H r Hr. apply Hbody, H. by rewrite sortByDateDesc_Permutation.
  - intros H r Hr. apply Hbody, H. by rewrite sortByDateDesc_Permutation in Hr.
Qed.

(** X13: where all records carry calendar dates, the sets returned come from
    a latest record among those the loop could return from: no record of
    another date than the current one whose exercise with the asked id has
    sets is later, be it before or after the current date. *)
Theorem findPreviousRecordForExercise_latest (E : Engine.t) (records : list TrainingRecord.t)
    (exerciseId : Z) (currentDate : string) (sets : list PreviousSet.t) :
  Forall validDate records →
  findPreviousRecordForExercise E records exerciseId currentDate = Some sets →
  ∃ r, r ∈ records
       ∧ previousSetsIn exerciseId currentDate r = Some sets
       ∧ ∀ r', r' ∈ records →
               is_Some (previousSetsIn exerciseId currentDate r') →
               timeOf r' ≤ timeOf r.
Proof.
  unfold findPreviousRecordForExercise.
  intros Hvalid (pre & r & post & Hl & Hpre & Hr)%findPreviousLoop_Some.
  pose proof (sortByDateDesc_sorted E records Hvalid) as Hsorted. rewrite Hl in Hsorted.
  exists r. split_and!; [|done|].
  - rewrite <- sortByDateDesc_Permutation, Hl. apply elem_of_app. right. by left.
  - intros r' Hr' [s' Hs'].
    rewrite <- sortByDateDesc_Permutation, Hl in Hr'.
    apply elem_of_app in Hr' as [Hin|Hin].
    + rewrite Forall_forall in Hpre. rewrite (Hpre _ Hin) in Hs'. done.
    + apply elem_of_cons in Hin as [->|Hin]; [lia|].
      apply StronglySorted_app_1_r in Hsorted.
      apply StronglySorted_inv in Hsorted as [_ Hhd].
      rewrite Forall_forall in Hhd. by apply Hhd.
Qed.

Lemma findPreviousRecordForExercise_latest_witness :
  ∃ r, r ∈ squatRecords
       ∧ previousSetsIn 0 "2024-01-01" r = Some [PreviousSet.mk (kg 110) 5]
       ∧ ∀ r', r' ∈ squatRecords →
               is_Some (previousSetsIn 0 "2024-01-01" r') →
               timeOf r' ≤ timeOf r.
Proof.
  apply (findPreviousRecordForExercise_latest referenceEngine squatRecords 0 "2024-01-01").
  - repeat constructor; by eexists.
  - reflexivity.
Defined.

(** X14: for records with pairwise distinct calendar dates the value returned
    by [findPreviousRecordForExercise] does not depend on the order of the
    input. *)
Theorem findPreviousRecordForExercise_order_independent (E : Engine.t)
    (l1 l2 : list TrainingRecord.t) (exerciseId : Z) (currentDate : string) :
  l1 ≡ₚ l2 →
  NoDup (TrainingRecord.date <$> l1) →
  Forall validDate l1 →
  findPreviousRecordForExercise E l1 exerciseId currentDate
    = findPreviousRecordForExercise E l2 exerciseId currentDate.
Proof.
  intros Hperm Hnodup Hvalid. unfold findPreviousRecordForExercise.
  by rewrite (sortByDateDesc_unique E l1 l2).
Qed.

Lemma findPreviousRecordForExercise_order_independent_witness :
  findPreviousRecordForExercise referenceEngine squatRecords 0 "2024-01-01"
    = findPreviousRecordForExercise referenceEngine (rev squatRecords) 0 "2024-01-01".
Proof.
  apply findPreviousRecordForExercise_order_independent.
  - apply Permutation_swap.
  - apply (bool_decide_unpack _). reflexivity.
  - repeat constructor; by eexists.
Defined.

(** * Properties of the badges of a record card *)

Lemma badgesOf_length a b c d : (length (badgesOf a b c d) ≤ 1)%nat.
Proof. destruct a, b, c, d; simpl; lia. Qed.

(** X15: the badges shown next to a set in the list of sets are the badges
    of the summary item of that set, a set without a summary item has no
    badge, and no set has more than one badge. *)
Theorem setBadges_summaryBadges (prData : PRData) (date : string)
    (p : string * nat * TrainingSet.t) :
  setBadges prData date p.1.1 p.1.2
    = from_option summaryBadges [] (summaryItemOf prData date p)
  ∧ (length (setBadges prData date p.1.1 p.1.2) ≤ 1)%nat.
Proof.
  unfold setBadges, summaryItemOf, setKey.
  destruct (prData !! getPRKey date p.1.1 p.1.2) as [pr|]; simpl; [|split; [done|lia]].
  split; [|apply badgesOf_length].
  destruct (Js.truthy (PRInfo.maxWeightPR pr)) eqn:Hm,
    (Js.truthy (PRInfo.repPR pr)) eqn:Hr; simpl; try done;
    unfold summaryBadges; simpl; by rewrite Hm, Hr.
Qed.

Lemma elem_of_summary record (prData : PRData) item :
  item ∈ PRSummary.prSummary (getPRSummaryForRecord record prData) ↔
    ∃ p pr, p ∈ recordSets record
            ∧ prData !! setKey (TrainingRecord.date record) p = Some pr
            ∧ (Js.truthy (PRInfo.maxWeightPR pr) || Js.truthy (PRInfo.repPR pr) = true)
            ∧ item = summaryItem p pr.
Proof.
  destruct (getPRSummaryForRecord_items record prData) as (Hs & _ & _).
  simpl in Hs. rewrite Hs, list_elem_of_omap. unfold summaryItemOf. split.
  - intros (p & Hp & Hitem). exists p.
    destruct (prData !! setKey _ p) as [pr|]; simpl in Hitem; [|done].
    exists pr. destruct (_ || _); [|done]. by injection Hitem as <-.
  - intros (p & pr & Hp & Hpr & Hfl & ->). exists p. split; [done|].
    rewrite Hpr. simpl. by rewrite Hfl.
Qed.

(** The flags of an entry of a map returned by [calculatePRs]. *)
Lemma calculatePRs_entry_flags (E : Engine.t) records key pr :
  prData (calculatePRs E records) !! key = Some pr →
  PRInfo.repPR pr = Some true
  ∧ (PRInfo.maxWeightPR pr = Some true ∨ PRInfo.maxWeightPR pr = None)
  ∧ (PRInfo.maxWeightPR pr = None → PRInfo.isCurrentMaxPR pr ≠ Some true)
  ∧ (PRInfo.maxWeightPR pr = Some true → PRInfo.isCurrentRepPR pr = Some true →
     PRInfo.isCurrentMaxPR pr = Some true).
Proof.
  intros (pr0 & Hpr0 & ->)%calculatePRs_lookup.
  apply replay_entries in Hpr0.
  set (mw := maxWeightByExercise (replay (sortByDate E records))).
  set (mr := maxRepsAtMaxWeight (replay (sortByDate E records))).
  destruct (markCurrent_current mw mr pr0 Hpr0) as [Hcm Hcr].
  destruct (markCurrent_flags mw mr pr0) as (-> & -> & _).
  destruct Hpr0 as (Hrep & Hmax & _). split_and!; [done..| |].
  - intros Hnone (_ & Hm & _)%Hcm. congruence.
  - intros Hm (Hne & Hw & _)%Hcr. by apply Hcm.
Qed.

(** X16: on a map returned by [calculatePRs] every item of the PR summary of
    a record has exactly one badge, and the item is marked as a now item
    exactly when that badge is one of the two NOW badges. *)
Theorem summaryBadges_of_calculatePRs (E : Engine.t) (records : list TrainingRecord.t)
    (record : TrainingRecord.t) (item : PRSummaryItem.t) :
  item ∈ PRSummary.prSummary (getPRSummaryForRecord record (prData (calculatePRs E records))) →
  length (summaryBadges item) = 1%nat
  ∧ (isNowItem item = true ↔
       summaryBadges item = [nowPRBadge] ∨ summaryBadges item = [nowRepPRBadge]).
Proof.
  intros (p & pr & _ & Hpr & _ & ->)%elem_of_summary.
  destruct (calculatePRs_entry_flags E records _ pr Hpr) as (Hrep & Hmax & Hnone & Hboth).
  unfold summaryBadges, isNowItem, summaryItem, badgesOf. simpl. rewrite Hrep. simpl.
  destruct Hmax as [Hm|Hm]; rewrite Hm in *; simpl.
  - destruct (PRInfo.isCurrentMaxPR pr) as [[]|] eqn:Hcm; simpl.
    + split; [done|]. split; [by left|done].
    + split; [done|]. rewrite truthy_true. split.
      * intros Hcr. by specialize (Hboth eq_refl Hcr).
      * by intros [[=]|[=]].
    + split; [done|]. rewrite truthy_true. split.
      * intros Hcr. by specialize (Hboth eq_refl Hcr).
      * by intros [[=]|[=]].
  - assert (Js.truthy (PRInfo.isCurrentMaxPR pr) = false) as ->.
    { specialize (Hnone eq_refl). by destruct (PRInfo.isCurrentMaxPR pr) as [[]|]. }
    simpl. destruct (Js.truthy (PRInfo.isCurrentRepPR pr)); simpl.
    + split; [done|]. split; [by right|done].
    + split; [done|]. split; [done|]. by intros [[=]|[=]].
Qed.

Lemma summaryBadges_of_calculatePRs_witness :
  let item := PRSummaryItem.mk "Bench Press" (kg 100) 8 false true false true in
  length (summaryBadges item) = 1%nat
  ∧ (isNowItem item = true ↔
       summaryBadges item = [nowPRBadge] ∨ summaryBadges item = [nowRepPRBadge]).
Proof.
  apply (summaryBadges_of_calculatePRs referenceEngine benchRepRecords
           (mkRecord "2024-01-08" [mkExercise "Bench Press" [mkSet (kg 100) 8]])).
  change (PRSummaryItem.mk "Bench Press" (kg 100) 8 false true false true
          ∈ [PRSummaryItem.mk "Bench Press" (kg 100) 8 false true false true]).
  left.
Defined.

(** X17: on a map returned by [calculatePRs] the star of a record card is
    shown exactly when the PR summary of the record is not empty, and the
    card is a has-now-pr card exactly when one of the items of the summary
    is a now item. *)
Theorem card_star_of_calculatePRs (E : Engine.t) (records : list TrainingRecord.t)
    (record : TrainingRecord.t) :
  let s := getPRSummaryForRecord record (prData (calculatePRs E records)) in
  (PRSummary.hasPR s = true ↔ PRSummary.prSummary s ≠ [])
  ∧ (cardPRClass s = " has-now-pr" ↔
       ∃ item, item ∈ PRSummary.prSummary s ∧ isNowItem item = true)
  ∧ (cardPRClass s = " has-pr" ↔
       PRSummary.prSummary s ≠ []
       ∧ ∀ item, item ∈ PRSummary.prSummary s → isNowItem item = false).
Proof.
  intros s.
  assert (∀ p pr, prData (calculatePRs E records) !! setKey (TrainingRecord.date record) p
                  = Some pr →
                  Js.truthy (PRInfo.maxWeightPR pr) || Js.truthy (PRInfo.repPR pr) = true)
    as Hflag.
  { intros p pr Hpr. destruct (calculatePRs_entry_flags E records _ pr Hpr) as (-> & _).
    apply orb_true_r. }
  assert (PRSummary.hasPR s = true ↔ PRSummary.prSummary s ≠ []) as HhasPR.
  { subst s. rewrite hasPR_iff. split.
    - intros (p & Hp & pr & Hpr) Hnil.
      assert (summaryItem p pr ∈ PRSummary.prSummary
                (getPRSummaryForRecord record (prData (calculatePRs E records)))) as Hin.
      { apply elem_of_summary. exists p, pr. split_and!; [done..| |done]. by eapply Hflag. }
      rewrite Hnil in Hin. by apply elem_of_nil in Hin.
    - intros Hne. destruct (PRSummary.prSummary _) as [|item l] eqn:Hs; [done|].
      assert (item ∈ PRSummary.prSummary
                (getPRSummaryForRecord record (prData (calculatePRs E records)))) as Hin
        by (rewrite Hs; left).
      apply elem_of_summary in Hin as (p & pr & Hp & Hpr & _). exists p. split; [done|].
      by exists pr. }
  assert (PRSummary.hasNowPR s = true ↔
            ∃ item, item ∈ PRSummary.prSummary s ∧ isNowItem item = true) as HhasNow.
  { subst s. rewrite hasNowPR_iff. split.
    - intros (p & Hp & pr & Hpr & Hcur). exists (summaryItem p pr). split.
      + apply elem_of_summary. exists p, pr. split_and!; [done..| |done]. by eapply Hflag.
      + unfold isNowItem, summaryItem. simpl. apply orb_true_iff.
        by rewrite !truthy_true.
    - intros (item & (p & pr & Hp & Hpr & _ & ->)%elem_of_summary & Hnow).
      exists p. split; [done|]. exists pr. split; [done|].
      unfold isNowItem, summaryItem in Hnow. simpl in Hnow.
      apply orb_true_iff in Hnow. by rewrite !truthy_true in Hnow. }
  split_and!; [done| |].
  - rewrite <- HhasNow. unfold cardPRClass.
    destruct (PRSummary.hasNowPR s), (PRSummary.hasPR s); split; done.
  - unfold cardPRClass. rewrite <- HhasPR.
    destruct (decide (PRSummary.hasNowPR s = true)) as [Hn|Hn].
    + rewrite Hn. split; [done|]. intros [_ Hall].
      apply HhasNow in Hn as (item & Hin & Hnow). rewrite (Hall _ Hin) in Hnow. done.
    + pose proof (not_true_is_false _ Hn) as Hn'. rewrite Hn'.
      destruct (PRSummary.hasPR s); (split; [|by intros [? _]]); [|done].
      intros _. split; [done|]. intros item Hin.
      destruct (isNowItem item) eqn:Hnow; [|done].
      exfalso. apply Hn, HhasNow. eauto.
Qed.

(** * Properties of the calendar of the records page *)

Lemma pretty_Z_N (z : Z) : 0 ≤ z → pretty z = pretty (Z.to_N z).
Proof. intros H. by destruct z. Qed.

Lemma pretty_N_1 (x : N) : (x < 10)%N → pretty x = String (pretty_N_char x) "".
Proof.
  intros H. unfold pretty, pretty_N. case_decide as H0; [by subst|].
  rewrite pretty_N_go_step by lia.
  by rewrite N.div_small, N.mod_small, pretty_N_go_0 by lia.
Qed.

Lemma pretty_N_go_1 (x : N) s :
  (0 < x < 10)%N → pretty_N_go x s = String (pretty_N_char x) s.
Proof.
  intros H. rewrite pretty_N_go_step by lia.
  by rewrite N.div_small, N.mod_small, pretty_N_go_0 by lia.
Qed.

Lemma pretty_N_2 (x : N) :
  (10 ≤ x < 100)%N →
  pretty x = String (pretty_N_char (x `div` 10)) (String (pretty_N_char (x `mod` 10)) "").
Proof.
  intros H. unfold pretty, pretty_N. case_decide as H0; [lia|].
  rewrite pretty_N_go_step by lia. apply pretty_N_go_1.
  split; [apply N.div_str_pos; lia|apply N.Div0.div_lt_upper_bound; lia].
Qed.

Lemma pretty_N_4 (x : N) :
  (1000 ≤ x < 10000)%N →
  pretty x =
    String (pretty_N_char (x `div` 1000))
      (String (pretty_N_char ((x `div` 100) `mod` 10))
         (String (pretty_N_char ((x `div` 10) `mod` 10))
            (String (pretty_N_char (x `mod` 10)) ""))).
Proof.
  intros H. unfold pretty, pretty_N. case_decide as H0; [lia|].
  assert (0 < x `div` 10)%N by (apply N.div_str_pos; lia).
  assert (0 < (x `div` 10) `div` 10)%N.
  { apply N.div_str_pos. split; [lia|]. apply N.div_le_lower_bound; lia. }
  assert ((x `div` 10) `div` 10 = x `div` 100)%N as E2 by (by rewrite N.Div0.div_div).
  assert ((x `div` 100) `div` 10 = x `div` 1000)%N as E3 by (by rewrite N.Div0.div_div).
  rewrite pretty_N_go_step by lia. rewrite pretty_N_go_step by lia.
  rewrite pretty_N_go_step by lia. rewrite E2, E3. apply pretty_N_go_1.
  split; [apply N.div_str_pos; lia|apply N.Div0.div_lt_upper_bound; lia].
Qed.

Lemma digit_pretty_N_char (n : N) :
  (n < 10)%N → IsoDate.digit (pretty_N_char n) = Some (Z.of_N n).
Proof.
  intros H.
  assert (n = 0 ∨ n = 1 ∨ n = 2 ∨ n = 3 ∨ n = 4 ∨ n = 5 ∨ n = 6 ∨ n = 7 ∨ n = 8 ∨ n = 9)%N
    as Hn by lia.
  repeat (destruct Hn as [->|Hn]); try subst n; reflexivity.
Qed.

(** The two-digit rendering of a month or a day. *)
Lemma padStart0_pretty (z : Z) :
  0 ≤ z < 100 →
  padStart0 2 (pretty z) =
    String (pretty_N_char (Z.to_N z `div` 10)) (String (pretty_N_char (Z.to_N z `mod` 10)) "").
Proof.
  intros H. rewrite pretty_Z_N by lia.
  destruct (decide (z < 10)) as [Hlt|Hge].
  - rewrite pretty_N_1 by lia. rewrite N.div_small, N.mod_small by lia. reflexivity.
  - rewrite pretty_N_2 by lia. reflexivity.
Qed.

Lemma calendarDateStr_fields (year month day : Z) :
  1000 ≤ year ≤ 9999 → 0 ≤ month + 1 < 100 → 0 ≤ day < 100 →
  IsoDate.fields (calendarDateStr year month day) = Some (year, month + 1, day).
Proof.
  intros Hy Hm Hd. unfold calendarDateStr.
  rewrite (pretty_Z_N year) by lia. rewrite pretty_N_4 by lia.
  rewrite !padStart0_pretty by lia.
  set (y := Z.to_N year). set (m := Z.to_N (month + 1)). set (d := Z.to_N day).
  change (IsoDate.fields
            (String (pretty_N_char (y `div` 1000))
               (String (pretty_N_char ((y `div` 100) `mod` 10))
                  (String (pretty_N_char ((y `div` 10) `mod` 10))
                     (String (pretty_N_char (y `mod` 10))
                        (String "-"
                           (String (pretty_N_char (m `div` 10))
                              (String (pretty_N_char (m `mod` 10))
                                 (String "-"
                                    (String (pretty_N_char (d `div` 10))
                                       (String (pretty_N_char (d `mod` 10)) ""))))))))))
          = Some (year, month + 1, day)).
  unfold IsoDate.fields.
  change (IsoDate.isDash "-" && IsoDate.isDash "-") with true. cbv iota.
  assert (y `div` 1000 < 10)%N by (apply N.Div0.div_lt_upper_bound; lia).
  assert (m `div` 10 < 10)%N by (apply N.Div0.div_lt_upper_bound; lia).
  assert (d `div` 10 < 10)%N by (apply N.Div0.div_lt_upper_bound; lia).
  rewrite !digit_pretty_N_char by (done || apply N.mod_lt; lia). simpl.
  f_equal. f_equal; [f_equal|].
  - rewrite !N2Z.inj_mod, !N2Z.inj_div. subst y. rewrite Z2N.id by lia. simpl.
    Z.div_mod_to_equations. lia.
  - rewrite !N2Z.inj_mod, !N2Z.inj_div. subst m. rewrite Z2N.id by lia. simpl.
    Z.div_mod_to_equations. lia.
  - rewrite !N2Z.inj_mod, !N2Z.inj_div. subst d. rewrite Z2N.id by lia. simpl.
    Z.div_mod_to_equations. lia.
Qed.

(** X18: for a four-digit year, a month index from 0 to 11 and a day of that
    month, the string the calendar builds for the day is the calendar date
    [YYYY-MM-DD] of that day: its fields are the year, the month index plus
    one and the day, and on every engine [new Date(dateStr).getTime()] is
    the time value of midnight UTC of that day. *)
Theorem calendarDateStr_getTime (E : Engine.t) (year month day : Z) :
  1000 ≤ year ≤ 9999 → 0 ≤ month ≤ 11 →
  1 ≤ day ≤ IsoDate.daysInMonth (IsoDate.inLeapYear year) (month + 1) →
  IsoDate.fields (calendarDateStr year month day) = Some (year, month + 1, day)
  ∧ IsoDate.calendarTime (calendarDateStr year month day)
      = Some (IsoDate.utcMidnight year (month + 1) day)
  ∧ Engine.getTime E (calendarDateStr year month day)
      = Some (IsoDate.utcMidnight year (month + 1) day).
Proof.
  intros Hy Hm Hd.
  assert (IsoDate.daysInMonth (IsoDate.inLeapYear year) (month + 1) ≤ 31) as Hmax.
  { unfold IsoDate.daysInMonth. repeat case_match; lia. }
  assert (IsoDate.fields (calendarDateStr year month day) = Some (year, month + 1, day))
    as Hfields by (apply calendarDateStr_fields; lia).
  assert (IsoDate.calendarTime (calendarDateStr year month day)
          = Some (IsoDate.utcMidnight year (month + 1) day)) as Htime.
  { unfold IsoDate.calendarTime. rewrite Hfields. simpl. unfold IsoDate.timeOfDay.
    rewrite (proj2 (andb_true_iff _ _)); [done|]. rewrite !andb_true_iff, !Z.leb_le. lia. }
  split_and!; [done..|]. by apply Engine.getTime_calendar.
Qed.

Lemma calendarDateStr_getTime_witness :
  IsoDate.fields (calendarDateStr 2024 1 29) = Some (2024, 1 + 1, 29)
  ∧ IsoDate.calendarTime (calendarDateStr 2024 1 29)
      = Some (IsoDate.utcMidnight 2024 (1 + 1) 29)
  ∧ Engine.getTime lenientEngine (calendarDateStr 2024 1 29)
      = Some (IsoDate.utcMidnight 2024 (1 + 1) 29).
Proof.
  apply (calendarDateStr_getTime lenientEngine 2024 1 29); [lia..|].
  vm_compute. split; congruence.
Defined.

Example calendarDateStr_leap_day : calendarDateStr 2024 1 29 = "2024-02-29".
Proof. reflexivity. Qed.

Lemma filter_date_nil (allRecords : list TrainingRecord.t) (dateStr : string) :
  List.filter (λ r, bool_decide (TrainingRecord.date r = dateStr)) allRecords = [] ↔
    dateStr ∉ recordDates allRecords.
Proof.
  unfold recordDates. rewrite elem_of_list_to_set, list_elem_of_fmap. split.
  - intros Hnil (r & -> & Hr).
    assert (In r (List.filter (λ r0, bool_decide (TrainingRecord.date r0 = TrainingRecord.date r))
                    allRecords)) as Hin.
    { apply filter_In. split; [by apply list_elem_of_In|by apply bool_decide_eq_true]. }
    by rewrite Hnil in Hin.
  - intros Hno. destruct (List.filter _ _) as [|r l] eqn:Hf; [done|]. exfalso.
    assert (In r (r :: l)) as Hin by (by left). rewrite <- Hf in Hin.
    apply filter_In in Hin as [Hin Hd]. apply bool_decide_eq_true in Hd.
    apply Hno. exists r. split; [done|by apply list_elem_of_In].
Qed.

Lemma find_head_filter {A : Type} (f : A → bool) (l : list A) :
  find f l = head (List.filter f l).
Proof. induction l as [|x l IH]; simpl; [done|]. by destruct (f x). Qed.

(** X19: the has-record mark of a calendar day tells what a click on the day
    does.  On a marked day the click expands the card of the first record of
    that date and changes nothing else; on an unmarked day it opens the
    dialog for a new record on that date and leaves the expanded cards as
    they are. *)
Theorem handleDayClick_follows_mark (allRecords : list TrainingRecord.t)
    (year month day : Z) (st : PageState.t) :
  let dateStr := calendarDateStr year month day in
  (dateStr ∈ recordDates allRecords →
     ∃ r, head (getRecordsForDate allRecords year month day) = Some r
          ∧ r ∈ allRecords ∧ TrainingRecord.date r = dateStr
          ∧ handleDayClick allRecords year month st day =
              PageState.mk (PageState.selectedDate st) (PageState.isRecordModalOpen st)
                (PageState.editingRecord st)
                (PageState.expandedCards st ∪ {[TrainingRecord.id r]}))
  ∧ (dateStr ∉ recordDates allRecords →
       handleDayClick allRecords year month st day =
         PageState.mk (Some dateStr) true None (PageState.expandedCards st)).
Proof.
  intros dateStr. unfold handleDayClick, getRecordsForDate. fold dateStr.
  rewrite find_head_filter. split.
  - intros Hin.
    destruct (List.filter _ allRecords) as [|r l] eqn:Hf.
    { apply filter_date_nil in Hf. done. }
    simpl. exists r. split_and!; [done| | |done].
    + assert (In r (r :: l)) as Hr by (by left). rewrite <- Hf in Hr.
      apply filter_In in Hr as [Hr _]. by apply list_elem_of_In.
    + assert (In r (r :: l)) as Hr by (by left). rewrite <- Hf in Hr.
      apply filter_In in Hr as [_ Hd]. by apply bool_decide_eq_true in Hd.
  - intros Hno. apply filter_date_nil in Hno. by rewrite Hno.
Qed.

Lemma handleDayClick_follows_mark_witness :
  ∃ r, head (getRecordsForDate squatRecords 2024 0 8) = Some r
       ∧ r ∈ squatRecords ∧ TrainingRecord.date r = calendarDateStr 2024 0 8
       ∧ handleDayClick squatRecords 2024 0 (PageState.mk None false None ∅) 8 =
           PageState.mk None false None (∅ ∪ {[TrainingRecord.id r]}).
Proof.
  destruct (handleDayClick_follows_mark squatRecords 2024 0 8 (PageState.mk None false None ∅))
    as [H _].
  apply H. apply elem_of_list_to_set.
  change ("2024-01-08" ∈ ["2024-01-08"; "2024-01-01"]). left.
Defined.

(** X20: toggling a card twice gives back the set of expanded cards; one
    toggle flips whether that card is expanded and leaves every other card
    as it is. *)
Theorem toggleCardExpand_flips (recordId : Z) (prev : gset Z) :
  toggleCardExpand recordId (toggleCardExpand recordId prev) = prev
  ∧ (recordId ∈ toggleCardExpand recordId prev ↔ recordId ∉ prev)
  ∧ (∀ other, other ≠ recordId → other ∈ toggleCardExpand recordId prev ↔ other ∈ prev).
Proof.
  assert (∀ x, x ∈ toggleCardExpand recordId prev ↔
               (x = recordId ∧ recordId ∉ prev) ∨ (x ≠ recordId ∧ x ∈ prev)) as Hmem.
  { intros x. unfold toggleCardExpand. case_bool_decide as H.
    - rewrite elem_of_difference, elem_of_singleton. split.
      + intros [? ?]. by right.
      + intros [[-> ?]|[? ?]]; done.
    - rewrite elem_of_union, elem_of_singleton. split.
      + intros [? | ->]; [|by left]. right. split; [|done]. by intros ->.
      + intros [[-> ?]|[? ?]]; [by right|by left]. }
  split; [|split].
  - apply set_eq. intros x. unfold toggleCardExpand at 1.
    case_bool_decide as H.
    + rewrite elem_of_difference, elem_of_singleton, Hmem.
      apply Hmem in H as [[_ H]|[? _]]; [|done]. split.
      * by intros [[[-> ?]|[? ?]] ?].
      * intros Hx. split; [right; split; [by intros ->|done]|by intros ->].
    + rewrite elem_of_union, elem_of_singleton, Hmem.
      assert (recordId ∈ prev) as Hin.
      { destruct (decide (recordId ∈ prev)) as [?|Hno]; [done|].
        exfalso. apply H, Hmem. by left. }
      split.
      * intros [[[-> ?]|[? ?]] | ->]; done.
      * intros Hx. destruct (decide (x = recordId)) as [->|Hne]; [by right|].
        left. by right.
  - rewrite Hmem. split; [by intros [[_ ?]|[? _]]|by left].
  - intros other Hne. rewrite Hmem. split; [by intros [[? _]|[_ ?]]|by right].
Qed.

(** * Properties of the toast notifications *)

Lemma toastId_inj k k' : toastId k = toastId k' → k = k'.
Proof.
  unfold toastId. intros H. apply (inj (String.app "toast-")) in H. by apply (inj pretty).
Qed.

Lemma filter_negb_fresh (id : string) (l : list Toast.t) :
  (∀ t, t ∈ l → Toast.id t ≠ id) →
  List.filter (λ t, negb (bool_decide (Toast.id t = id))) l = l.
Proof.
  induction l as [|t l IH]; intros H; simpl; [done|].
  rewrite bool_decide_eq_false_2 by (apply H; left). simpl. f_equal.
  apply IH. intros t' Ht'. apply H. by right.
Qed.

Lemma toastStep_fresh st a : toastsFresh st → toastsFresh (toastStep st a).
Proof.
  intros [Hids Hnodup]. destruct a as [message type|id]; simpl.
  - split; simpl.
    + intros t [Ht| ->%list_elem_of_singleton]%elem_of_app.
      * destruct (Hids t Ht) as (k & Hk & ?). exists k. split; [done|lia].
      * eexists. split; [done|lia].
    + rewrite fmap_app. apply NoDup_app. split_and!; [done| |by apply NoDup_singleton].
      intros x (t & Hx & Ht)%list_elem_of_fmap Hnew%list_elem_of_singleton.
      destruct (Hids t Ht) as (k & Hk & ?). simpl in Hnew.
      rewrite Hx, Hk in Hnew. apply toastId_inj in Hnew. lia.
  - split; simpl.
    + intros t Ht%list_elem_of_In. apply filter_In in Ht as [Ht%list_elem_of_In _].
      by apply Hids.
    + clear Hids. induction (ToastState.toasts st) as [|t l IH]; simpl; [done|].
      apply NoDup_cons in Hnodup as [Hnotin Hnodup].
      destruct (negb _); simpl; [|by apply IH].
      apply NoDup_cons. split; [|by apply IH].
      intros (t' & Heq & Ht'%list_elem_of_In)%list_elem_of_fmap.
      apply filter_In in Ht' as [Ht'%list_elem_of_In _].
      apply Hnotin, list_elem_of_fmap. eauto.
Qed.

Lemma toasts_reachable_fresh (actions : list ToastAction) :
  toastsFresh (foldl toastStep initialToasts actions).
Proof.
  assert (toastsFresh initialToasts) as H0.
  { split; simpl; [by intros t ?%elem_of_nil|constructor]. }
  revert H0. generalize initialToasts.
  induction actions as [|a actions IH]; intros st Hst; simpl; [done|].
  by apply IH, toastStep_fresh.
Qed.

(** X21: whatever toasts were shown and removed before, no two toasts in the
    store have the same id, the id a call of [showToast] gives to its toast
    is the id of no toast already there, and so the removal it schedules,
    run right after the call, takes away the new toast and only it. *)
Theorem showToast_id_is_fresh (actions : list ToastAction) (message : string)
    (type : option ToastType) :
  let st := foldl toastStep initialToasts actions in
  let st' := (showToast message type st).1 in
  let id := (showToast message type st).2 in
  NoDup (Toast.id <$> ToastState.toasts st)
  ∧ (∀ t, t ∈ ToastState.toasts st → Toast.id t ≠ id)
  ∧ ToastState.toasts (removeToast id st') = ToastState.toasts st.
Proof.
  intros st st' id. destruct (toasts_reachable_fresh actions) as [Hids Hnodup].
  fold st in Hids, Hnodup.
  assert (∀ t, t ∈ ToastState.toasts st → Toast.id t ≠ id) as Hfresh.
  { intros t Ht Heq. destruct (Hids t Ht) as (k & Hk & ?). subst id. simpl in Heq.
    rewrite Hk in Heq. apply toastId_inj in Heq. lia. }
  split_and!; [done..|].
  subst st' id. simpl. rewrite List.filter_app. simpl.
  rewrite bool_decide_eq_true_2 by done. simpl. rewrite app_nil_r.
  by apply filter_negb_fresh.
Qed.

(** * Current records *)

Lemma leadersUnique_ext st st' :
  prData st' = prData st →
  (∀ n, maxWeightByExercise st' !! n = maxWeightByExercise st !! n) →
  (∀ n, maxRepsAtMaxWeight st' !! n = maxRepsAtMaxWeight st !! n) →
  leadersUnique st → leadersUnique st'.
Proof.
  intros Hp Hw Hr H n mx mr. rewrite Hp, Hw, Hr. apply H.
Qed.

Lemma entry_weight_le st k pr mx :
  weightsBounded st → prData st !! k = Some pr →
  maxWeightByExercise st !! PRInfo.exercise pr = Some mx →
  (PRInfo.weight pr ≤ mx)%Qc.
Proof.
  intros [_ Hent] Hpr Hmx. destruct (Hent k pr Hpr) as (mx' & Hmx' & _ & Hle). congruence.
Qed.

Lemma initExercise_leadersUnique st n' :
  sameNames st → weightsBounded st → leadersUnique st →
  leadersUnique (initExercise n' st).
Proof.
  intros Hsame Hb Hu. unfold initExercise.
  destruct (Js.falsy (Js.read (maxWeightByExercise st) n')) eqn:Hf; [|done].
  assert (∀ k pr, prData st !! k = Some pr → PRInfo.exercise pr = n' →
                  (PRInfo.weight pr ≤ 0)%Qc
                  ∧ ∃ mr0, maxWeightByExercise st !! n' = Some 0%Qc
                           ∧ maxRepsAtMaxWeight st !! n' = Some mr0) as Hzero.
  { intros k pr Hpr Hex. destruct Hb as [Hmax Hent].
    destruct (Hent k pr Hpr) as (mx0 & Hmx0 & _ & Hle). rewrite Hex in Hmx0.
    rewrite (read_Some _ _ _ Hmx0) in Hf. simpl in Hf. apply bool_decide_eq_true in Hf.
    subst mx0.
    split; [done|]. destruct (proj1 (Hsame n')) as [mr0 Hmr0]; [by eexists|]. eauto. }
  intros n mx mr. simpl. rewrite !lookup_insert.
  case_decide as Hn; [subst n|apply Hu]. intros [= <-] [= <-]. split_and!.
  - intros k pr Hpr Hex Hpos. destruct (Hzero k pr Hpr Hex) as [Hle _].
    by apply Qcle_not_lt in Hle.
  - intros ???? _ _ _ _ Hpos. by apply Qclt_not_eq in Hpos.
  - intros k pr Hpr Hex Hm. destruct (Hzero k pr Hpr Hex) as (_ & mr0 & Hw0 & Hr0).
    destruct (Hu n' _ _ Hw0 Hr0) as (_ & _ & H3 & _). by eapply H3.
  - intros k1 k2 pr1 pr2 Hpr1 _ Hex1 _ Hm1 _ Hw1 _.
    destruct (Hzero k1 pr1 Hpr1 Hex1) as (_ & mr0 & Hw0 & Hr0).
    destruct (Hu n' _ _ Hw0 Hr0) as (_ & _ & H3 & _).
    specialize (H3 k1 pr1 Hpr1 Hex1 Hm1). rewrite Hw1 in H3. by apply Qclt_not_eq in H3.
Qed.

Lemma processSet_leadersUnique st d n' i s :
  sameNames st → weightsBounded st → leadersUnique st →
  leadersUnique (processSet d n' st s i).
Proof.
  intros Hsame Hb Hu.
  destruct (maxWeightByExercise st !! n') as [q|] eqn:Hq;
    [|by rewrite processSet_not_own].
  destruct (proj1 (Hsame n')) as [z Hz]; [by eexists|].
  unfold processSet. rewrite (read_Some _ _ _ Hq), (read_Some _ _ _ Hz). simpl.
  pose proof (proj1 Hb _ _ Hq) as Hq0.
  destruct (Hu n' q z Hq Hz) as (H1 & H2 & H3 & H4).
  set (w := TrainingSet.weight s). set (r := TrainingSet.reps s).
  set (k := getPRKey d n' i).
  case_bool_decide as Hgt; simpl.
  - (* new maximum weight *)
    intros n mx mr. simpl. rewrite !(lookup_insert (M:=gmap string)).
    case_decide as Hn.
    + subst n. intros [= <-] [= <-].
      assert (∀ k0 pr, prData st !! k0 = Some pr → PRInfo.exercise pr = n' →
                       (PRInfo.weight pr < w)%Qc) as Hold.
      { intros k0 pr Hpr Hex. eapply Qcle_lt_trans; [|exact Hgt].
        eapply entry_weight_le; [done..|]. by rewrite Hex. }
      split_and!.
      * intros k0 pr. rewrite lookup_insert. case_decide.
        -- intros [= <-] _ _. right. simpl. split; [done|lia].
        -- intros Hpr Hex _. left. by eapply Hold.
      * intros k1 k2 pr1 pr2. rewrite !lookup_insert.
        repeat case_decide; subst; try done.
        -- intros _ Hpr2 _ Hex2 _ _ Hw2 _ _.
           specialize (Hold _ _ Hpr2 Hex2). rewrite Hw2 in Hold. by apply Qclt_not_eq in Hold.
        -- intros Hpr1 _ Hex1 _ _ Hw1 _ _ _.
           specialize (Hold _ _ Hpr1 Hex1). rewrite Hw1 in Hold. by apply Qclt_not_eq in Hold.
        -- intros Hpr1 _ Hex1 _ _ Hw1 _ _ _.
           specialize (Hold _ _ Hpr1 Hex1). rewrite Hw1 in Hold. by apply Qclt_not_eq in Hold.
      * intros k0 pr. rewrite lookup_insert. case_decide.
        -- intros [= <-] _ _. simpl. by eapply Qcle_lt_trans.
        -- apply H3.
      * intros k1 k2 pr1 pr2. rewrite !lookup_insert.
        repeat case_decide; subst; try done.
        -- intros _ Hpr2 _ Hex2 _ _ _ Hw2.
           specialize (Hold _ _ Hpr2 Hex2). rewrite Hw2 in Hold. by apply Qclt_not_eq in Hold.
        -- intros Hpr1 _ Hex1 _ _ _ Hw1 _.
           specialize (Hold _ _ Hpr1 Hex1). rewrite Hw1 in Hold. by apply Qclt_not_eq in Hold.
        -- intros Hpr1 _ Hex1 _ _ _ Hw1 _.
           specialize (Hold _ _ Hpr1 Hex1). rewrite Hw1 in Hold. by apply Qclt_not_eq in Hold.
    + intros Hmx Hmr. destruct (Hu n mx mr Hmx Hmr) as (G1 & G2 & G3 & G4).
      split_and!.
      * intros k0 pr. rewrite lookup_insert. case_decide; [by intros [= <-] ?|apply G1].
      * intros k1 k2 pr1 pr2. rewrite !lookup_insert.
        repeat case_decide; try (by intros [= <-] ? ?); try (by intros ? [= <-] ? ?).
        apply G2.
      * intros k0 pr. rewrite lookup_insert. case_decide; [by intros [= <-] ?|apply G3].
      * intros k1 k2 pr1 pr2. rewrite !lookup_insert.
        repeat case_decide; try (by intros [= <-] ? ?); try (by intros ? [= <-] ? ?).
        apply G4.
  - case_bool_decide as Heq; simpl; [|done].
    case_bool_decide as Hr; simpl; [|done].
    (* more repetitions at the maximum weight *)
    intros n mx mr. simpl. rewrite (lookup_insert (M:=gmap string)).
    case_decide as Hn.
    + subst n. rewrite Hq. intros [= <-] [= <-]. split_and!.
      * intros k0 pr. rewrite lookup_insert. case_decide.
        -- intros [= <-] _ _. right. simpl. split; [done|lia].
        -- intros Hpr Hex Hpos. destruct (H1 _ _ Hpr Hex Hpos) as [?|[? ?]]; [by left|].
           right. split; [done|]. fold r. lia.
      * intros k1 k2 pr1 pr2. rewrite !lookup_insert.
        repeat case_decide; subst; try done.
        -- intros _ Hpr2 _ Hex2 Hpos _ Hw2 _ Hr2.
           destruct (H1 _ _ Hpr2 Hex2) as [Hlt|[_ Hle]]; [by rewrite Hw2| |fold r in Hr2; lia].
           rewrite Hw2 in Hlt. by apply Qclt_not_eq in Hlt.
        -- intros Hpr1 _ Hex1 _ Hpos Hw1 _ Hr1 _.
           destruct (H1 _ _ Hpr1 Hex1) as [Hlt|[_ Hle]]; [by rewrite Hw1| |fold r in Hr1; lia].
           rewrite Hw1 in Hlt. by apply Qclt_not_eq in Hlt.
        -- intros Hpr1 _ Hex1 _ Hpos Hw1 _ Hr1 _.
           destruct (H1 _ _ Hpr1 Hex1) as [Hlt|[_ Hle]]; [by rewrite Hw1| |fold r in Hr1; lia].
           rewrite Hw1 in Hlt. by apply Qclt_not_eq in Hlt.
      * intros k0 pr. rewrite lookup_insert. case_decide; [by intros [= <-]|apply H3].
      * intros k1 k2 pr1 pr2. rewrite !lookup_insert.
        repeat case_decide; try (by intros [= <-]); try (by intros ? [= <-]).
        apply H4.
    + intros Hmx Hmr. destruct (Hu n mx mr Hmx Hmr) as (G1 & G2 & G3 & G4).
      split_and!.
      * intros k0 pr. rewrite lookup_insert. case_decide; [by intros [= <-] ?|apply G1].
      * intros k1 k2 pr1 pr2. rewrite !lookup_insert.
        repeat case_decide; try (by intros [= <-] ? ?); try (by intros ? [= <-] ? ?).
        apply G2.
      * intros k0 pr. rewrite lookup_insert. case_decide; [by intros [= <-] ?|apply G3].
      * intros k1 k2 pr1 pr2. rewrite !lookup_insert.
        repeat case_decide; try (by intros [= <-] ? ?); try (by intros ? [= <-] ? ?).
        apply G4.
Qed.

Lemma replay_leadersUnique records :
  sameNames (replay records) ∧ weightsBounded (replay records)
  ∧ leadersUnique (replay records).
Proof.
  apply (replay_invariant (λ st, sameNames st ∧ weightsBounded st ∧ leadersUnique st)).
  - unfold initialState. split_and!.
    + intros n. simpl. by rewrite !lookup_empty.
    + split; intros ? ?; simpl; by rewrite lookup_empty.
    + intros n mx mr. simpl. by rewrite lookup_empty.
  - intros st ev (Hsame & Hb & Hu). split_and!.
    + by destruct (step_names st ev "" Hsame).
    + by apply step_weightsBounded.
    + destruct ev; simpl; [by apply initExercise_leadersUnique|].
      by apply processSet_leadersUnique.
Qed.

(** X22: in the map returned by [calculatePRs] at most one entry of an
    exercise name is marked isCurrentMaxPR, and among the entries of an
    exercise name with a weight above zero at most one is marked
    isCurrentRepPR. *)
Theorem calculatePRs_current_unique (E : Engine.t) (records : list TrainingRecord.t)
    (k1 k2 : string) (pr1 pr2 : PRInfo.t) :
  prData (calculatePRs E records) !! k1 = Some pr1 →
  prData (calculatePRs E records) !! k2 = Some pr2 →
  PRInfo.exercise pr1 = PRInfo.exercise pr2 →
  (PRInfo.isCurrentMaxPR pr1 = Some true → PRInfo.isCurrentMaxPR pr2 = Some true → k1 = k2)
  ∧ ((0 < PRInfo.weight pr1)%Qc →
     PRInfo.isCurrentRepPR pr1 = Some true → PRInfo.isCurrentRepPR pr2 = Some true →
     k1 = k2).
Proof.
  intros (p1 & Hp1 & ->)%calculatePRs_lookup (p2 & Hp2 & ->)%calculatePRs_lookup.
  set (st := replay (sortByDate E records)) in *.
  set (mw := maxWeightByExercise st). set (mr := maxRepsAtMaxWeight st).
  destruct (replay_leadersUnique (sortByDate E records)) as (Hsame & Hb & Hu).
  fold st in Hsame, Hb, Hu.
  pose proof (replay_entries _ _ _ Hp1) as He1. pose proof (replay_entries _ _ _ Hp2) as He2.
  destruct (markCurrent_current mw mr p1 He1) as [Hcm1 Hcr1].
  destruct (markCurrent_current mw mr p2 He2) as [Hcm2 Hcr2].
  destruct (markCurrent_flags mw mr p1) as (_ & _ & -> & -> & _).
  destruct (markCurrent_flags mw mr p2) as (_ & _ & -> & _).
  intros Hex. split.
  - intros (_ & Hm1 & Hw1)%Hcm1 (_ & Hm2 & Hw2)%Hcm2.
    destruct (proj1 (Hsame (PRInfo.exercise p1))) as [z Hz]; [by eexists|].
    destruct (Hu _ _ _ Hw1 Hz) as (_ & _ & _ & H4).
    apply (H4 k1 k2 p1 p2); try done. rewrite Hex in Hw1. unfold mw in *. congruence.
  - intros Hpos (_ & Hw1 & Hr1)%Hcr1 (_ & Hw2 & Hr2)%Hcr2.
    destruct (Hu _ _ _ Hw1 Hr1) as (_ & H2 & _ & _).
    apply (H2 k1 k2 p1 p2); try done.
    + rewrite Hex in Hw1. unfold mw in *. congruence.
    + rewrite Hex in Hr1. unfold mr in *. congruence.
Qed.

Lemma calculatePRs_current_unique_witness :
  "2024-01-08_Squat_0" = "2024-01-08_Squat_0".
Proof.
  destruct (calculatePRs_current_unique referenceEngine squatRecords
              "2024-01-08_Squat_0" "2024-01-08_Squat_0"
              (PRInfo.mk (Some true) (Some true) (Some true) (Some true)
                 "2024-01-08" "Squat" (kg 110) 5 0)
              (PRInfo.mk (Some true) (Some true) (Some true) (Some true)
                 "2024-01-08" "Squat" (kg 110) 5 0)) as [H _]; [reflexivity..|].
  by apply H.
Defined.

Lemma omap_eventKey_bind {A : Type} (f : A → list Event) (l : list A) :
  omap eventKey (l ≫= f) = l ≫= λ x, omap eventKey (f x).
Proof.
  induction l as [|x l IH]; [done|]. csimpl. by rewrite omap_app, IH.
Qed.

Lemma eventKeys_exercise d ex :
  omap eventKey (exerciseEvents d ex) = setKey d <$> exerciseSets ex.
Proof.
  unfold exerciseEvents. cbn [omap list_omap eventKey].
  induction (exerciseSets ex) as [|p l IH]; [done|]. csimpl. by rewrite <- IH.
Qed.

Lemma eventKeys_record r :
  omap eventKey (recordEvents r) = setKey (TrainingRecord.date r) <$> recordSets r.
Proof.
  unfold recordEvents, recordSets.
  induction (optList (TrainingRecord.exercises r)) as [|ex exs IH]; [done|].
  by rewrite !bind_cons, omap_app, fmap_app, IH, eventKeys_exercise.
Qed.

Lemma eventKeys_events records : omap eventKey (events records) = allKeys records.
Proof.
  unfold events, allKeys.
  induction records as [|r records IH]; [done|].
  by rewrite !bind_cons, omap_app, IH, eventKeys_record.
Qed.

Lemma allKeys_Permutation l1 l2 : l1 ≡ₚ l2 → allKeys l1 ≡ₚ allKeys l2.
Proof. intros H. unfold allKeys. by rewrite H. Qed.

Lemma step_prData_dom st ev k :
  prData st !! k = None → eventKey ev ≠ Some k → prData (step st ev) !! k = None.
Proof.
  intros Hk Hne. destruct ev as [n|d n i s]; simpl.
  - unfold initExercise. by destruct (Js.falsy _).
  - simpl in Hne.
    destruct (processSet_prData d n st s i) as [->|[[_ ->]|[_ ->]]]; [done|..];
      rewrite lookup_insert_ne; congruence.
Qed.

Lemma step_hasLeaders st ev :
  (∀ k, eventKey ev = Some k → prData st !! k = None) →
  sameNames st → hasLeaders st → hasLeaders (step st ev).
Proof.
  intros Hfresh Hsame Hl. destruct ev as [n'|d n' i s]; simpl.
  - unfold initExercise. destruct (Js.falsy _); [|done].
    intros n mx mr. simpl. rewrite !lookup_insert. case_decide; [|apply Hl].
    intros [= <-] _ Hpos. by apply Qclt_not_eq in Hpos.
  - specialize (Hfresh _ eq_refl).
    destruct (maxWeightByExercise st !! n') as [q|] eqn:Hq;
      [|by rewrite processSet_not_own].
    destruct (proj1 (Hsame n')) as [z Hz]; [by eexists|].
    unfold processSet. rewrite (read_Some _ _ _ Hq), (read_Some _ _ _ Hz). simpl.
    assert (∀ k pr, prData st !! k = Some pr → k ≠ getPRKey d n' i) as Hne
      by (intros k pr Hpr ->; congruence).
    case_bool_decide as Hgt; simpl.
    + intros n mx mr. simpl. rewrite !(lookup_insert (M:=gmap string)). case_decide as Hn.
      * subst n. intros [= <-] [= <-] _.
        split; eexists _, _; rewrite lookup_insert_eq; done.
      * intros Hmx Hmr Hpos.
        destruct (Hl n mx mr Hmx Hmr Hpos) as [(k1 & p1 & Hp1 & ?) (k2 & p2 & Hp2 & ?)].
        split; [exists k1, p1|exists k2, p2]; (split; [|done]);
          rewrite lookup_insert_ne; [done| |done|]; apply not_eq_sym; by eapply Hne.
    + case_bool_decide as Heq; simpl; [|done].
      case_bool_decide as Hr; simpl; [|done].
      intros n mx mr. simpl. rewrite (lookup_insert (M:=gmap string)). case_decide as Hn.
      * subst n. rewrite Hq. intros [= <-] [= <-] Hpos.
        destruct (Hl n' q z Hq Hz Hpos) as [(k1 & p1 & Hp1 & ?) _]. split.
        -- exists k1, p1. split; [|done]. rewrite lookup_insert_ne; [done|].
           apply not_eq_sym. by eapply Hne.
        -- eexists _, _. rewrite lookup_insert_eq. done.
      * intros Hmx Hmr Hpos.
        destruct (Hl n mx mr Hmx Hmr Hpos) as [(k1 & p1 & Hp1 & ?) (k2 & p2 & Hp2 & ?)].
        split; [exists k1, p1|exists k2, p2]; (split; [|done]);
          rewrite lookup_insert_ne; [done| |done|]; apply not_eq_sym; by eapply Hne.
Qed.

Lemma foldl_step_hasLeaders evs st :
  NoDup (omap eventKey evs) →
  (∀ k, k ∈ omap eventKey evs → prData st !! k = None) →
  sameNames st → hasLeaders st → hasLeaders (foldl step st evs).
Proof.
  revert st. induction evs as [|ev evs IH]; intros st Hnodup Hfresh Hsame Hl; [done|].
  cbn [foldl]. cbn [omap list_omap] in Hnodup, Hfresh.
  fold (omap eventKey evs) in Hnodup, Hfresh.
  apply IH.
  - destruct (eventKey ev); [by apply NoDup_cons in Hnodup as [_ ?]|done].
  - intros k Hk. apply step_prData_dom.
    + apply Hfresh. destruct (eventKey ev); [by right|done].
    + intros Hev. rewrite Hev in Hnodup. by apply NoDup_cons in Hnodup as [? _].
  - by destruct (step_names st ev "" Hsame).
  - apply step_hasLeaders; [|done..]. intros k Hev. apply Hfresh. rewrite Hev. by left.
Qed.

(** X23: where no two sets of the records share a key, every exercise with a
    name and a maximum weight above zero has, in the map returned by
    [calculatePRs], an entry at that weight marked isCurrentMaxPR and an
    entry at that weight marked isCurrentRepPR. *)
Theorem calculatePRs_current_exists (E : Engine.t) (records : list TrainingRecord.t) (name : string)
    (mx : Qc) :
  NoDup (allKeys records) →
  name ≠ "" →
  maxWeightByExercise (calculatePRs E records) !! name = Some mx →
  (0 < mx)%Qc →
  (∃ k pr, prData (calculatePRs E records) !! k = Some pr ∧ PRInfo.exercise pr = name
           ∧ PRInfo.weight pr = mx ∧ PRInfo.isCurrentMaxPR pr = Some true)
  ∧ (∃ k pr, prData (calculatePRs E records) !! k = Some pr ∧ PRInfo.exercise pr = name
             ∧ PRInfo.weight pr = mx ∧ PRInfo.isCurrentRepPR pr = Some true).
Proof.
  intros Hnodup Hname Hmx Hpos. unfold calculatePRs in *. simpl in *.
  set (st := replay (sortByDate E records)) in *.
  destruct (replay_leadersUnique (sortByDate E records)) as (Hsame & _ & _). fold st in Hsame.
  assert (hasLeaders st) as Hl.
  { subst st. rewrite replay_events. apply foldl_step_hasLeaders.
    - rewrite eventKeys_events. by rewrite (allKeys_Permutation _ _ (sortByDate_Permutation E _)).
    - intros k _. unfold initialState. simpl. by rewrite lookup_empty.
    - intros n. unfold initialState. simpl. by rewrite !lookup_empty.
    - intros n ? ?. unfold initialState. simpl. by rewrite lookup_empty. }
  destruct (proj1 (Hsame name)) as [mr Hmr]; [by eexists|].
  destruct (Hl name mx mr Hmx Hmr Hpos)
    as [(k1 & p1 & Hp1 & Hex1 & Hw1 & Hm1) (k2 & p2 & Hp2 & Hex2 & Hw2 & Hr2)].
  set (mw := maxWeightByExercise st) in *. set (mrs := maxRepsAtMaxWeight st) in *.
  split.
  - exists k1, (markCurrent mw mrs p1). rewrite lookup_fmap, Hp1. simpl.
    destruct (markCurrent_flags mw mrs p1) as (_ & _ & -> & -> & _).
    split_and!; [done..|].
    apply (markCurrent_current mw mrs p1); [by eapply replay_entries|].
    rewrite Hex1, Hw1. done.
  - exists k2, (markCurrent mw mrs p2). rewrite lookup_fmap, Hp2. simpl.
    destruct (markCurrent_flags mw mrs p2) as (_ & _ & -> & -> & _).
    split_and!; [done..|].
    apply (markCurrent_current mw mrs p2); [by eapply replay_entries|].
    rewrite Hex2, Hw2, Hr2. done.
Qed.

Lemma calculatePRs_current_exists_witness :
  (∃ k pr, prData (calculatePRs referenceEngine benchRepRecords) !! k = Some pr
           ∧ PRInfo.exercise pr = "Bench Press"
           ∧ PRInfo.weight pr = kg 100 ∧ PRInfo.isCurrentMaxPR pr = Some true)
  ∧ (∃ k pr, prData (calculatePRs referenceEngine benchRepRecords) !! k = Some pr
             ∧ PRInfo.exercise pr = "Bench Press"
             ∧ PRInfo.weight pr = kg 100 ∧ PRInfo.isCurrentRepPR pr = Some true).
Proof.
  apply calculatePRs_current_exists.
  - apply (bool_decide_unpack _). reflexivity.
  - done.
  - reflexivity.
  - reflexivity.
Defined.

(** ** When keys are shared by no two sets *)

Lemma NoDup_fmap_inj_on {A B : Type} (f : A → B) (l : list A) x y :
  NoDup (f <$> l) → x ∈ l → y ∈ l → f x = f y → x = y.
Proof.
  intros Hnodup [i Hi]%list_elem_of_lookup [j Hj]%list_elem_of_lookup Heq.
  assert (i = j) as ->; [|congruence].
  eapply NoDup_lookup; [exact Hnodup| |].
  - rewrite list_lookup_fmap, Hi. simpl. reflexivity.
  - rewrite list_lookup_fmap, Hj. simpl. by rewrite Heq.
Qed.

Lemma indexedFrom_fst {A : Type} (i : nat) (xs : list A) :
  (indexedFrom i xs).*1 = seq i (length xs).
Proof. revert i. induction xs as [|x xs IH]; intros i; simpl; [done|]. by rewrite IH. Qed.

Lemma exerciseSets_positions ex :
  (λ p, (p.1.1, p.1.2)) <$> exerciseSets ex
  = (λ i, (TrainingRecordExercise.name ex, i))
      <$> seq 0 (length (optList (TrainingRecordExercise.sets ex))).
Proof.
  unfold exerciseSets. rewrite <- indexedFrom_fst, <- !list_fmap_compose. done.
Qed.

Lemma recordSets_positions_NoDup r :
  NoDup (TrainingRecordExercise.name <$> optList (TrainingRecord.exercises r)) →
  NoDup ((λ p, (p.1.1, p.1.2)) <$> recordSets r).
Proof.
  unfold recordSets. induction (optList (TrainingRecord.exercises r)) as [|ex exs IH];
    intros Hnodup; [constructor|].
  rewrite fmap_cons in Hnodup. apply NoDup_cons in Hnodup as [Hnotin Hnodup].
  rewrite bind_cons, fmap_app. apply NoDup_app. split_and!.
  - rewrite exerciseSets_positions. apply NoDup_fmap_2; [|apply NoDup_seq].
    by intros ?? [=].
  - intros [n i]. rewrite exerciseSets_positions.
    intros (i' & [= -> ->] & _)%list_elem_of_fmap
      ([[n' j] s] & [= Hn _] & Hin)%list_elem_of_fmap. simpl in Hn.
    apply list_elem_of_bind in Hin as (ex' & Hin & Hex').
    apply exerciseSets_name in Hin. apply Hnotin, list_elem_of_fmap. exists ex'.
    split; [congruence|done].
  - by apply IH.
Qed.

(** X24: for records with pairwise distinct calendar dates, in none of which
    an exercise name occurs twice, no two sets have the same key, so no
    entry of the map is overwritten by the entry of another set. *)
Theorem allKeys_NoDup (records : list TrainingRecord.t) :
  Forall validDate records →
  NoDup (TrainingRecord.date <$> records) →
  (∀ r, r ∈ records →
        NoDup (TrainingRecordExercise.name <$> optList (TrainingRecord.exercises r))) →
  NoDup (allKeys records).
Proof.
  intros Hvalid Hdates Hnames. rewrite Forall_forall in Hvalid.
  unfold allKeys. apply NoDup_bind.
  - intros r1 r2 key Hr1 Hr2 (p1 & -> & _)%list_elem_of_fmap (p2 & Hkey & _)%list_elem_of_fmap.
    apply getPRKey_inj in Hkey as (Hd & _); [|by apply Hvalid..].
    by eapply NoDup_fmap_inj_on.
  - intros r Hr.
    assert (setKey (TrainingRecord.date r) <$> recordSets r =
            (λ q : string * nat, getPRKey (TrainingRecord.date r) q.1 q.2)
              <$> ((λ p, (p.1.1, p.1.2)) <$> recordSets r)) as ->
      by (by rewrite <- list_fmap_compose).
    apply NoDup_fmap_2_strong; [|by apply recordSets_positions_NoDup, Hnames].
    intros [n i] [n' i'] _ _ Hkey. simpl in Hkey.
    apply getPRKey_inj in Hkey as (_ & -> & ->); [done|by apply Hvalid..].
  - by eapply NoDup_fmap_1.
Qed.

Lemma allKeys_NoDup_witness : NoDup (allKeys benchRepRecords).
Proof.
  apply allKeys_NoDup.
  - repeat constructor; by eexists.
  - apply (bool_decide_unpack _). reflexivity.
  - intros r Hr. repeat (apply elem_of_cons in Hr as [->|Hr]);
      [apply (bool_decide_unpack _); reflexivity..|by apply elem_of_nil in Hr].
Defined.

(** * The maxima and repeated sets, for weights above zero *)

(** X25: a maximum weight above zero returned by [calculatePRs] for an
    exercise name is the greatest weight among all sets of that name, and
    the repetitions returned with it are the most repetitions among the sets
    of that name that have this weight. *)
Theorem calculatePRs_maxima_sound (E : Engine.t) (records : list TrainingRecord.t) (name : string)
    (mx : Qc) :
  maxWeightByExercise (calculatePRs E records) !! name = Some mx →
  (0 < mx)%Qc →
  isMaxWeight mx (setsOf name records)
  ∧ ∃ r, maxRepsAtMaxWeight (calculatePRs E records) !! name = Some r
         ∧ isMaxRepsAt mx r (setsOf name records).
Proof.
  unfold calculatePRs. simpl. intros Hmx Hpos.
  pose proof (setsOf_sortByDate E name records) as Hperm.
  destruct (replay_maximaOf name (sortByDate E records))
    as [(Hnone & _)|[(mr & Hzero & _)|(mx' & mr & Hw & Hr & _ & Hmw & Hmr)]].
  - congruence.
  - rewrite Hzero in Hmx. injection Hmx as <-. by apply Qclt_not_eq in Hpos.
  - rewrite Hw in Hmx. injection Hmx as ->.
    destruct Hmw as [(s & Hs & Hsw) Hle], Hmr as [(s' & Hs' & Hs'w) Hle']. split.
    + split; [exists s; by rewrite <- Hperm|]. intros s0 Hs0. apply Hle. by rewrite Hperm.
    + exists mr. split; [done|]. split; [exists s'; by rewrite <- Hperm|].
      intros s0 Hs0. apply Hle'. by rewrite Hperm.
Qed.

Lemma calculatePRs_maxima_sound_witness :
  isMaxWeight (kg 110) (setsOf "Squat" squatRecords)
  ∧ ∃ r, maxRepsAtMaxWeight (calculatePRs referenceEngine squatRecords) !! "Squat" = Some r
         ∧ isMaxRepsAt (kg 110) r (setsOf "Squat" squatRecords).
Proof. apply calculatePRs_maxima_sound; reflexivity. Defined.


Lemma initFirst_app l1 l2 : initFirst l1 → initFirst l2 → initFirst (l1 ++ l2).
Proof.
  intros H1 H2 pre d n i s post Heq.
  apply app_eq_app in Heq as [l [[-> Hl]|[-> Hl]]].
  - destruct l as [|ev l]; simpl in Hl.
    + specialize (H2 [] d n i s post (eq_sym Hl)). by apply elem_of_nil in H2.
    + injection Hl as <- ->. by eapply (H1 pre d n i s).
  - apply elem_of_app. right. by eapply H2.
Qed.

Lemma initFirst_exercise d ex : initFirst (exerciseEvents d ex).
Proof.
  intros pre d' n i s post Heq. unfold exerciseEvents in Heq.
  destruct pre as [|ev pre]; [done|]. injection Heq as <- Heq.
  assert (ProcessSet d' n i s ∈ exerciseEvents d ex) as Hin.
  { unfold exerciseEvents. rewrite Heq. right. apply elem_of_app. right. by left. }
  apply elem_of_exerciseEvents in Hin as [[=]|([[n' i'] s'] & Hp & [= -> -> -> ->])].
  apply exerciseSets_name in Hp as ->. by left.
Qed.

Lemma initFirst_events records : initFirst (events records).
Proof.
  unfold events. induction records as [|r records IH].
  - intros pre ????? Heq. by destruct pre.
  - rewrite bind_cons. apply initFirst_app; [|done]. unfold recordEvents.
    induction (optList (TrainingRecord.exercises r)) as [|ex exs IHe].
    + intros pre ????? Heq. by destruct pre.
    + rewrite bind_cons. apply initFirst_app; [apply initFirst_exercise|done].
Qed.

(** X26: in the replay of [calculatePRs], once a set with a weight above zero
    has been replayed, a later set of the same exercise name with the same
    weight and no more repetitions changes neither the map nor the maxima,
    whatever is replayed in between. *)
Theorem calculatePRs_repeated_set_no_entry (E : Engine.t) (records : list TrainingRecord.t)
    (pre mid post : list Event) (d1 d2 n : string) (i1 i2 : nat) (s1 s2 : TrainingSet.t) :
  events (sortByDate E records)
    = (pre ++ ProcessSet d1 n i1 s1 :: mid ++ ProcessSet d2 n i2 s2 :: post)%list →
  (0 < TrainingSet.weight s1)%Qc →
  TrainingSet.weight s2 = TrainingSet.weight s1 →
  TrainingSet.reps s2 ≤ TrainingSet.reps s1 →
  let before := foldl step initialState (pre ++ ProcessSet d1 n i1 s1 :: mid) in
  step before (ProcessSet d2 n i2 s2) = before.
Proof.
  intros Hev Hpos Hw Hr before. subst before.
  pose proof (initFirst_events (sortByDate E records) pre d1 n i1 s1 _ Hev) as Hinit.
  assert (sameNames initialState) as Hsame0.
  { intros m. unfold initialState. simpl. by rewrite !lookup_empty. }
  destruct (decide (n ∈ Js.objectPrototype)) as [Hin|Hin].
  { (* an inherited name never gets a maximum, and its sets change nothing *)
    simpl. apply processSet_not_own.
    destruct (foldl_step_names (pre ++ ProcessSet d1 n i1 s1 :: mid) initialState n Hsame0)
      as [_ Hn].
    destruct (maxWeightByExercise _ !! n) eqn:Hmx; [|done].
    destruct (proj1 Hn) as [[? Hempty]|[_ ?]]; [by eexists| |done].
    unfold initialState in Hempty. simpl in Hempty. by rewrite lookup_empty in Hempty. }
  destruct (foldl_step_names pre initialState n Hsame0) as [Hsame Hn].
  assert (is_Some (maxWeightByExercise (foldl step initialState pre) !! n)) as Hsw
    by (apply Hn; by right).
  assert (is_Some (maxRepsAtMaxWeight (foldl step initialState pre) !! n)) as Hsr
    by (by apply Hsame).
  rewrite foldl_app. simpl.
  by apply (repeated_set_no_entry n (foldl step initialState pre) d1 i1 s1 mid d2 i2 s2).
Qed.

Lemma calculatePRs_repeated_set_no_entry_witness :
  let before := foldl step initialState
                  ([InitExercise "Bench Press"]
                   ++ ProcessSet "2024-01-01" "Bench Press" 0 (mkSet (kg 100) 5)
                      :: [InitExercise "Bench Press"]) in
  step before (ProcessSet "2024-01-08" "Bench Press" 0 (mkSet (kg 100) 3)) = before.
Proof.
  apply (calculatePRs_repeated_set_no_entry referenceEngine benchRepeatRecords
           [InitExercise "Bench Press"] [InitExercise "Bench Press"] []).
  - reflexivity.
  - reflexivity.
  - reflexivity.
  - simpl. lia.
Defined.
